(** * Field Reporter (VISIT-REPORT): a shallow embedding and its properties

    The development follows the TypeScript sources:
    - [types.ts]                    the [Report] and [ReportPoint] records;
    - [services/dbService.ts]       [getReports], [saveReport];
    - [services/storageService.ts]  [uploadImage], [getDownloadUrl],
                                    [deleteImage];
    - [components/CameraModal.tsx]  its second half, the [ReportPointCard]
                                    component: [compressImageFile],
                                    [handleImageUpload], [handleCapture],
                                    [handleRemoveImage];
    - [components/ReportEditor.tsx] [handleLocalUpdate], [updateField],
                                    [addPoint], [updatePoint], [removePoint];
    - [services/pdfService.ts]      [getImageData], [generatePdf];
    - [services/docxService.ts]     [generateDocx];
    - [unnamed/part_001]            its second half, the [App] component:
                                    [debounce], [saveToDb], [updateReport],
                                    [handleBackFromEditor], [createReport],
                                    [deleteReport], [renderContent].

    Conventions of the embedding.
    - A JavaScript string is the list of its UTF-16 code units.
    - A JavaScript number is a rational ([Q]), or an integer where the
      source only counts.  The three image scalings ([compressImageFile],
      the image loop of [generatePdf], [processImage]) multiply and divide
      pixel sizes: there every product and quotient is rounded to the
      nearest IEEE 754 double ([round64]), as the engine does.  The heights
      of text blocks and the positions on the page, which [generatePdf]
      adds up and compares with the margins, are taken exactly.  Infinities
      and NaN have no counterpart in [Q]: a decoded picture of width 0, for
      which the image loop of [generatePdf] divides by zero, is outside the
      embedding.
    - A promise is represented by its outcome ([Resolved] or [Rejected]); the
      outcome of a call into the browser, into jsPDF or into Firebase is
      supplied by a [Host] record of oracles.
    - Calls that act on the outside world (pdf drawing calls, [saveReport],
      state setters) are recorded, in program order, in traces. *)

From Stdlib Require Import ZArith QArith Qround Qabs Lqa List Lia String Ascii
  DecimalString SpecFloat.
From stdpp Require Import gmap list strings.

(* ===================================================================== *)
(** * Part I: definitions                                                 *)
(* ===================================================================== *)

(** ** JavaScript strings *)

Definition JsString : Type := list N.

(** A string literal of the source, as code units. *)
Definition js (s : string) : JsString :=
  List.map N_of_ascii (list_ascii_of_string s).

(** [`${n}`] for a non-negative integer [n]. *)
Definition numberToString (n : nat) : JsString :=
  js (NilZero.string_of_uint (Nat.to_uint n)).

(** [s || d] on strings: the empty string is falsy. *)
Definition strOr (s d : JsString) : JsString :=
  match s with [] => d | _ => s end.

Definition isDigit (c : N) : bool := (48 <=? c)%N && (c <=? 57)%N.
Definition isUpper (c : N) : bool := (65 <=? c)%N && (c <=? 90)%N.
Definition isLower (c : N) : bool := (97 <=? c)%N && (c <=? 122)%N.

(** Membership in the class [[a-z0-9]] under the [i] flag.  Without the [u]
    flag case folding never maps a code unit above 127 to an ASCII one, so
    the class is exactly the ASCII letters and digits. *)
Definition isAlnum (c : N) : bool := isLower c || isUpper c || isDigit c.

Definition underscore : N := 95%N.

(** [s.replace(/[^a-z0-9]/gi, '_')]: the pattern has no quantifier, so every
    code unit outside the class is replaced on its own. *)
Definition replaceNonAlnum (s : JsString) : JsString :=
  List.map (fun c => if isAlnum c then c else underscore) s.

(** [toLowerCase] on code units below 128.  It is only ever applied to the
    result of [replaceNonAlnum], which is ASCII (lemma
    [replaceNonAlnum_ascii]). *)
Definition lowerUnit (c : N) : N := if isUpper c then (c + 32)%N else c.
Definition toLowerCase (s : JsString) : JsString := List.map lowerUnit s.

(** [report.title.replace(/[^a-z0-9]/gi, '_').toLowerCase()], the expression
    both export services use. *)
Definition safeTitle (title : JsString) : JsString :=
  toLowerCase (replaceNonAlnum title).

(** A reading of "non-alphanumeric characters collapsed" that merges every
    maximal run of such characters into one underscore.  It is not taken
    from the source; it is only compared with [safeTitle]. *)
Fixpoint collapseRuns (inRun : bool) (s : JsString) : JsString :=
  match s with
  | [] => []
  | c :: rest =>
      if isAlnum c then lowerUnit c :: collapseRuns false rest
      else if inRun then collapseRuns true rest
      else underscore :: collapseRuns true rest
  end.
Definition collapsedSlug (title : JsString) : JsString := collapseRuns false title.

(** ** types.ts *)

Record ReportPoint : Type := mkPoint {
  point_id : JsString;
  text : JsString;
  imagePaths : list JsString;
}.

Record Report : Type := mkReport {
  report_id : JsString;
  userId : JsString;
  userEmail : option JsString;
  title : JsString;
  area : JsString;
  createdAt : JsString;
  points : list ReportPoint;
}.

(** ** Promises, errors and the console *)

Definition JsError : Type := JsString.

Inductive Promise (A : Type) : Type :=
| Resolved (a : A)
| Rejected (e : JsError).
Arguments Resolved {A} a.
Arguments Rejected {A} e.

Definition isResolved {A} (p : Promise A) : bool :=
  match p with Resolved _ => true | Rejected _ => false end.

(** [await p] followed by the rest of an async function. *)
Definition andThen {A B} (p : Promise A) (k : A -> Promise B) : Promise B :=
  match p with
  | Resolved a => k a
  | Rejected e => Rejected e
  end.

Notation "'await' x ':=' p 'in' k" := (andThen p (fun x => k))
  (at level 10, x name, p at level 100, k at level 200).

(** [Promise.all] over already started operations: the values in input order
    when all resolve, the rejection otherwise. *)
Fixpoint promiseAll {A} (ps : list (Promise A)) : Promise (list A) :=
  match ps with
  | [] => Resolved []
  | p :: rest =>
      match p, promiseAll rest with
      | Resolved a, Resolved l => Resolved (a :: l)
      | Rejected e, _ => Rejected e
      | Resolved _, Rejected e => Rejected e
      end
  end.

Inductive LogEntry : Type :=
| ConsoleError (label : JsString) (e : JsError).

(** ** services/dbService.ts *)

(** What the Firestore handle does when asked; [None] stands for the [null]
    handle of an incomplete configuration. *)
Record Firestore : Type := mkFirestore {
  (** [collection('reports').orderBy('createdAt','desc').get()], with the
      documents already mapped through [doc.data()] *)
  query_get : Promise (list Report);
  (** [collection('reports').doc(id).set(report)] *)
  doc_set : Report -> Promise unit;
}.

Definition getReports (db : option Firestore) : list LogEntry * Promise (list Report) :=
  match db with
  | None => ([], Resolved [])
  | Some d =>
      match query_get d with
      | Resolved docs => ([], Resolved docs)
      | Rejected error =>
          ([ConsoleError (js "Error fetching reports:") error], Resolved [])
      end
  end.

Definition saveReport (db : option Firestore) (reportToSave : Report)
  : list LogEntry * Promise Report :=
  match db with
  | None => ([], Rejected (js "Firestore not initialized"))
  | Some d =>
      match doc_set d reportToSave with
      | Resolved _ => ([], Resolved reportToSave)
      | Rejected error =>
          ([ConsoleError (js "Error saving report:") error], Rejected error)
      end
  end.

(** ** Numbers *)

Definition Qgtb (x y : Q) : bool := negb (Qle_bool x y).

(** Truncation toward zero. *)
Definition Qtrunc (q : Q) : Z :=
  if Qle_bool 0 q then Qfloor q else Qceiling q.

(** Conversion of a number to the [unsigned long] of a DOM attribute such as
    [canvas.width]: truncate, then reduce modulo [2^32]. *)
Definition toUnsignedLong (q : Q) : Z := (Qtrunc q) mod (2 ^ 32).

(** [n || d] on numbers: [undefined] and [0] are falsy. *)
Definition numOr (n : option Q) (d : Q) : Q :=
  match n with
  | Some v => if Qeq_bool v 0 then d else v
  | None => d
  end.

(** ** IEEE 754 doubles

    The doubles are the integer multiples of [2^-1074] that have at most 53
    significant bits.  [round64 x] is the double nearest to [x], a tie going
    to the even significand, which is what [*] and [/] return for an exact
    result [x] (no value in this development comes near the overflow
    threshold [2^1024]). *)

Local Open Scope Q_scope.

(** The nearest integer, a tie going to the even one. *)
Definition roundHalfEven (q : Q) : Z :=
  let f := Qfloor q in
  match Qcompare (q - inject_Z f) (1 # 2) with
  | Lt => f
  | Gt => (f + 1)%Z
  | Eq => if Z.even f then f else (f + 1)%Z
  end.

(** [y] counts units of [2^-1074]: keep its 53 leading bits, rounded. *)
Definition roundSignificand (y : Q) : Z :=
  let e := Z.max 0 (Z.log2 (Qfloor y) - 52) in
  (roundHalfEven (y / inject_Z (2 ^ e)) * 2 ^ e)%Z.

Definition round64 (x : Q) : Q :=
  let r :=
    Qred (inject_Z (roundSignificand (Qabs x * inject_Z (2 ^ 1074)))
          / inject_Z (2 ^ 1074)) in
  if Qle_bool 0 x then r else - r.

(** [x * y] and [x / y] on doubles. *)
Definition fmul (x y : Q) : Q := round64 (x * y).
Definition fdiv (x y : Q) : Q := round64 (x / y).

(** The same product of a quotient through the Standard Library's
    specification of binary64 arithmetic, for comparison. *)
Definition doubleOfZ (z : Z) : spec_float := binary_normalize 53 1024 z 0 false.

Definition valueOf (f : spec_float) : option Q :=
  match f with
  | S754_zero _ => Some 0
  | S754_finite sign m e =>
      let v :=
        if (0 <=? e)%Z then inject_Z (Z.pos m * 2 ^ e)
        else inject_Z (Z.pos m) / inject_Z (2 ^ (- e)) in
      Some (Qred (if sign then - v else v))
  | _ => None
  end.

Definition specScaled (a c b : Z) : option Q :=
  valueOf (SFmul 53 1024 (doubleOfZ a) (SFdiv 53 1024 (doubleOfZ c) (doubleOfZ b))).

Local Close Scope Q_scope.

(** ** The browser and Firebase Storage *)

(** An encoded picture; its pixel dimensions are kept with it. *)
Record Blob : Type := mkBlob {
  blob_type : JsString;
  blob_quality : Q;
  blob_width : Z;
  blob_height : Z;
  blob_content : JsString;
}.

(** A decoded [Image] element after its [onload]. *)
Record LoadedImage : Type := mkLoaded {
  natWidth : Z;
  natHeight : Z;
  pixels : JsString;
}.

Definition File : Type := JsString.

Record Storage : Type := mkStorage {
  getDownloadURL : JsString -> Promise JsString;
  uploadBytes : JsString -> Blob -> Promise unit;
  deleteObject : JsString -> Promise unit;
}.

Record Host : Type := mkHost {
  (** [storage] of dbService.ts; [None] when the configuration is incomplete *)
  storage : option Storage;
  (** [FileReader.readAsDataURL]: [onload] or [onerror] *)
  readAsDataURL : File -> Promise JsString;
  (** [img.src = url]: [onload] with the decoded picture, or [onerror] *)
  loadImage : JsString -> Promise LoadedImage;
  (** whether [canvas.getContext('2d')] returns a context *)
  getContext2d : bool;
  (** [canvas.toBlob(cb, 'image/jpeg', 0.7)]: the bytes, or [null] *)
  canvasToBlob : LoadedImage -> Z -> Z -> option JsString;
  (** [canvas.toDataURL('image/jpeg')] *)
  canvasToDataURL : LoadedImage -> JsString;
  (** [(await fetch(url)).blob()] *)
  fetchBlob : JsString -> Promise Blob;
  (** the image name [img_${Date.now()}_${random}.jpg] drawn for an upload *)
  freshImageName : Blob -> JsString;
  (** [pdf.splitTextToSize(text, width)] under the current font and size *)
  splitTextToSize : bool -> bool -> Q -> JsString -> Q -> list JsString;
  (** [new Date(s).toLocaleDateString()] *)
  toLocaleDateString : JsString -> JsString;
}.

(** ** services/storageService.ts *)

Definition uploadImage (h : Host) (imageBlob : Blob) (userId reportId : JsString)
  : Promise JsString :=
  match storage h with
  | None => Rejected (js "Storage not initialized")
  | Some st =>
      let imageName := freshImageName h imageBlob in
      let imagePath :=
        js "images/" ++ userId ++ js "/" ++ reportId ++ js "/" ++ imageName in
      await _u := uploadBytes st imagePath imageBlob in
      Resolved imagePath
  end.

Definition getDownloadUrl (h : Host) (path : JsString) : Promise JsString :=
  match storage h with
  | None => Rejected (js "Storage not initialized")
  | Some st => getDownloadURL st path
  end.

Definition deleteImage (h : Host) (path : JsString) : Promise unit :=
  match storage h with
  | None => Rejected (js "Storage not initialized")
  | Some st => deleteObject st path
  end.

(** ** compressImageFile (components/CameraModal.tsx, lines 127-168) *)

Definition MAX_WIDTH : Z := 800.
Definition MAX_HEIGHT : Z := 800.

(** The values of [width] and [height] after the [if] that scales them:
    [height *= MAX_WIDTH / width] divides, then multiplies, in doubles. *)
Definition scaledSize (imgWidth imgHeight : Z) : Q * Q :=
  let width := inject_Z imgWidth in
  let height := inject_Z imgHeight in
  if (imgWidth >? imgHeight)%Z then
    if (imgWidth >? MAX_WIDTH)%Z
    then (inject_Z MAX_WIDTH, fmul height (fdiv (inject_Z MAX_WIDTH) width))
    else (width, height)
  else if (imgHeight >? MAX_HEIGHT)%Z
    then (fmul width (fdiv (inject_Z MAX_HEIGHT) height), inject_Z MAX_HEIGHT)
    else (width, height).

(** [canvas.width = width; canvas.height = height]. *)
Definition canvasSize (imgWidth imgHeight : Z) : Z * Z :=
  let '(width, height) := scaledSize imgWidth imgHeight in
  (toUnsignedLong width, toUnsignedLong height).

Definition compressImageFile (h : Host) (file : File) : Promise Blob :=
  await dataUrl := readAsDataURL h file in
  await img := loadImage h dataUrl in
  let '(cw, ch) := canvasSize (natWidth img) (natHeight img) in
  if negb (getContext2d h) then Rejected (js "Could not get canvas context")
  else
    match canvasToBlob h img cw ch with
    | Some bytes =>
        Resolved {| blob_type := js "image/jpeg"; blob_quality := (7 # 10)%Q;
                    blob_width := cw; blob_height := ch; blob_content := bytes |}
    | None => Rejected (js "Canvas to Blob conversion failed")
    end.

(** ** services/pdfService.ts *)

Local Open Scope Q_scope.

Module FONT_SIZES.
Definition TITLE : Q := 22.
Definition HEADING_2 : Q := 16.
Definition HEADING_3 : Q := 14.
Definition BODY : Q := 12.
Definition META : Q := 10.
End FONT_SIZES.

Module MARGINS.
Definition TOP : Q := 20.
Definition BOTTOM : Q := 20.
Definition LEFT : Q := 20.
Definition RIGHT : Q := 20.
End MARGINS.

Definition LINE_HEIGHT : Q := 14 # 10.
Definition a4Width : Q := 210.
Definition a4Height : Q := 297.
Definition printableWidth : Q := a4Width - MARGINS.LEFT - MARGINS.RIGHT.

(** The conversion factor from points to millimetres written in the source. *)
Definition PT_TO_MM : Q := 352778 # 1000000.

Record ImgData : Type := mkImgData {
  data : JsString;
  width : Z;
  height : Z;
}.

Definition getImageData (h : Host) (url : JsString) : Promise ImgData :=
  await img := loadImage h url in
  if negb (getContext2d h) then Rejected (js "Could not get canvas context")
  else Resolved {| data := canvasToDataURL h img;
                   width := natWidth img; height := natHeight img |}.

Inductive Align : Type := AlignLeft | AlignCenter | AlignRight.

(** The calls made on the [jsPDF] object, in program order. *)
Inductive PdfOp : Type :=
| OpSetFont (isBold isItalic : bool)
| OpSetFontSize (fontSize : Q)
| OpAddPage
| OpText (textLines : list JsString) (x y : Q) (align : Align)
| OpSetDrawColor (r g b : Z)
| OpLine (x1 y1 x2 y2 : Q)
| OpAddImage (imgData : JsString) (x y w hgt : Q)
| OpSave (fileName : JsString).

Record PdfState : Type := mkPdfState {
  ops : list PdfOp;
  currentY : Q;
  pdfLog : list LogEntry;
}.

Definition emit (op : PdfOp) (st : PdfState) : PdfState :=
  {| ops := ops st ++ [op]; currentY := currentY st; pdfLog := pdfLog st |}.

Definition setY (y : Q) (st : PdfState) : PdfState :=
  {| ops := ops st; currentY := y; pdfLog := pdfLog st |}.

(** [currentY += d] *)
Definition advanceY (d : Q) (st : PdfState) : PdfState :=
  setY (currentY st + d) st.

Definition addPage (st : PdfState) : PdfState :=
  setY MARGINS.TOP (emit OpAddPage st).

Definition checkAndAddPage (spaceNeeded : Q) (st : PdfState) : PdfState :=
  if Qgtb (currentY st + spaceNeeded) (a4Height - MARGINS.BOTTOM)
  then addPage st
  else st.

Record TextOptions : Type := mkTextOptions {
  isBold : bool;
  isItalic : bool;
  align : option Align;
}.

Definition plainText : TextOptions :=
  {| isBold := false; isItalic := false; align := None |}.

Definition addWrappedText (h : Host) (txt : JsString) (fontSize : Q)
    (options : TextOptions) (st : PdfState) : PdfState :=
  let st := emit (OpSetFont (isBold options) (isItalic options)) st in
  let st := emit (OpSetFontSize fontSize) st in
  let textLines :=
    splitTextToSize h (isBold options) (isItalic options) fontSize
      (strOr txt (js " ")) printableWidth in
  let blockHeight :=
    inject_Z (Z.of_nat (length textLines)) * fontSize * PT_TO_MM * LINE_HEIGHT in
  let st := checkAndAddPage blockHeight st in
  let st :=
    emit (OpText textLines
            (match align options with
             | Some AlignCenter => a4Width / 2
             | _ => MARGINS.LEFT
             end)
            (currentY st)
            (match align options with Some a => a | None => AlignLeft end)) st in
  advanceY blockHeight st.

(** The key [`${point.id}-${imgIndex}`] of the size table. *)
Definition sizeKey (point : ReportPoint) (imgIndex : nat) : JsString :=
  point_id point ++ js "-" ++ numberToString imgIndex.

Definition DEFAULT_SIZE_PERCENT : Q := 60.

(** The geometry the image loop computes for one fetched image, each
    product and quotient a double.  ([img.width] of a decoded picture is
    positive; for a zero width the source divides by zero.) *)
Definition desiredWidthOf (sizePercent : Q) : Q :=
  fmul printableWidth (fdiv sizePercent 100).
Definition imgHeightOf (sizePercent : Q) (imgData : ImgData) : Q :=
  let aspectRatio := fdiv (inject_Z (height imgData)) (inject_Z (width imgData)) in
  fmul (desiredWidthOf sizePercent) aspectRatio.
Definition printablePageHeight : Q := a4Height - MARGINS.TOP - MARGINS.BOTTOM.

(** The [try] block of the image loop, after both awaits succeeded. *)
Definition placeImage (sizePercent : Q) (imgData : ImgData) (st : PdfState)
  : PdfState :=
  let desiredWidth := desiredWidthOf sizePercent in
  let imgHeight := imgHeightOf sizePercent imgData in
  let requiredSpace := imgHeight + 5 in
  let st :=
    if Qgtb (currentY st + requiredSpace) (a4Height - MARGINS.BOTTOM)
       && Qle_bool requiredSpace printablePageHeight
    then addPage st
    else st in
  let st :=
    emit (OpAddImage (data imgData) MARGINS.LEFT (currentY st)
            desiredWidth imgHeight) st in
  advanceY requiredSpace st.

Definition fetchImageData (h : Host) (path : JsString) : Promise ImgData :=
  await downloadUrl := getDownloadUrl h path in
  getImageData h downloadUrl.

(** One iteration of [for (const [imgIndex, path] of point.imagePaths.entries())]. *)
Definition renderImage (h : Host) (imageSizes : gmap JsString Q)
    (point : ReportPoint) (imgIndex : nat) (path : JsString) (st : PdfState)
  : PdfState :=
  match fetchImageData h path with
  | Resolved imgData =>
      let sizePercent :=
        numOr (imageSizes !! sizeKey point imgIndex) DEFAULT_SIZE_PERCENT in
      placeImage sizePercent imgData st
  | Rejected e =>
      let st :=
        {| ops := ops st; currentY := currentY st;
           pdfLog := pdfLog st
             ++ [ConsoleError (js "Could not load image for PDF, skipping.") e] |} in
      addWrappedText h (js "[Image could not be loaded]") FONT_SIZES.META
        {| isBold := false; isItalic := true; align := None |} st
  end.

Fixpoint renderImages (h : Host) (imageSizes : gmap JsString Q)
    (point : ReportPoint) (imgIndex : nat) (paths : list JsString)
    (st : PdfState) : PdfState :=
  match paths with
  | [] => st
  | path :: rest =>
      renderImages h imageSizes point (S imgIndex) rest
        (renderImage h imageSizes point imgIndex path st)
  end.

(** One iteration of [for (const [index, point] of report.points.entries())];
    [total] is [report.points.length]. *)
Definition renderPoint (h : Host) (imageSizes : gmap JsString Q) (total : nat)
    (index : nat) (point : ReportPoint) (st : PdfState) : PdfState :=
  let st := checkAndAddPage (FONT_SIZES.HEADING_3 * PT_TO_MM * LINE_HEIGHT) st in
  let st :=
    addWrappedText h (js "Point #" ++ numberToString (index + 1)%nat)
      FONT_SIZES.HEADING_3 {| isBold := true; isItalic := false; align := None |}
      st in
  let st := advanceY 2 st in
  let st := addWrappedText h (text point) FONT_SIZES.BODY plainText st in
  let st := advanceY 5 st in
  let st := renderImages h imageSizes point 0 (imagePaths point) st in
  if (Z.of_nat index <? Z.of_nat total - 1)%Z then
    let st := checkAndAddPage 10 st in
    let st := advanceY 5 st in
    let st := emit (OpSetDrawColor 220 220 220) st in
    let st :=
      emit (OpLine MARGINS.LEFT (currentY st) (a4Width - MARGINS.RIGHT)
              (currentY st)) st in
    advanceY 5 st
  else st.

Fixpoint renderPoints (h : Host) (imageSizes : gmap JsString Q) (total : nat)
    (index : nat) (pts : list ReportPoint) (st : PdfState) : PdfState :=
  match pts with
  | [] => st
  | point :: rest =>
      renderPoints h imageSizes total (S index) rest
        (renderPoint h imageSizes total index point st)
  end.

Definition pdfFileName (report : Report) : JsString :=
  js "Report_" ++ safeTitle (title report) ++ js ".pdf".

Definition renderHeader (h : Host) (report : Report) (st : PdfState) : PdfState :=
  let st :=
    addWrappedText h (title report) FONT_SIZES.TITLE
      {| isBold := true; isItalic := false; align := Some AlignCenter |} st in
  let st := advanceY 4 st in
  let st :=
    addWrappedText h (area report) FONT_SIZES.HEADING_2
      {| isBold := false; isItalic := false; align := Some AlignCenter |} st in
  let st := advanceY 2 st in
  let st :=
    addWrappedText h
      (js "Generated: " ++ toLocaleDateString h (createdAt report))
      FONT_SIZES.META
      {| isBold := false; isItalic := true; align := Some AlignCenter |} st in
  let st := advanceY 10 st in
  let st := emit (OpSetDrawColor 180 180 180) st in
  let st :=
    emit (OpLine MARGINS.LEFT (currentY st) (a4Width - MARGINS.RIGHT)
            (currentY st)) st in
  advanceY 10 st.

Definition pdfStart : PdfState :=
  {| ops := []; currentY := MARGINS.TOP; pdfLog := [] |}.

(** The body of the outer [try]: no modelled call in it throws outside the
    per-image [try], so the function reaches [return true]. *)
Definition generatePdf (h : Host) (report : Report)
    (imageSizes : gmap JsString Q) : PdfState * bool :=
  let st := renderHeader h report pdfStart in
  let st :=
    renderPoints h imageSizes (length (points report)) 0 (points report) st in
  let st := emit (OpSave (pdfFileName report)) st in
  (st, true).

(** ** services/docxService.ts *)

Inductive DocxChild : Type :=
| HeadingPara (level : nat) (txt : JsString) (centered : bool)
| RunPara (txt : JsString) (bold italics : bool) (size : option Z)
    (spacingAfter : Z) (centered : bool)
| ImagePara (buffer : JsString) (w hgt : Q).

Record DocxImage : Type := mkDocxImage {
  dx_data : JsString;
  dx_width : Q;
  dx_height : Q;
}.

Definition Qmin (x y : Q) : Q := if Qle_bool x y then x else y.

(** [processImage]: every failure inside it is caught and turned into
    [null]; the scale and both sizes are computed in doubles. *)
Definition processImage (h : Host) (path : JsString)
  : list LogEntry * option DocxImage :=
  let attempt :=
    await downloadUrl := getDownloadUrl h path in
    await blob := fetchBlob h downloadUrl in
    await image := loadImage h (blob_content blob) in
    let maxWidth : Q := 550 in
    let scale :=
      (* [550 / 0] is [Infinity], and [Math.min(1, Infinity)] is [1] *)
      if (natWidth image =? 0)%Z then 1
      else Qmin 1 (fdiv maxWidth (inject_Z (natWidth image))) in
    Resolved {| dx_data := blob_content blob;
                dx_width := fmul (inject_Z (natWidth image)) scale;
                dx_height := fmul (inject_Z (natHeight image)) scale |} in
  match attempt with
  | Resolved d => ([], Some d)
  | Rejected error =>
      ([ConsoleError (js "Error processing image for DOCX:") error], None)
  end.

Fixpoint docxImages (h : Host) (paths : list JsString)
  : list LogEntry * list DocxChild :=
  match paths with
  | [] => ([], [])
  | imagePath :: rest =>
      let '(lg, imgData) := processImage h imagePath in
      let '(lg', children) := docxImages h rest in
      (lg ++ lg',
       match imgData with
       | Some d => ImagePara (dx_data d) (dx_width d) (dx_height d) :: children
       | None => children
       end)
  end.

Fixpoint docxPoints (h : Host) (index : nat) (pts : list ReportPoint)
  : list LogEntry * list DocxChild :=
  match pts with
  | [] => ([], [])
  | point :: rest =>
      let '(lg, imgs) := docxImages h (imagePaths point) in
      let '(lg', children) := docxPoints h (S index) rest in
      (lg ++ lg',
       RunPara (js "Point #" ++ numberToString (index + 1)%nat) true false (Some 28%Z)
         200 false
       :: RunPara (text point) false false None 200 false
       :: imgs ++ children)
  end.

Definition docxFileName (report : Report) : JsString :=
  js "Report_" ++ safeTitle (title report) ++ js ".docx".

Record DocxResult : Type := mkDocxResult {
  children : list DocxChild;
  download : JsString;
  docxLog : list LogEntry;
}.

(** [today] is [new Date().toLocaleDateString()].  [Packer.toBlob] and the
    download through a temporary link are taken to succeed, so the function
    reaches [return true]. *)
Definition generateDocx (h : Host) (today : JsString) (report : Report)
  : DocxResult * bool :=
  let '(lg, pointChildren) := docxPoints h 0 (points report) in
  ({| children :=
        HeadingPara 1 (title report) true
        :: HeadingPara 2 (area report) true
        :: RunPara (js "Generated: " ++ today) false true (Some 20%Z) 400 true
        :: HeadingPara 2 (js "Report Points") false
        :: pointChildren;
      download := docxFileName report;
      docxLog := lg |}, true).

Local Close Scope Q_scope.

(** ** components/ReportEditor.tsx and the ReportPointCard component

    A handler is a function from the values its closure captured to the
    trace of state setters and outgoing calls it performs. *)

Inductive Effect : Type :=
| SetLocalReport (r : Report)
| OnUpdateReport (r : Report) (options : option bool)
| CallUploadImage (b : Blob) (uid rid : JsString)
| CallDeleteImage (path : option JsString)
| SetIsProcessingImage (b : bool)
| SetIsCameraOpen (b : bool)
| ResetFileInput
| Log (e : LogEntry).

(** What the editor's callbacks close over in one render. *)
Record Editor : Type := mkEditor {
  localReport : Report;
  currentUserId : JsString;
}.

Definition isOwner (e : Editor) : bool :=
  bool_decide (userId (localReport e) = currentUserId e).

Definition handleLocalUpdate (e : Editor) (updatedReport : Report)
    (options : option bool) : list Effect :=
  if negb (isOwner e) then []
  else [SetLocalReport updatedReport; OnUpdateReport updatedReport options].

(** [keyof Omit<Report, 'points' | 'id' | 'createdAt' | 'userId'>] *)
Inductive Field : Type := FieldTitle | FieldArea | FieldUserEmail.

Definition setField (r : Report) (field : Field) (value : JsString) : Report :=
  match field with
  | FieldTitle =>
      mkReport (report_id r) (userId r) (userEmail r) value (area r)
        (createdAt r) (points r)
  | FieldArea =>
      mkReport (report_id r) (userId r) (userEmail r) (title r) value
        (createdAt r) (points r)
  | FieldUserEmail =>
      mkReport (report_id r) (userId r) (Some value) (title r) (area r)
        (createdAt r) (points r)
  end.

Definition setPoints (r : Report) (pts : list ReportPoint) : Report :=
  mkReport (report_id r) (userId r) (userEmail r) (title r) (area r)
    (createdAt r) pts.

Definition updateField (e : Editor) (field : Field) (value : JsString)
  : list Effect :=
  handleLocalUpdate e (setField (localReport e) field value) None.

(** [dateNow] is [Date.now()]. *)
Definition addPoint (e : Editor) (dateNow : nat) : list Effect :=
  if negb (isOwner e) then []
  else
    let newPoint :=
      {| point_id := js "point-" ++ numberToString dateNow;
         text := []; imagePaths := [] |} in
    handleLocalUpdate e
      (setPoints (localReport e) (points (localReport e) ++ [newPoint]))
      (Some true).

(** [Partial<ReportPoint>] *)
Record PartialPoint : Type := mkPartial {
  new_id : option JsString;
  new_text : option JsString;
  new_imagePaths : option (list JsString);
}.

Definition onlyText (t : JsString) : PartialPoint :=
  {| new_id := None; new_text := Some t; new_imagePaths := None |}.
Definition onlyImagePaths (l : list JsString) : PartialPoint :=
  {| new_id := None; new_text := None; new_imagePaths := Some l |}.

(** [{ ...p, ...newPointData }] *)
Definition mergePoint (p : ReportPoint) (d : PartialPoint) : ReportPoint :=
  {| point_id := default (point_id p) (new_id d);
     text := default (text p) (new_text d);
     imagePaths := default (imagePaths p) (new_imagePaths d) |}.

Definition updatePoint (e : Editor) (id : JsString) (newPointData : PartialPoint)
    (options : option bool) : list Effect :=
  if negb (isOwner e) then []
  else
    let updatedPoints :=
      List.map (fun p => if bool_decide (point_id p = id)
                         then mergePoint p newPointData else p)
        (points (localReport e)) in
    handleLocalUpdate e (setPoints (localReport e) updatedPoints) options.

Definition removePoint (e : Editor) (id : JsString) : list Effect :=
  if negb (isOwner e) then []
  else
    let updatedPoints :=
      List.filter (fun p => negb (bool_decide (point_id p = id)))
        (points (localReport e)) in
    handleLocalUpdate e (setPoints (localReport e) updatedPoints) (Some true).

(** The async function mapped over the files in [handleImageUpload]. *)
Definition uploadOne (h : Host) (e : Editor) (file : File) : Promise JsString :=
  await compressedBlob := compressImageFile h file in
  await imagePath :=
    uploadImage h compressedBlob (userId (localReport e))
      (report_id (localReport e)) in
  Resolved imagePath.

(** The [uploadImage] calls the mapped functions reach.  They run
    concurrently; they are listed in file order. *)
Definition uploadCalls (h : Host) (e : Editor) (files : list File) : list Effect :=
  flat_map (fun file =>
              match compressImageFile h file with
              | Resolved b =>
                  [CallUploadImage b (userId (localReport e))
                     (report_id (localReport e))]
              | Rejected _ => []
              end) files.

(** [point] is the point the card was rendered with. *)
Definition handleImageUpload (h : Host) (e : Editor) (point : ReportPoint)
    (files : list File) : list Effect :=
  if (length files =? 0)%nat || negb (isOwner e) then []
  else
    [SetIsProcessingImage true]
    ++ uploadCalls h e files
    ++ match promiseAll (List.map (uploadOne h e) files) with
       | Resolved newPaths =>
           updatePoint e (point_id point)
             (onlyImagePaths (imagePaths point ++ newPaths)) (Some true)
       | Rejected error =>
           [Log (ConsoleError (js "Error processing and uploading images:") error)]
       end
    ++ [SetIsProcessingImage false; ResetFileInput].

Definition handleCapture (h : Host) (e : Editor) (point : ReportPoint)
    (imageDataUrl : JsString) : list Effect :=
  (if negb (bool_decide (imageDataUrl = [])) && isOwner e then
     [SetIsProcessingImage true]
     ++ match fetchBlob h imageDataUrl with
        | Resolved blob =>
            CallUploadImage blob (userId (localReport e))
              (report_id (localReport e))
            :: match uploadImage h blob (userId (localReport e))
                       (report_id (localReport e)) with
               | Resolved imagePath =>
                   updatePoint e (point_id point)
                     (onlyImagePaths (imagePaths point ++ [imagePath]))
                     (Some true)
               | Rejected error =>
                   [Log (ConsoleError (js "Error uploading captured image:") error)]
               end
        | Rejected error =>
            [Log (ConsoleError (js "Error uploading captured image:") error)]
        end
     ++ [SetIsProcessingImage false]
   else [])
  ++ [SetIsCameraOpen false].

Definition handleRemoveImage (h : Host) (e : Editor) (point : ReportPoint)
    (imageIndex : nat) : list Effect :=
  if negb (isOwner e) then []
  else
    let pathToDelete := imagePaths point !! imageIndex in
    let updatedPaths := delete imageIndex (imagePaths point) in
    updatePoint e (point_id point) (onlyImagePaths updatedPaths) (Some true)
    ++ [CallDeleteImage pathToDelete]
    ++ match pathToDelete with
       | Some path =>
           match deleteImage h path with
           | Resolved _ => []
           | Rejected error =>
               [Log (ConsoleError (js "Failed to delete image from storage:") error)]
           end
       | None => []
       end.

(** The interactions the editor screen offers on a report. *)
Inductive Interaction : Type :=
| DoUpdateField (field : Field) (value : JsString)
| DoAddPoint (dateNow : nat)
| DoUpdatePoint (id : JsString) (d : PartialPoint) (options : option bool)
| DoRemovePoint (id : JsString)
| DoImageUpload (point : ReportPoint) (files : list File)
| DoCapture (point : ReportPoint) (imageDataUrl : JsString)
| DoRemoveImage (point : ReportPoint) (imageIndex : nat).

Definition interact (h : Host) (e : Editor) (i : Interaction) : list Effect :=
  match i with
  | DoUpdateField field value => updateField e field value
  | DoAddPoint dateNow => addPoint e dateNow
  | DoUpdatePoint id d options => updatePoint e id d options
  | DoRemovePoint id => removePoint e id
  | DoImageUpload point files => handleImageUpload h e point files
  | DoCapture point url => handleCapture h e point url
  | DoRemoveImage point idx => handleRemoveImage h e point idx
  end.

(** ** The App component (unnamed/part_001): the sync controller

    The component state and everything its callbacks share is one record.
    [useCallback(f, deps)] returns the callback of the previous render unless
    a dependency changed.  [saveToDb] (lines 257-268) depends on
    [syncStatus] only, and
    [debouncedSave = useCallback(debounce(saveToDb, 1500), [saveToDb])]
    (line 270) depends on [saveToDb] only: a render in which [syncStatus]
    differs from the previous render yields a new [saveToDb], which has
    captured the new status, and a new debounce instance with its own
    [timeout] variable.  A callback reads the [syncStatus] of the render that
    created it, not the value a setter has stored since. *)

Inductive SyncStatus : Type := saved | saving | unsaved.

Global Instance SyncStatus_eq_dec : EqDecision SyncStatus.
Proof. solve_decision. Defined.

Inductive ToastType : Type := success | error.

Record Toast : Type := mkToast {
  show : bool;
  message : JsString;
  toastType : ToastType;
}.

(** A pending [setTimeout(() => func(...args), waitFor)] of a debounce
    instance: [func] is the [saveToDb] the instance wraps, known by the
    status it captured, and [args] is the report. *)
Record Timer : Type := mkTimer {
  timer_id : nat;
  timer_owner : nat;
  timer_seen : SyncStatus;
  timer_arg : Report;
  timer_due : nat;
}.

(** The memoised callbacks of one render: the status [saveToDb] captured and
    the debounce instance [debouncedSave] denotes. *)
Record Callbacks : Type := mkCallbacks {
  cb_status : SyncStatus;
  cb_debounced : nat;
}.

Record App : Type := mkApp {
  now : nat;                      (* milliseconds *)
  reports : list Report;
  activeReportId : option JsString;
  syncStatus : SyncStatus;
  toast : Toast;
  rendered : Callbacks;           (* the callbacks of the last render *)
  timeouts : gmap nat nat;        (* [timeout] of each debounce instance; absent = null *)
  timers : list Timer;            (* pending timers, oldest first *)
  nextTimer : nat;
  nextInstance : nat;
  inflight : list nat;            (* unsettled [saveReport] calls, by position in [saveCalls] *)
  saveCalls : list Report;        (* every [saveReport] call issued, oldest first *)
  appLog : list LogEntry;
  closing : list nat;             (* calls a [handleBackFromEditor] is awaiting *)
}.

Definition waitFor : nat := 1500.

Definition setNow (t : nat) (s : App) : App :=
  mkApp t (reports s) (activeReportId s) (syncStatus s) (toast s) (rendered s)
    (timeouts s) (timers s) (nextTimer s) (nextInstance s) (inflight s)
    (saveCalls s) (appLog s) (closing s).
Definition setReports (l : list Report) (s : App) : App :=
  mkApp (now s) l (activeReportId s) (syncStatus s) (toast s) (rendered s)
    (timeouts s) (timers s) (nextTimer s) (nextInstance s) (inflight s)
    (saveCalls s) (appLog s) (closing s).
Definition setActiveReportId (a : option JsString) (s : App) : App :=
  mkApp (now s) (reports s) a (syncStatus s) (toast s) (rendered s)
    (timeouts s) (timers s) (nextTimer s) (nextInstance s) (inflight s)
    (saveCalls s) (appLog s) (closing s).
Definition setSyncStatus (st : SyncStatus) (s : App) : App :=
  mkApp (now s) (reports s) (activeReportId s) st (toast s) (rendered s)
    (timeouts s) (timers s) (nextTimer s) (nextInstance s) (inflight s)
    (saveCalls s) (appLog s) (closing s).
Definition setToast (t : Toast) (s : App) : App :=
  mkApp (now s) (reports s) (activeReportId s) (syncStatus s) t (rendered s)
    (timeouts s) (timers s) (nextTimer s) (nextInstance s) (inflight s)
    (saveCalls s) (appLog s) (closing s).
Definition setTimers (l : list Timer) (s : App) : App :=
  mkApp (now s) (reports s) (activeReportId s) (syncStatus s) (toast s)
    (rendered s) (timeouts s) l (nextTimer s) (nextInstance s) (inflight s)
    (saveCalls s) (appLog s) (closing s).
Definition setInflight (l : list nat) (s : App) : App :=
  mkApp (now s) (reports s) (activeReportId s) (syncStatus s) (toast s)
    (rendered s) (timeouts s) (timers s) (nextTimer s) (nextInstance s) l
    (saveCalls s) (appLog s) (closing s).
Definition logError (e : LogEntry) (s : App) : App :=
  mkApp (now s) (reports s) (activeReportId s) (syncStatus s) (toast s)
    (rendered s) (timeouts s) (timers s) (nextTimer s) (nextInstance s)
    (inflight s) (saveCalls s) (appLog s ++ [e]) (closing s).

Definition setClosing (l : list nat) (s : App) : App :=
  mkApp (now s) (reports s) (activeReportId s) (syncStatus s) (toast s)
    (rendered s) (timeouts s) (timers s) (nextTimer s) (nextInstance s)
    (inflight s) (saveCalls s) (appLog s) l.

Definition showToast (msg : JsString) (ty : ToastType) (s : App) : App :=
  setToast {| show := true; message := msg; toastType := ty |} s.

(** [clearTimeout(id)] *)
Definition clearTimeout (id : nat) (s : App) : App :=
  setTimers (List.filter (fun tm => negb (timer_id tm =? id)%nat) (timers s)) s.

(** The synchronous part of [saveToDb], up to and including the call of
    [saveReport]; [seen] is the [syncStatus] the callback captured. *)
Definition saveToDb (seen : SyncStatus) (report : Report) (s : App) : App :=
  if bool_decide (seen = saving) then s
  else
    let s := setSyncStatus saving s in
    mkApp (now s) (reports s) (activeReportId s) (syncStatus s) (toast s)
      (rendered s) (timeouts s) (timers s) (nextTimer s) (nextInstance s)
      (inflight s ++ [length (saveCalls s)]) (saveCalls s ++ [report])
      (appLog s) (closing s).

(** The rest of [saveToDb], run when the awaited [saveReport] settles. *)
Definition saveSettled (outcome : Promise Report) (s : App) : App :=
  match outcome with
  | Resolved _ => setSyncStatus saved s
  | Rejected e =>
      let s := logError (ConsoleError (js "Save failed:") e) s in
      let s := setSyncStatus unsaved s in
      showToast (js "Failed to save changes.") error s
  end.

(** [debounced(...args)] of the instance [inst], which wraps the [saveToDb]
    that captured [seen]. *)
Definition debounced (inst : nat) (seen : SyncStatus) (report : Report)
    (s : App) : App :=
  let s :=
    match timeouts s !! inst with
    | Some t => clearTimeout t s
    | None => s
    end in
  let t := nextTimer s in
  mkApp (now s) (reports s) (activeReportId s) (syncStatus s) (toast s)
    (rendered s) (<[inst := t]> (timeouts s))
    (timers s ++ [mkTimer t inst seen report (now s + waitFor)])
    (S t) (nextInstance s) (inflight s) (saveCalls s) (appLog s) (closing s).

(** [debounced.cancel()] *)
Definition cancel (inst : nat) (s : App) : App :=
  match timeouts s !! inst with
  | Some t => clearTimeout t s
  | None => s
  end.

Definition isImmediate (options : option bool) : bool :=
  match options with Some true => true | _ => false end.

(** [prev.map(r => r.id === updatedReport.id ? updatedReport : r)] *)
Definition replaceReport (prev : list Report) (updatedReport : Report)
  : list Report :=
  List.map (fun r => if bool_decide (report_id r = report_id updatedReport)
                     then updatedReport else r) prev.

(** [updateReport], as created in the render with callbacks [cb]. *)
Definition updateReport (cb : Callbacks) (updatedReport : Report)
    (options : option bool) (s : App) : App :=
  let s := setReports (replaceReport (reports s) updatedReport) s in
  let s := setSyncStatus unsaved s in
  if isImmediate options then
    saveToDb (cb_status cb) updatedReport (cancel (cb_debounced cb) s)
  else
    debounced (cb_debounced cb) (cb_status cb) updatedReport s.

Definition findReport (a : option JsString) (l : list Report) : option Report :=
  match a with
  | Some id => List.find (fun r => bool_decide (report_id r = id)) l
  | None => None
  end.

(** [handleBackFromEditor]: all it reads is among its dependencies, so it
    always is the callback of the last render.  When it flushes, it awaits
    [saveToDb], which returns once its [saveReport] call has settled either
    way: the handler is suspended on that call, and [setActiveReportId(null)]
    runs when the call settles (see [settle]).  Otherwise it closes the
    report at once. *)
Definition handleBackFromEditor (s : App) : App :=
  let cb := rendered s in
  match findReport (activeReportId s) (reports s) with
  | Some reportToSave =>
      if bool_decide (cb_status cb = unsaved)
      then
        let s' := saveToDb (cb_status cb) reportToSave (cancel (cb_debounced cb) s) in
        setClosing (closing s' ++ [length (saveCalls s)]) s'
      else setActiveReportId None s
  | None => setActiveReportId None s
  end.

(** Whether the editor is on screen: [activeReportId && activeReport] of
    [renderContent]. *)
Definition editorOpen (s : App) : bool :=
  match activeReportId s, findReport (activeReportId s) (reports s) with
  | Some (_ :: _), Some _ => true
  | _, _ => false
  end.

(** [onSelectReport] of the report list is [setActiveReportId]; the list is
    on screen only while the editor is not. *)
Definition selectReport (id : JsString) (s : App) : App :=
  if editorOpen s then s else setActiveReportId (Some id) s.

(** The render that follows a handler. *)
Definition rerender (s : App) : App :=
  if bool_decide (syncStatus s = cb_status (rendered s)) then s
  else
    mkApp (now s) (reports s) (activeReportId s) (syncStatus s) (toast s)
      {| cb_status := syncStatus s; cb_debounced := nextInstance s |}
      (timeouts s) (timers s) (nextTimer s) (S (nextInstance s)) (inflight s)
      (saveCalls s) (appLog s) (closing s).

(** A timer comes due: it leaves the pending set and runs its callback. *)
Definition fire (tm : Timer) (s : App) : App :=
  let s := clearTimeout (timer_id tm) s in
  let s := setNow (Nat.max (now s) (timer_due tm)) s in
  rerender (saveToDb (timer_seen tm) (timer_arg tm) s).

Fixpoint fireAll (due : list Timer) (s : App) : App :=
  match due with
  | [] => s
  | tm :: rest => fireAll rest (fire tm s)
  end.

Definition isDue (t : nat) (tm : Timer) : bool := (timer_due tm <=? t)%nat.

(** Time passes until [t]: the timers due by then fire, oldest first (all
    timers wait equally long, so that is the order of their deadlines). *)
Definition advance (t : nat) (s : App) : App :=
  let s := fireAll (List.filter (isDue t) (timers s)) s in
  setNow (Nat.max (now s) t) s.

Inductive Event : Type :=
| EvEdit (t : nat) (r : Report) (options : option bool)
| EvBack (t : nat)
| EvOpen (t : nat) (id : JsString)
| EvSettle (t : nat) (call : nat) (db : option Firestore)
| EvWait (t : nat).

Definition eventTime (e : Event) : nat :=
  match e with
  | EvEdit t _ _ | EvBack t | EvOpen t _ | EvSettle t _ _ | EvWait t => t
  end.

(** A [handleBackFromEditor] suspended on the call goes on:
    [setActiveReportId(null)]. *)
Definition resumeBack (call : nat) (s : App) : App :=
  if bool_decide (call ∈ closing s)
  then setActiveReportId None
         (setClosing (List.filter (fun c => negb (c =? call)%nat) (closing s)) s)
  else s.

(** The [saveReport] call numbered [call] settles, against the store [db]:
    the rest of [saveToDb] runs, then whoever awaited [saveToDb]. *)
Definition settle (db : option Firestore) (call : nat) (s : App) : App :=
  if bool_decide (call ∈ inflight s) then
    match saveCalls s !! call with
    | Some report =>
        let s :=
          setInflight (List.filter (fun c => negb (c =? call)%nat) (inflight s)) s in
        let '(lg, outcome) := saveReport db report in
        resumeBack call
          (saveSettled outcome (fold_left (fun s e => logError e s) lg s))
    | None => s
    end
  else s.

Definition handle (e : Event) (s : App) : App :=
  match e with
  | EvEdit _ r options => updateReport (rendered s) r options s
  | EvBack _ => handleBackFromEditor s
  | EvOpen _ id => selectReport id s
  | EvSettle _ call db => settle db call s
  | EvWait _ => s
  end.

Definition step (s : App) (e : Event) : App :=
  rerender (handle e (advance (eventTime e) s)).

Definition run (s : App) (es : list Event) : App := fold_left step es s.

(** The state after the first render, with [l] loaded and [a] open. *)
Definition initial (l : list Report) (a : option JsString) : App :=
  {| now := 0; reports := l; activeReportId := a; syncStatus := saved;
     toast := {| show := false; message := []; toastType := success |};
     rendered := {| cb_status := saved; cb_debounced := 0 |};
     timeouts := ∅; timers := []; nextTimer := 0; nextInstance := 1;
     inflight := []; saveCalls := []; appLog := []; closing := [] |}.

(** An editor session: the editor's local copy and the application. *)
Record Session : Type := mkSession {
  editor : Editor;
  app : App;
  storageCalls : list Effect;
}.

(** What an effect of an editor handler does to the session; the editor
    calls the [updateReport] of the last render. *)
Definition applyEffect (ss : Session) (eff : Effect) : Session :=
  match eff with
  | SetLocalReport r =>
      mkSession (mkEditor r (currentUserId (editor ss))) (app ss)
        (storageCalls ss)
  | OnUpdateReport r options =>
      mkSession (editor ss)
        (rerender (updateReport (rendered (app ss)) r options (app ss)))
        (storageCalls ss)
  | CallUploadImage _ _ _ | CallDeleteImage _ =>
      mkSession (editor ss) (app ss) (storageCalls ss ++ [eff])
  | SetIsProcessingImage _ | SetIsCameraOpen _ | ResetFileInput | Log _ => ss
  end.

Definition perform (h : Host) (ss : Session) (i : Interaction) : Session :=
  fold_left applyEffect (interact h (editor ss) i) ss.

(** ** Readings used in the statements *)

(** What [safeTitle] does to one code unit. *)
Definition slugUnit (c : N) : N := if isAlnum c then lowerUnit c else underscore.

(** The load did not deliver: no database handle, or the query rejected. *)
Definition loadFailed (db : option Firestore) : Prop :=
  match db with
  | None => True
  | Some d => isResolved (query_get d) = false
  end.

(** What the pages show, in order: the text blocks and the images, without
    fonts, rules, page breaks and positions. *)
Inductive Item : Type :=
| ItemText (textLines : list JsString)
| ItemImage (imgData : JsString).

Definition itemOf (op : PdfOp) : list Item :=
  match op with
  | OpText l _ _ _ => [ItemText l]
  | OpAddImage d _ _ _ _ => [ItemImage d]
  | _ => []
  end.

Definition content (l : list PdfOp) : list Item := flat_map itemOf l.

Definition pageBreaks (l : list PdfOp) : nat :=
  length (List.filter (fun op => match op with OpAddPage => true | _ => false end) l).

(** Vertical position and height of every image drawn. *)
Definition imagePlacements (l : list PdfOp) : list (Q * Q) :=
  flat_map (fun op => match op with
                      | OpAddImage _ _ y _ hgt => [(Qred y, Qred hgt)]
                      | _ => []
                      end) l.

(** The block [addWrappedText] draws for [txt]. *)
Definition wrapped (h : Host) (bold italic : bool) (fontSize : Q)
    (txt : JsString) : Item :=
  ItemText (splitTextToSize h bold italic fontSize (strOr txt (js " "))
              printableWidth).

Definition placeholderItem (h : Host) : Item :=
  wrapped h false true FONT_SIZES.META (js "[Image could not be loaded]").

Definition imageItem (h : Host) (path : JsString) : Item :=
  match fetchImageData h path with
  | Resolved d => ItemImage (data d)
  | Rejected _ => placeholderItem h
  end.

Definition pointItems (h : Host) (index : nat) (point : ReportPoint) : list Item :=
  [wrapped h true false FONT_SIZES.HEADING_3
     (js "Point #" ++ numberToString (index + 1));
   wrapped h false false FONT_SIZES.BODY (text point)]
  ++ List.map (imageItem h) (imagePaths point).

Definition headerItems (h : Host) (report : Report) : list Item :=
  [wrapped h true false FONT_SIZES.TITLE (title report);
   wrapped h false false FONT_SIZES.HEADING_2 (area report);
   wrapped h false true FONT_SIZES.META
     (js "Generated: " ++ toLocaleDateString h (createdAt report))].

(** Every point and every image path of the report, in document order. *)
Definition expectedContent (h : Host) (report : Report) : list Item :=
  headerItems h report ++ concat (imap (pointItems h) (points report)).

Definition docxImageOf (h : Host) (path : JsString) : list DocxChild :=
  match snd (processImage h path) with
  | Some d => [ImagePara (dx_data d) (dx_width d) (dx_height d)]
  | None => []
  end.

Definition docxPointChildren (h : Host) (index : nat) (point : ReportPoint)
  : list DocxChild :=
  [RunPara (js "Point #" ++ numberToString (index + 1)) true false (Some 28%Z)
     200 false;
   RunPara (text point) false false None 200 false]
  ++ flat_map (docxImageOf h) (imagePaths point).

Definition expectedChildren (h : Host) (today : JsString) (report : Report)
  : list DocxChild :=
  [HeadingPara 1 (title report) true;
   HeadingPara 2 (area report) true;
   RunPara (js "Generated: " ++ today) false true (Some 20%Z) 400 true;
   HeadingPara 2 (js "Report Points") false]
  ++ concat (imap (docxPointChildren h) (points report)).

(** ** A concrete browser for the examples

    Storage resolves every path to itself; every picture decodes to
    [w] by [hh] pixels, except the one at the path [broken], which fails to
    load; a text is never wrapped. *)

Definition demoStorage : Storage :=
  {| getDownloadURL := fun path => Resolved path;
     uploadBytes := fun _ _ => Resolved tt;
     deleteObject := fun _ => Resolved tt |}.

Definition demoHost (w hh : Z) : Host :=
  {| storage := Some demoStorage;
     readAsDataURL := fun file => Resolved file;
     loadImage := fun url =>
       if bool_decide (url = js "broken") then Rejected (js "load error")
       else Resolved {| natWidth := w; natHeight := hh; pixels := url |};
     getContext2d := true;
     canvasToBlob := fun img _ _ => Some (pixels img);
     canvasToDataURL := pixels;
     fetchBlob := fun url =>
       Resolved {| blob_type := js "image/jpeg"; blob_quality := 1;
                   blob_width := w; blob_height := hh; blob_content := url |};
     freshImageName := fun b => blob_content b ++ js ".jpg";
     splitTextToSize := fun _ _ _ txt _ => [txt];
     toLocaleDateString := fun s => s |}.

Definition demoPoint (id txt : string) (paths : list string) : ReportPoint :=
  {| point_id := js id; text := js txt; imagePaths := List.map js paths |}.

Definition demoReport (owner : string) (pts : list ReportPoint) : Report :=
  {| report_id := js "report-1"; userId := js owner; userEmail := None;
     title := js "Site visit"; area := js "North"; createdAt := js "2024-05-01";
     points := pts |}.

Definition demoCard : ReportPoint := demoPoint "p1" "text" ["img"].

(** The size table with the only image at 100%. *)
Definition fullWidth : gmap JsString Q := {[ sizeKey demoCard 0 := 100%Q ]}.

(** ** Readings of editor traces *)

(** The [setLocalReport] calls of a trace, and its [onUpdateReport] calls. *)
Definition localUpdates (l : list Effect) : list Report :=
  flat_map (fun eff => match eff with SetLocalReport r => [r] | _ => [] end) l.

Definition persistRequests (l : list Effect) : list (Report * option bool) :=
  flat_map (fun eff => match eff with
                       | OnUpdateReport r o => [(r, o)]
                       | _ => []
                       end) l.

(** The report [r] with the image list of the point [id] replaced. *)
Definition withImagePaths (r : Report) (id : JsString) (paths : list JsString)
  : Report :=
  setPoints r
    (List.map (fun p => if bool_decide (point_id p = id)
                        then {| point_id := point_id p; text := text p;
                                imagePaths := paths |}
                        else p) (points r)).

Definition isCapture (i : Interaction) : bool :=
  match i with DoCapture _ _ => true | _ => false end.

(** A viewer [viewer] looking at a report of [owner], right after loading. *)
Definition demoSession (owner viewer : string) : Session :=
  {| editor := {| localReport := demoReport owner [demoCard];
                  currentUserId := js viewer |};
     app := initial [demoReport owner [demoCard]] (Some (js "report-1"));
     storageCalls := [] |}.

(** ** Readings of the sync controller *)

(** Every pending timer is the one its debounce instance remembers in its
    [timeout] variable. *)
Definition timersKnown (s : App) : Prop :=
  forall tm, In tm (timers s) -> timeouts s !! timer_owner tm = Some (timer_id tm).

(** Events that come from the user: an edit, leaving the editor, or opening
    a report from the list. *)
Definition userEvent (e : Event) : bool :=
  match e with
  | EvEdit _ _ _ | EvBack _ | EvOpen _ _ => true
  | EvSettle _ _ _ | EvWait _ => false
  end.

(** A burst of text edits: each edit is made less than [waitFor] after the
    one before it; [prev] is the time of the edit before the burst. *)
Fixpoint withinWindow (prev : nat) (edits : list (nat * Report)) : Prop :=
  match edits with
  | [] => True
  | (t, _) :: rest => prev <= t /\ t < prev + waitFor /\ withinWindow t rest
  end.

Definition burst (edits : list (nat * Report)) : list Event :=
  List.map (fun '(t, r) => EvEdit t r None) edits.

(** The report of the examples with the text of its point set to [txt]. *)
Definition demoDraft (txt : string) : Report :=
  demoReport "u1" [demoPoint "p1" txt []].

(** A store in which every write succeeds. *)
Definition acceptingStore : Firestore :=
  {| query_get := Resolved []; doc_set := fun _ => Resolved tt |}.

(** A store in which every write is refused. *)
Definition refusingStore : Firestore :=
  {| query_get := Resolved [];
     doc_set := fun _ => Rejected (js "permission-denied") |}.

(** One debounced save of [r] is pending, armed through the debounce
    instance of the last render, and nothing else is. *)
Definition armed (s : App) (r : Report) : Prop :=
  exists tm,
    timers s = [tm]
    /\ timeouts s !! cb_debounced (rendered s) = Some (timer_id tm)
    /\ timer_owner tm = cb_debounced (rendered s)
    /\ timer_seen tm = unsaved
    /\ timer_arg tm = r
    /\ timer_due tm = now s + waitFor
    /\ syncStatus s = unsaved
    /\ cb_status (rendered s) = unsaved.

(** The state in which a first save is in flight. *)
Definition demoInFlight : App :=
  run (initial [demoDraft ""] (Some (js "report-1")))
    [EvEdit 0 (demoDraft "a") (Some true)].

(** ** services/dbService.ts: configuration and deleteReport *)

(** [firebaseConfig]: each value is the environment's string, or
    [undefined]. *)
Record FirebaseConfig : Type := mkConfig {
  apiKey : option JsString;
  authDomain : option JsString;
  projectId : option JsString;
  storageBucket : option JsString;
  messagingSenderId : option JsString;
  appId : option JsString;
}.

(** Truthiness of an environment value: [undefined] and the empty string
    are falsy. *)
Definition truthy (v : option JsString) : bool :=
  match v with
  | Some (_ :: _) => true
  | _ => false
  end.

(** [Object.values(config).every(value => value)] *)
Definition isConfigValid (config : FirebaseConfig) : bool :=
  forallb truthy
    [apiKey config; authDomain config; projectId config; storageBucket config;
     messagingSenderId config; appId config].

(** A signed-in principal of the identity provider. *)
Record User : Type := mkUser {
  uid : JsString;
  email : option JsString;
}.

Record Auth : Type := mkAuth {
  currentUser : option User;
}.

(** The three exported handles [db], [auth] and [storage]. *)
Record Services : Type := mkServices {
  svc_db : option Firestore;
  svc_auth : option Auth;
  svc_storage : option Storage;
}.

(** [app = isConfigValid(firebaseConfig) ? firebase.initializeApp(...) : null]
    and the handles derived from it; [fs], [au] and [st] are what
    [firebase.firestore()], [firebase.auth()] and [firebase.storage()]
    return. *)
Definition initServices (config : FirebaseConfig) (fs : Firestore) (au : Auth)
    (st : Storage) : Services :=
  if isConfigValid config
  then {| svc_db := Some fs; svc_auth := Some au; svc_storage := Some st |}
  else {| svc_db := None; svc_auth := None; svc_storage := None |}.

(** [deleteReport] of dbService.ts; [docDelete] is
    [collection('reports').doc(id).delete()]. *)
Definition dbDeleteReport (db : option Firestore)
    (docDelete : JsString -> Promise unit) (id : JsString)
  : list LogEntry * Promise unit :=
  match db with
  | None => ([], Rejected (js "Firestore not initialized"))
  | Some _ =>
      match docDelete id with
      | Resolved _ => ([], Resolved tt)
      | Rejected e => ([ConsoleError (js "Error deleting report:") e], Rejected e)
      end
  end.

(** ** The App component: creating and deleting reports, the screens *)

Definition setSaveCalls (l : list Report) (s : App) : App :=
  mkApp (now s) (reports s) (activeReportId s) (syncStatus s) (toast s)
    (rendered s) (timeouts s) (timers s) (nextTimer s) (nextInstance s)
    (inflight s) l (appLog s) (closing s).

Definition logErrors (lg : list LogEntry) (s : App) : App :=
  fold_left (fun s e => logError e s) lg s.

(** The report [createReport] builds; [dateNow] is [Date.now()], [isoNow] is
    [new Date().toISOString()] and [firstCenter] is [REPORT_CENTERS[0]] of
    the constants module. *)
Definition newReportFor (u : User) (dateNow : nat) (isoNow firstCenter : JsString)
    (userId0 : JsString) : Report :=
  {| report_id := js "report-" ++ numberToString dateNow;
     userId := userId0;
     userEmail := Some (match email u with
                        | Some (c :: m) => c :: m
                        | _ => js "Unknown"
                        end);
     title := js "New Visit Report";
     area := firstCenter;
     createdAt := isoNow;
     points := [] |}.

(** [createReport], from its call to the end of its continuation; [au] is
    the [auth] handle.  A rejection of [saveReport] leaves the function by
    the exception. *)
Definition createReport (db : option Firestore) (au : option Auth)
    (dateNow : nat) (isoNow firstCenter : JsString) (userId0 : JsString)
    (s : App) : App * Promise unit :=
  match au with
  | None => (s, Resolved tt)
  | Some a =>
      match currentUser a with
      | None => (s, Resolved tt)
      | Some u =>
          let newReport := newReportFor u dateNow isoNow firstCenter userId0 in
          let '(lg, outcome) := saveReport db newReport in
          let s := setSaveCalls (saveCalls s ++ [newReport]) (logErrors lg s) in
          match outcome with
          | Resolved _ =>
              let s := setReports (newReport :: reports s) s in
              let s := setActiveReportId (Some (report_id newReport)) s in
              (showToast (js "New report created!") success s, Resolved tt)
          | Rejected e => (s, Rejected e)
          end
      end
  end.

(** [deleteReport] of the App component; [seenActive] is the
    [activeReportId] of the render that created the callback. *)
Definition deleteReport (db : option Firestore)
    (docDelete : JsString -> Promise unit) (seenActive : option JsString)
    (idToDelete : JsString) (s : App) : App * Promise unit :=
  let '(lg, outcome) := dbDeleteReport db docDelete idToDelete in
  let s := logErrors lg s in
  match outcome with
  | Resolved _ =>
      let s :=
        setReports
          (List.filter (fun r => negb (bool_decide (report_id r = idToDelete)))
             (reports s)) s in
      let s :=
        if bool_decide (seenActive = Some idToDelete)
        then setActiveReportId None s else s in
      (showToast (js "Report deleted.") error s, Resolved tt)
  | Rejected e => (s, Rejected e)
  end.

(** The state of the App component that gates the screens. *)
Record Shell : Type := mkShell {
  user : option User;
  authLoading : bool;
  isLoading : bool;
  isDbInitialized : bool;
  shellApp : App;
}.

Definition initialShell : Shell :=
  {| user := None; authLoading := true; isLoading := true;
     isDbInitialized := false; shellApp := initial [] None |}.

(** The body of the mount effect, up to the subscription. *)
Definition mountEffect (au : option Auth) (sh : Shell) : Shell :=
  match au with
  | Some _ =>
      mkShell (user sh) (authLoading sh) (isLoading sh) true (shellApp sh)
  | None =>
      mkShell (user sh) false (isLoading sh) (isDbInitialized sh) (shellApp sh)
  end.

(** The callback given to [auth.onAuthStateChanged], with the load it
    awaits. *)
Definition authStateChanged (db : option Firestore) (u : option User)
    (sh : Shell) : Shell :=
  match u with
  | Some _ =>
      let '(lg, outcome) := getReports db in
      match outcome with
      | Resolved allReports =>
          mkShell u false false (isDbInitialized sh)
            (setReports allReports (logErrors lg (shellApp sh)))
      | Rejected _ =>
          mkShell u false true (isDbInitialized sh) (logErrors lg (shellApp sh))
      end
  | None =>
      mkShell u false false (isDbInitialized sh) (setReports [] (shellApp sh))
  end.

Inductive Screen : Type :=
| AuthSpinner
| DatabaseNotConfigured
| LoginScreen
| LoadingReports
| EditorScreen (report : Report) (viewer : JsString)
| ListScreen (l : list Report) (viewer : JsString).

(** [renderContent] *)
Definition renderContent (sh : Shell) : Screen :=
  if authLoading sh then AuthSpinner
  else if negb (isDbInitialized sh) then DatabaseNotConfigured
  else match user sh with
       | None => LoginScreen
       | Some u =>
           if isLoading sh then LoadingReports
           else
             match activeReportId (shellApp sh),
                   findReport (activeReportId (shellApp sh)) (reports (shellApp sh))
             with
             | Some (_ :: _), Some activeReport => EditorScreen activeReport (uid u)
             | _, _ => ListScreen (reports (shellApp sh)) (uid u)
             end
       end.

(** ** ReportEditor: opening the PDF preview *)

(** The table [handleGeneratePdfClick] fills: [60] under the key of every
    image of every point. *)
Definition initialSizesOfPoint (acc : gmap JsString Q) (point : ReportPoint)
  : gmap JsString Q :=
  fold_left (fun m imgIndex => <[sizeKey point imgIndex := 60%Q]> m)
    (seq 0 (length (imagePaths point))) acc.

Definition initialSizes (r : Report) : gmap JsString Q :=
  fold_left initialSizesOfPoint (points r) ∅.

(** ** PdfPreviewModal: the page-break markers *)

Definition A4_ASPECT_RATIO : Q := 297 / 210.

(** The body of the [ResizeObserver] callback for one entry:
    [contentHeight] is [scrollHeight], [pageWidth] is [clientWidth];
    [None] when it returns without setting the markers.
    [Array.from({ length })] clamps a negative length to zero. *)
Definition previewPageBreaks (contentHeight pageWidth : Z) : option (list Q) :=
  let pageHeight := (inject_Z pageWidth * A4_ASPECT_RATIO)%Q in
  if Qle_bool pageHeight 0 then None
  else
    let numPages := Qceiling (inject_Z contentHeight / pageHeight) in
    Some (List.map (fun i => (inject_Z (Z.of_nat i + 1) * pageHeight)%Q)
            (seq 0 (Z.to_nat (numPages - 1)))).

(** ** ReportPointCard: voice typing *)

(** One entry of [event.results]: whether it is final, and the transcript
    of its first alternative. *)
Record SpeechResult : Type := mkSpeech {
  isFinal : bool;
  transcript : JsString;
}.

(** The loop of [recognition.onresult]. *)
Definition finalTranscriptOf (resultIndex : nat) (results : list SpeechResult)
  : JsString :=
  fold_left (fun acc res => if isFinal res then acc ++ transcript res else acc)
    (drop resultIndex results) [].

(** [recognition.onresult]; the handler is installed only when the speech
    API is there and the viewer is the owner. *)
Definition onSpeechResult (speechApiSupported : bool) (e : Editor)
    (point : ReportPoint) (resultIndex : nat) (results : list SpeechResult)
  : list Effect :=
  if negb speechApiSupported || negb (isOwner e) then []
  else
    match finalTranscriptOf resultIndex results with
    | [] => []
    | finalTranscript =>
        updatePoint e (point_id point)
          (onlyText (text point ++ finalTranscript)) None
    end.

(** ** Readings used in the further statements *)

(** The height [addWrappedText] computes for a block. *)
Definition blockHeightOf (h : Host) (bold italic : bool) (fontSize : Q)
    (txt : JsString) : Q :=
  (inject_Z (Z.of_nat (length (splitTextToSize h bold italic fontSize
                                 (strOr txt (js " ")) printableWidth)))
   * fontSize * PT_TO_MM * LINE_HEIGHT)%Q.

(** The height of one line at font size [fontSize]. *)
Definition lineHeightOf (fontSize : Q) : Q := (fontSize * PT_TO_MM * LINE_HEIGHT)%Q.

(** How far the header moves the cursor. *)
Definition headerExtent (h : Host) (r : Report) : Q :=
  (blockHeightOf h true false FONT_SIZES.TITLE (title r) + 4
   + blockHeightOf h false false FONT_SIZES.HEADING_2 (area r) + 2
   + blockHeightOf h false true FONT_SIZES.META
       (js "Generated: " ++ toLocaleDateString h (createdAt r))
   + 10 + 10)%Q.

(** How far a point without images moves the cursor; [isLast] tells whether
    the separator rule is left out. *)
Definition pointExtent (h : Host) (index : nat) (point : ReportPoint)
    (isLast : bool) : Q :=
  (blockHeightOf h true false FONT_SIZES.HEADING_3
     (js "Point #" ++ numberToString (index + 1)) + 2
   + blockHeightOf h false false FONT_SIZES.BODY (text point) + 5
   + (if isLast then 0 else 10))%Q.

Fixpoint pointsExtent (h : Host) (total index : nat) (pts : list ReportPoint) : Q :=
  match pts with
  | [] => 0%Q
  | point :: rest =>
      (pointExtent h index point
         (negb (Z.of_nat index <? Z.of_nat total - 1)%Z)
       + pointsExtent h total (S index) rest)%Q
  end.

Definition textExtent (h : Host) (r : Report) : Q :=
  (headerExtent h r + pointsExtent h (length (points r)) 0 (points r))%Q.

(** The identifiers of a list of reports, in order. *)
Definition reportIds (l : list Report) : list JsString := List.map report_id l.

(** The prefix every uploaded path of a report carries. *)
Definition imageNamespace (r : Report) : JsString :=
  js "images/" ++ userId r ++ js "/" ++ report_id r ++ js "/".

(** A configuration with every value set, and one without its bucket. *)
Definition demoConfig : FirebaseConfig :=
  {| apiKey := Some (js "k"); authDomain := Some (js "d");
     projectId := Some (js "p"); storageBucket := Some (js "b");
     messagingSenderId := Some (js "m"); appId := Some (js "a") |}.

Definition demoConfigNoBucket : FirebaseConfig :=
  {| apiKey := Some (js "k"); authDomain := Some (js "d");
     projectId := Some (js "p"); storageBucket := None;
     messagingSenderId := Some (js "m"); appId := Some (js "a") |}.

Definition demoUser : User := {| uid := js "u1"; email := Some (js "a@b.c") |}.

(** The shell of a signed-in user looking at the list [l]. *)
Definition demoShell (l : list Report) : Shell :=
  {| user := Some demoUser; authLoading := false; isLoading := false;
     isDbInitialized := true; shellApp := initial l None |}.

(** A trace without [setLocalReport] and without [onUpdateReport]. *)
Definition quiet (l : list Effect) : Prop :=
  localUpdates l = [] /\ persistRequests l = [].

(** Two versions of one report: same identifier, owner and creation time. *)
Definition sameIdentity (r r0 : Report) : Prop :=
  report_id r = report_id r0 /\ userId r = userId r0 /\ createdAt r = createdAt r0.

(** The editor after its local report was set to [r]. *)
Definition editing (e : Editor) (r : Report) : Editor :=
  {| localReport := r; currentUserId := currentUserId e |}.

(** ** Readings of the application's event handling *)

(** The calls in flight are accounted for: the status ['saving'] is shown
    only while some [saveReport] call is in flight, and every call in
    flight is one of the calls made. *)
Definition callsAccounted (s : App) : Prop :=
  (syncStatus s = saving -> inflight s <> [])
  /\ (forall c, In c (inflight s) -> c < length (saveCalls s)).

(** Whether the event is an edit of the report with identifier [id]. *)
Definition editsReport (id : JsString) (e : Event) : bool :=
  match e with
  | EvEdit _ r _ => bool_decide (report_id r = id)
  | _ => false
  end.

(** The state after the first save of the examples was refused. *)
Definition demoRefused : App :=
  run demoInFlight [EvSettle 10 0 (Some refusingStore)].

(** A report of another user. *)
Definition demoForeign : Report :=
  {| report_id := js "report-2"; userId := js "u2";
     userEmail := Some (js "u2@example.org"); title := js "Depot visit";
     area := js "South"; createdAt := js "2024-05-02"; points := [demoCard] |}.

(** The report of the examples with the text of its point set to [txt] and
    a second, empty point added at [t] ms. *)
Definition demoDraftPlus (txt : string) (t : nat) : Report :=
  demoReport "u1"
    [demoPoint "p1" txt [];
     {| point_id := js "point-" ++ numberToString t; text := []; imagePaths := [] |}].

(** The user [u1] while the store refuses every write: a point is added to
    the own report at 0 ms and refused at 100 ms; Back at 200 ms flushes
    and is refused at 300 ms; at 400 ms the report of [u2] is opened from
    the list. *)
Definition demoForeignOpen : App :=
  run (initial [demoDraft ""; demoForeign] (Some (js "report-1")))
    [EvEdit 0 (demoDraftPlus "" 0) (Some true);
     EvSettle 100 0 (Some refusingStore);
     EvBack 200; EvSettle 300 1 (Some refusingStore);
     EvOpen 400 (js "report-2")].

(** A debounced text edit at 0 ms, a point added at 200 ms (an immediate
    mutation), and the refusal at 300 ms of the [saveReport] call the
    mutation issued. *)
Definition demoRefusedFlush : App :=
  run (initial [demoDraft ""] (Some (js "report-1")))
    [EvEdit 0 (demoDraft "a") None; EvEdit 200 (demoDraftPlus "a" 200) (Some true);
     EvSettle 300 0 (Some refusingStore)].

(* ===================================================================== *)
(** * Part II: properties                                                 *)
(* ===================================================================== *)

(** ** File names of the exports *)

Lemma isAlnum_ascii (c : N) : isAlnum c = true -> (c < 128)%N.
Proof.
  unfold isAlnum, isLower, isUpper, isDigit.
  rewrite !orb_true_iff, !andb_true_iff, !N.leb_le. lia.
Qed.

Lemma replaceNonAlnum_ascii (s : JsString) :
  Forall (fun c => (c < 128)%N) (replaceNonAlnum s).
Proof.
  unfold replaceNonAlnum. apply Forall_forall. intros c Hc.
  apply list_elem_of_In, in_map_iff in Hc. destruct Hc as (c0 & <- & _).
  destruct (isAlnum c0) eqn:E.
  - now apply isAlnum_ascii.
  - unfold underscore. lia.
Qed.

Lemma isUpper_underscore : isUpper underscore = false.
Proof. reflexivity. Qed.

Lemma safeTitle_units (t : JsString) : safeTitle t = List.map slugUnit t.
Proof.
  unfold safeTitle, toLowerCase, replaceNonAlnum. rewrite List.map_map.
  apply List.map_ext. intros c. unfold slugUnit.
  destruct (isAlnum c); [reflexivity|]. unfold lowerUnit.
  now rewrite isUpper_underscore.
Qed.

Lemma safeTitle_length (t : JsString) : length (safeTitle t) = length t.
Proof. rewrite safeTitle_units. apply length_map. Qed.

Lemma slugUnit_charset (c : N) :
  isLower (slugUnit c) || isDigit (slugUnit c) || (slugUnit c =? underscore)%N = true.
Proof.
  unfold slugUnit, isAlnum, lowerUnit.
  destruct (isLower c) eqn:L; simpl.
  - assert (isUpper c = false) as ->.
    { unfold isLower, isUpper in *. rewrite andb_true_iff, !N.leb_le in L.
      apply andb_false_iff. rewrite !N.leb_gt. lia. }
    now rewrite L.
  - destruct (isUpper c) eqn:U; simpl.
    + unfold isLower, isUpper in *. rewrite andb_true_iff, !N.leb_le in U.
      assert ((97 <=? c + 32)%N && (c + 32 <=? 122)%N = true) as ->; [|reflexivity].
      rewrite andb_true_iff, !N.leb_le. lia.
    + destruct (isDigit c) eqn:D; simpl.
      * rewrite L, D. reflexivity.
      * reflexivity.
Qed.

Lemma ops_emit (op : PdfOp) (st : PdfState) : ops (emit op st) = ops st ++ [op].
Proof. reflexivity. Qed.

Lemma generatePdf_saves_last (h : Host) (report : Report) (sizes : gmap JsString Q) :
  last (ops (fst (generatePdf h report sizes))) = Some (OpSave (pdfFileName report)).
Proof. unfold generatePdf. cbn [fst]. rewrite ops_emit. apply last_snoc. Qed.

Lemma generateDocx_download (h : Host) (today : JsString) (report : Report) :
  download (fst (generateDocx h today report)) = docxFileName report.
Proof. unfold generateDocx. destruct (docxPoints h 0 (points report)). reflexivity. Qed.

(** C9 (as amended).  For every report title both exports are named
    [Report_<slug>.<ext>] with one and the same slug, and the slug is the
    title with every code unit outside [A-Za-z0-9] replaced by its own
    underscore and every letter lower-cased: the slug has as many code units
    as the title, runs of separators are not merged. *)
Theorem export_names_share_slug (h : Host) (today : JsString) (report : Report)
    (sizes : gmap JsString Q) :
  exists slug : JsString,
    last (ops (fst (generatePdf h report sizes)))
      = Some (OpSave (js "Report_" ++ slug ++ js ".pdf"))
    /\ download (fst (generateDocx h today report))
      = js "Report_" ++ slug ++ js ".docx"
    /\ slug = safeTitle (title report)
    /\ slug = List.map slugUnit (title report)
    /\ length slug = length (title report)
    /\ Forall (fun c => isLower c || isDigit c || (c =? underscore)%N = true) slug.
Proof.
  exists (safeTitle (title report)).
  split; [apply generatePdf_saves_last|].
  split; [apply generateDocx_download|].
  split; [reflexivity|].
  split; [apply safeTitle_units|].
  split; [apply safeTitle_length|].
  rewrite safeTitle_units. apply Forall_forall. intros c Hc.
  apply list_elem_of_In, in_map_iff in Hc. destruct Hc as (c0 & <- & _).
  apply slugUnit_charset.
Qed.

(** C9 (as stated) fails: two adjacent spaces in a title give two adjacent
    underscores in the file name; they are not collapsed into one. *)
Lemma slug_keeps_runs :
  safeTitle (js "a  b") = js "a__b"
  /\ collapsedSlug (js "a  b") = js "a_b"
  /\ safeTitle (js "a  b") <> collapsedSlug (js "a  b").
Proof. repeat split; try reflexivity. vm_compute. discriminate. Qed.

(** ** getReports *)

(** C10.  [getReports] never rejects.  Without a database handle, or when
    the query throws, it resolves with the empty array, having done nothing
    but log the error; its result then equals the result of a successful
    load of zero reports. *)
Theorem getReports_never_rejects (db : option Firestore) :
  isResolved (snd (getReports db)) = true
  /\ (loadFailed db ->
      snd (getReports db) = Resolved []
      /\ (fst (getReports db) = []
          \/ exists e, fst (getReports db)
                       = [ConsoleError (js "Error fetching reports:") e])
      /\ forall d0 : Firestore,
           query_get d0 = Resolved [] ->
           snd (getReports db) = snd (getReports (Some d0))).
Proof.
  split.
  - destruct db as [d|]; [|reflexivity]. unfold getReports.
    destruct (query_get d); reflexivity.
  - intros Hfail. destruct db as [d|]; cbn in Hfail.
    + unfold getReports at 1 2 3 4. destruct (query_get d) as [docs|e] eqn:E;
        [discriminate|]. cbn.
      split; [reflexivity|]. split; [right; now exists e|].
      intros d0 H0. unfold getReports. now rewrite H0.
    + cbn. split; [reflexivity|]. split; [now left|].
      intros d0 H0. unfold getReports. now rewrite H0.
Qed.

Lemma getReports_never_rejects_witness :
  snd (getReports (Some {| query_get := Rejected (js "unavailable");
                           doc_set := fun _ => Resolved tt |}))
  = Resolved [].
Proof.
  refine (proj1 (proj2 (getReports_never_rejects
            (Some {| query_get := Rejected (js "unavailable");
                     doc_set := fun _ => Resolved tt |})) _)).
  reflexivity.
Defined.

(** ** IEEE 754 doubles: rounding *)

Local Open Scope Q_scope.

Lemma roundHalfEven_near (q : Q) :
  inject_Z (roundHalfEven q) - (1 # 2) <= q <= inject_Z (roundHalfEven q) + (1 # 2).
Proof.
  unfold roundHalfEven.
  pose proof (Qfloor_le q) as Hl. pose proof (Qlt_floor q) as Hu.
  rewrite inject_Z_plus in Hu. change (inject_Z 1) with 1 in Hu.
  destruct (Qcompare_spec (q - inject_Z (Qfloor q)) (1 # 2)) as [E|E|E];
    [destruct (Z.even (Qfloor q))| |];
    rewrite ?inject_Z_plus; change (inject_Z 1) with 1; lra.
Qed.

Lemma roundHalfEven_bounds (q : Q) :
  (Qfloor q <= roundHalfEven q <= Qfloor q + 1)%Z.
Proof.
  unfold roundHalfEven.
  destruct (Qcompare _ _); [destruct (Z.even _)| |]; lia.
Qed.

Lemma roundHalfEven_Z (k : Z) : roundHalfEven (inject_Z k) = k.
Proof.
  unfold roundHalfEven. rewrite Qfloor_Z.
  destruct (Qcompare_spec (inject_Z k - inject_Z k) (1 # 2)) as [E|E|E];
    [exfalso; lra|reflexivity|exfalso; lra].
Qed.

Lemma roundHalfEven_mono (q q' : Q) :
  q <= q' -> (roundHalfEven q <= roundHalfEven q')%Z.
Proof.
  intros H. pose proof (Qfloor_resp_le _ _ H) as Hf.
  pose proof (roundHalfEven_bounds q) as B. pose proof (roundHalfEven_bounds q') as B'.
  destruct (Z.eq_dec (Qfloor q) (Qfloor q')) as [E|E]; [|lia].
  clear B B'. unfold roundHalfEven. rewrite <- E.
  destruct (Qcompare_spec (q - inject_Z (Qfloor q)) (1 # 2)) as [C|C|C];
    destruct (Qcompare_spec (q' - inject_Z (Qfloor q)) (1 # 2)) as [C'|C'|C'];
    try (destruct (Z.even (Qfloor q))); try lia; exfalso; lra.
Qed.

Lemma roundHalfEven_comp (q q' : Q) : q == q' -> roundHalfEven q = roundHalfEven q'.
Proof.
  intros H. apply Z.le_antisymm; apply roundHalfEven_mono; rewrite H; apply Qle_refl.
Qed.

Lemma pow2_pos (e : Z) : (0 <= e)%Z -> 0 < inject_Z (2 ^ e).
Proof.
  intros H. change 0 with (inject_Z 0). rewrite <- Zlt_Qlt. lia.
Qed.

Lemma roundSignificand_nonneg (y : Q) : 0 <= y -> (0 <= roundSignificand y)%Z.
Proof.
  intros H. unfold roundSignificand.
  set (e := Z.max 0 (Z.log2 (Qfloor y) - 52)).
  pose proof (pow2_pos e ltac:(lia)) as He.
  apply Z.mul_nonneg_nonneg; [|lia].
  rewrite <- (roundHalfEven_Z 0). apply roundHalfEven_mono.
  change (inject_Z 0) with 0. apply Qle_shift_div_l; [exact He|]. lra.
Qed.

Lemma roundSignificand_error (y : Q) :
  inject_Z (2 ^ 52) <= y ->
  y * (1 - (1 # 2 ^ 53)) <= inject_Z (roundSignificand y) <= y * (1 + (1 # 2 ^ 53)).
Proof.
  intros H. unfold roundSignificand.
  assert (HN : (2 ^ 52 <= Qfloor y)%Z).
  { rewrite <- (Qfloor_Z (2 ^ 52)). now apply Qfloor_resp_le. }
  assert (HL : (52 <= Z.log2 (Qfloor y))%Z).
  { change 52%Z with (Z.log2 (2 ^ 52)). now apply Z.log2_le_mono. }
  rewrite Z.max_r by lia.
  set (e := (Z.log2 (Qfloor y) - 52)%Z).
  pose proof (pow2_pos e ltac:(lia)) as He.
  pose proof (Z.log2_spec (Qfloor y) ltac:(lia)) as [Hlo _].
  replace (Z.log2 (Qfloor y)) with (e + 52)%Z in Hlo by lia.
  rewrite Z.pow_add_r in Hlo by lia.
  assert (Hy : inject_Z (2 ^ e) * inject_Z (2 ^ 52) <= y).
  { rewrite <- inject_Z_mult. apply Qle_trans with (inject_Z (Qfloor y)).
    - now rewrite <- Zle_Qle.
    - apply Qfloor_le. }
  pose proof (roundHalfEven_near (y / inject_Z (2 ^ e))) as [N1 N2].
  rewrite inject_Z_mult.
  set (M := inject_Z (roundHalfEven (y / inject_Z (2 ^ e)))) in *.
  set (E := inject_Z (2 ^ e)) in *.
  assert (Ys : y == (y / E) * E) by (field; lra).
  set (s := y / E) in *.
  assert (A1 : M * E - (1 # 2) * E <= s * E) by nra.
  assert (A2 : s * E <= M * E + (1 # 2) * E) by nra.
  change (inject_Z (2 ^ 52)) with (4503599627370496 # 1) in Hy.
  change (1 # 2 ^ 53) with (1 # 9007199254740992).
  split; lra.
Qed.

Lemma roundSignificand_exact (a b : Z) :
  (0 < a < 2 ^ 53)%Z -> (0 <= b)%Z ->
  roundSignificand (inject_Z (a * 2 ^ b)) = (a * 2 ^ b)%Z.
Proof.
  intros Ha Hb. unfold roundSignificand. rewrite Qfloor_Z.
  rewrite Z.log2_mul_pow2 by lia.
  assert (Hl : (0 <= Z.log2 a <= 52)%Z).
  { split; [apply Z.log2_nonneg|].
    apply Z.lt_succ_r. apply Z.log2_lt_pow2; lia. }
  set (e := Z.max 0 (b + Z.log2 a - 52)).
  assert (He : (0 <= e <= b)%Z) by lia.
  assert (Hs : inject_Z (a * 2 ^ b) / inject_Z (2 ^ e) == inject_Z (a * 2 ^ (b - e))).
  { replace b with ((b - e) + e)%Z at 1 by lia.
    rewrite Z.pow_add_r by lia. rewrite Z.mul_assoc, inject_Z_mult.
    pose proof (pow2_pos e ltac:(lia)). field. lra. }
  rewrite (roundHalfEven_comp _ _ Hs), roundHalfEven_Z.
  rewrite <- Z.mul_assoc, <- Z.pow_add_r by lia. do 2 f_equal. lia.
Qed.

Lemma roundSignificand_mono (y y' : Q) :
  0 <= y -> y <= y' -> (roundSignificand y <= roundSignificand y')%Z.
Proof.
  intros H0 H. unfold roundSignificand.
  pose proof (Qfloor_resp_le _ _ H) as HN.
  assert (HN0 : (0 <= Qfloor y)%Z).
  { rewrite <- (Qfloor_Z 0). now apply Qfloor_resp_le. }
  pose proof (Z.log2_le_mono _ _ HN) as HL.
  set (N := Qfloor y) in *. set (N' := Qfloor y') in *.
  set (e := Z.max 0 (Z.log2 N - 52)). set (e' := Z.max 0 (Z.log2 N' - 52)).
  pose proof (pow2_pos e ltac:(lia)) as He.
  pose proof (pow2_pos e' ltac:(lia)) as He'.
  destruct (Z.eq_dec e e') as [Eq|Ne].
  - rewrite <- Eq. apply Z.mul_le_mono_nonneg_r; [lia|].
    apply roundHalfEven_mono. apply Qmult_le_compat_r; [exact H|].
    apply Qlt_le_weak, Qinv_lt_0_compat, He.
  - assert (Hlt : (e < e')%Z) by lia.
    assert (HL' : (Z.log2 N < Z.log2 N')%Z) by lia.
    assert (He'eq : (e' = Z.log2 N' - 52)%Z) by lia.
    (* the smaller one rounds to at most 2^(L+1) *)
    assert (U : (roundHalfEven (y / inject_Z (2 ^ e)) * 2 ^ e <= 2 ^ (Z.log2 N + 1))%Z).
    { assert (Hy : y <= inject_Z (2 ^ (Z.log2 N + 1))).
      { apply Qlt_le_weak. apply Qlt_le_trans with (inject_Z (N + 1)).
        - apply Qlt_floor.
        - rewrite <- Zle_Qle.
          destruct (Z.eq_dec N 0%Z) as [->|Hn]; [cbn; lia|].
          pose proof (Z.log2_spec N ltac:(lia)) as [_ Hhi].
          replace (Z.succ (Z.log2 N)) with (Z.log2 N + 1)%Z in Hhi by lia. lia. }
      assert (Hle : (e <= Z.log2 N + 1)%Z).
      { pose proof (Z.log2_nonneg N). lia. }
      replace (Z.log2 N + 1)%Z with ((Z.log2 N + 1 - e) + e)%Z at 1 by lia.
      rewrite Z.pow_add_r by lia.
      apply Z.mul_le_mono_nonneg_r; [lia|].
      rewrite <- (roundHalfEven_Z (2 ^ (Z.log2 N + 1 - e))).
      apply roundHalfEven_mono. apply Qle_shift_div_r; [exact He|].
      rewrite <- inject_Z_mult, <- Z.pow_add_r by lia.
      now replace (Z.log2 N + 1 - e + e)%Z with (Z.log2 N + 1)%Z by lia. }
    (* the larger one rounds to at least 2^L' *)
    assert (V : (2 ^ Z.log2 N' <= roundHalfEven (y' / inject_Z (2 ^ e')) * 2 ^ e')%Z).
    { assert (HN' : (0 < N')%Z).
      { destruct (Z.eq_dec N' 0%Z) as [E0|E0]; [|lia].
        rewrite E0 in HL'. cbn in HL'. pose proof (Z.log2_nonneg N). lia. }
      pose proof (Z.log2_spec N' HN') as [Hlo _].
      assert (Hy : inject_Z (2 ^ Z.log2 N') <= y').
      { apply Qle_trans with (inject_Z N'); [now rewrite <- Zle_Qle|apply Qfloor_le]. }
      replace (Z.log2 N') with (52 + e')%Z at 1 by lia.
      rewrite Z.pow_add_r by lia.
      apply Z.mul_le_mono_nonneg_r; [lia|].
      rewrite <- (roundHalfEven_Z (2 ^ 52)).
      apply roundHalfEven_mono. apply Qle_shift_div_l; [exact He'|].
      rewrite <- inject_Z_mult, <- Z.pow_add_r by lia.
      now replace (52 + e')%Z with (Z.log2 N') by lia. }
    assert (W : (2 ^ (Z.log2 N + 1) <= 2 ^ Z.log2 N')%Z).
    { apply Z.pow_le_mono_r; lia. }
    lia.
Qed.

Lemma roundSignificand_comp (y y' : Q) :
  y == y' -> roundSignificand y = roundSignificand y'.
Proof.
  intros H. unfold roundSignificand. rewrite (Qfloor_comp _ _ H).
  f_equal. apply roundHalfEven_comp. now rewrite H.
Qed.

Lemma round64_comp (x x' : Q) : x == x' -> round64 x = round64 x'.
Proof.
  intros H. unfold round64.
  assert (E : Qle_bool 0 x = Qle_bool 0 x').
  { destruct (Qle_bool 0 x) eqn:A; destruct (Qle_bool 0 x') eqn:B; try reflexivity.
    - apply Qle_bool_iff in A. rewrite H in A. apply Qle_bool_iff in A. congruence.
    - apply Qle_bool_iff in B. rewrite <- H in B. apply Qle_bool_iff in B. congruence. }
  rewrite E.
  assert (S : roundSignificand (Qabs x * inject_Z (2 ^ 1074))
              = roundSignificand (Qabs x' * inject_Z (2 ^ 1074))).
  { apply roundSignificand_comp. now rewrite H. }
  now rewrite S.
Qed.

Lemma round64_pos (x : Q) :
  0 <= x ->
  round64 x == inject_Z (roundSignificand (x * inject_Z (2 ^ 1074))) / inject_Z (2 ^ 1074).
Proof.
  intros H. unfold round64.
  rewrite (proj2 (Qle_bool_iff 0 x) H), Qred_correct.
  rewrite (roundSignificand_comp (Qabs x * inject_Z (2 ^ 1074)) (x * inject_Z (2 ^ 1074))).
  - reflexivity.
  - now rewrite Qabs_pos.
Qed.

Lemma round64_nonneg (x : Q) : 0 <= x -> 0 <= round64 x.
Proof.
  intros H. rewrite (round64_pos x H).
  pose proof (pow2_pos 1074 ltac:(lia)) as HP.
  apply Qle_shift_div_l; [exact HP|]. rewrite Qmult_0_l.
  change 0 with (inject_Z 0). rewrite <- Zle_Qle.
  apply roundSignificand_nonneg.
  apply Qmult_le_0_compat; [exact H|now apply Qlt_le_weak].
Qed.

Lemma round64_mono (x x' : Q) : 0 <= x -> x <= x' -> round64 x <= round64 x'.
Proof.
  intros H0 H. rewrite (round64_pos x H0), (round64_pos x') by lra.
  pose proof (pow2_pos 1074 ltac:(lia)) as HP.
  apply Qmult_le_compat_r; [|now apply Qlt_le_weak, Qinv_lt_0_compat].
  rewrite <- Zle_Qle. apply roundSignificand_mono.
  - apply Qmult_le_0_compat; [exact H0|now apply Qlt_le_weak].
  - apply Qmult_le_compat_r; [exact H|now apply Qlt_le_weak].
Qed.

(** In the normal range the relative error is at most [2^-53]. *)
Lemma round64_error (x : Q) :
  (1 # 2 ^ 1022) <= x ->
  x * (1 - (1 # 2 ^ 53)) <= round64 x <= x * (1 + (1 # 2 ^ 53)).
Proof.
  intros H.
  assert (H0 : 0 <= x).
  { apply Qle_trans with (1 # 2 ^ 1022); [discriminate|exact H]. }
  rewrite (round64_pos x H0).
  pose proof (pow2_pos 1074 ltac:(lia)) as HP.
  assert (Hn : inject_Z (2 ^ 52) <= x * inject_Z (2 ^ 1074)).
  { assert (E : inject_Z (2 ^ 52) == (1 # 2 ^ 1022) * inject_Z (2 ^ 1074))
      by (vm_compute; reflexivity).
    rewrite E. apply Qmult_le_compat_r; [exact H|now apply Qlt_le_weak]. }
  pose proof (roundSignificand_error _ Hn) as [E1 E2].
  set (R := inject_Z (roundSignificand (x * inject_Z (2 ^ 1074)))) in *.
  set (P := inject_Z (2 ^ 1074)) in *.
  set (d := 1 # 2 ^ 53) in *.
  split.
  - apply Qle_shift_div_l; [exact HP|].
    assert (E : x * (1 - d) * P == x * P * (1 - d)) by ring. now rewrite E.
  - apply Qle_shift_div_r; [exact HP|].
    assert (E : x * (1 + d) * P == x * P * (1 + d)) by ring. now rewrite E.
Qed.

(** Integers below [2^53] are doubles. *)
Lemma round64_Z (n : Z) :
  (0 <= n < 2 ^ 53)%Z -> round64 (inject_Z n) == inject_Z n.
Proof.
  intros H.
  assert (H0 : 0 <= inject_Z n).
  { change 0 with (inject_Z 0). rewrite <- Zle_Qle. lia. }
  rewrite (round64_pos _ H0).
  pose proof (pow2_pos 1074 ltac:(lia)) as HP.
  destruct (Z.eq_dec n 0%Z) as [->|Hn].
  - vm_compute. reflexivity.
  - rewrite (roundSignificand_comp _ (inject_Z (n * 2 ^ 1074)))
      by (now rewrite inject_Z_mult).
    rewrite roundSignificand_exact by lia.
    rewrite inject_Z_mult. field. lra.
Qed.

(** A product with a quotient, as in [a * (c / b)]: two roundings. *)
Lemma fmul_fdiv_error (a c b : Q) :
  (1 # 2 ^ 64) <= c / b -> (1 # 2 ^ 64) <= a ->
  a * (c / b) * (1 - (1 # 2 ^ 51)) <= fmul a (fdiv c b)
  <= a * (c / b) * (1 + (1 # 2 ^ 51)).
Proof.
  intros Hq Ha. unfold fmul, fdiv.
  assert (Hq' : (1 # 2 ^ 1022) <= c / b).
  { apply Qle_trans with (1 # 2 ^ 64); [vm_compute; discriminate|exact Hq]. }
  pose proof (round64_error (c / b) Hq') as [F1 F2].
  set (q := c / b) in *. set (f := round64 q) in *.
  assert (Hp : (1 # 2 ^ 1022) <= a * f).
  { apply Qle_trans with ((1 # 2 ^ 64) * ((1 # 2 ^ 64) * (1 - (1 # 2 ^ 53)))).
    - vm_compute. discriminate.
    - assert (0 <= (1 # 2 ^ 64) * (1 - (1 # 2 ^ 53))) by (vm_compute; discriminate).
      assert ((1 # 2 ^ 64) * (1 - (1 # 2 ^ 53)) <= f).
      { apply Qle_trans with (q * (1 - (1 # 2 ^ 53))); [|exact F1].
        apply Qmult_le_compat_r; [exact Hq|vm_compute; discriminate]. }
      apply Qle_trans with ((1 # 2 ^ 64) * f).
      + apply Qmult_le_l; [reflexivity|assumption].
      + apply Qmult_le_compat_r; [exact Ha|]. lra. }
  pose proof (round64_error (a * f) Hp) as [G1 G2].
  set (r := round64 (a * f)) in *.
  assert (Ha0 : 0 <= a) by (apply Qle_trans with (1 # 2 ^ 64); [discriminate|exact Ha]).
  assert (Hq0 : 0 <= q) by (apply Qle_trans with (1 # 2 ^ 64); [discriminate|exact Hq]).
  assert (P1 : a * (q * (1 - (1 # 2 ^ 53))) <= a * f)
    by nra.
  assert (P2 : a * f <= a * (q * (1 + (1 # 2 ^ 53)))) by nra.
  assert (Haq : 0 <= a * q) by nra.
  set (E := a * q) in *. set (p := a * f) in *.
  assert (P1' : E * (1 - (1 # 2 ^ 53)) <= p) by (unfold E; lra).
  assert (P2' : p <= E * (1 + (1 # 2 ^ 53))) by (unfold E; lra).
  change (1 # 2 ^ 53) with (1 # 9007199254740992) in *.
  change (1 # 2 ^ 51) with (1 # 2251799813685248).
  split; lra.
Qed.

(** Sample scalings [a * (c / b)], through [round64] and through the
    Standard Library's binary64 operations: both give the same double. *)
Lemma round64_matches_SpecFloat :
  Forall (fun '(a, c, b) =>
            specScaled a c b = Some (fmul (inject_Z a) (fdiv (inject_Z c) (inject_Z b))))
    [(539, 800, 1078); (1078, 800, 1078); (500, 800, 1000); (2165, 550, 2165);
     (1053, 550, 1053); (800, 550, 1100); (504, 187, 1); (3, 1, 10);
     (4294967295, 800, 4294967294); (1, 1, 3)]%Z.
Proof. repeat constructor. Qed.

Local Close Scope Q_scope.

(** ** compressImageFile *)

Lemma Qtrunc_nonneg (q : Q) : (0 <= q)%Q -> Qtrunc q = Qfloor q.
Proof.
  intros H. unfold Qtrunc. apply Qle_bool_iff in H. now rewrite H.
Qed.

Lemma toUnsignedLong_inject (z : Z) :
  (0 <= z < 2 ^ 32)%Z -> toUnsignedLong (inject_Z z) = z.
Proof.
  intros H. unfold toUnsignedLong. rewrite Qtrunc_nonneg.
  - rewrite Qfloor_Z. now apply Z.mod_small.
  - change 0%Q with (inject_Z 0). rewrite <- Zle_Qle. lia.
Qed.

Local Open Scope Q_scope.

Lemma fmul_zero_l (x : Q) : fmul 0 x = 0.
Proof.
  unfold fmul. rewrite (round64_comp (0 * x) 0) by ring. vm_compute. reflexivity.
Qed.

(** The side that is scaled: [a * (cap / b)] in doubles, then truncated by
    the canvas attribute.  It is within one pixel below the exact value. *)
Lemma scaled_within_pixel (cap a b : Z) :
  (0 < cap <= 800)%Z -> (0 <= a <= b)%Z -> (cap < b < 2 ^ 32)%Z ->
  (0 <= toUnsignedLong (fmul (inject_Z a) (fdiv (inject_Z cap) (inject_Z b))))%Z
  /\ (toUnsignedLong (fmul (inject_Z a) (fdiv (inject_Z cap) (inject_Z b))) * b
      <= a * cap
      <= (toUnsignedLong (fmul (inject_Z a) (fdiv (inject_Z cap) (inject_Z b))) + 1) * b)%Z.
Proof.
  intros Hc Ha Hb.
  destruct (Z.eq_dec a 0%Z) as [->|Ha0].
  - change (inject_Z 0) with 0. rewrite fmul_zero_l.
    change (toUnsignedLong 0) with 0%Z. lia.
  - set (A := inject_Z a). set (B := inject_Z b). set (C := inject_Z cap).
    assert (HA : 1 <= A) by (change 1 with (inject_Z 1); unfold A; rewrite <- Zle_Qle; lia).
    assert (HAB : A <= B) by (unfold A, B; rewrite <- Zle_Qle; lia).
    assert (HB : B <= 4294967295).
    { change 4294967295 with (inject_Z (2 ^ 32 - 1)). unfold B. rewrite <- Zle_Qle. lia. }
    assert (HC1 : 1 <= C) by (change 1 with (inject_Z 1); unfold C; rewrite <- Zle_Qle; lia).
    assert (HC2 : C <= 800) by (change 800 with (inject_Z 800); unfold C; rewrite <- Zle_Qle; lia).
    assert (HCB : C <= B) by (unfold C, B; rewrite <- Zle_Qle; lia).
    assert (Hq : (1 # 2 ^ 64) <= C / B).
    { apply Qle_shift_div_l; [lra|].
      change (1 # 2 ^ 64) with (1 # 18446744073709551616). lra. }
    assert (HA' : (1 # 2 ^ 64) <= A).
    { apply Qle_trans with 1; [discriminate|exact HA]. }
    pose proof (fmul_fdiv_error A C B Hq HA') as [E1 E2].
    set (f := fmul A (fdiv C B)) in *.
    assert (EB : A * (C / B) * B == A * C) by (field; lra).
    set (E := A * (C / B)) in *.
    assert (HE0 : 0 <= E).
    { unfold E. apply Qmult_le_0_compat; [lra|].
      apply Qle_trans with (1 # 2 ^ 64); [discriminate|exact Hq]. }
    assert (HE : E <= 800).
    { assert (E * B <= 800 * B) by nra.
      apply Qmult_lt_0_le_reg_r with B; [lra|assumption]. }
    change (1 # 2 ^ 51) with (1 # 2251799813685248) in *.
    clearbody E f. clear Hq HA'.
    assert (Hf0 : 0 <= f) by (clear - E1 HE0; lra).
    assert (Hf1 : f <= E + (800 # 2251799813685248)) by (clear - E2 HE0 HE; lra).
    assert (Hf2 : E - (800 # 2251799813685248) <= f) by (clear - E1 HE0 HE; lra).
    unfold toUnsignedLong, Qtrunc. rewrite (proj2 (Qle_bool_iff 0 f) Hf0).
    pose proof (Qfloor_le f) as Fl. pose proof (Qlt_floor f) as Fu.
    rewrite inject_Z_plus in Fu. change (inject_Z 1) with 1 in Fu.
    assert (K0 : (0 <= Qfloor f)%Z).
    { rewrite <- (Qfloor_Z 0). now apply Qfloor_resp_le. }
    assert (K1 : (Qfloor f <= 800)%Z).
    { apply Z.lt_succ_r. rewrite Zlt_Qlt.
      change (inject_Z (Z.succ 800)) with 801. clear - Fl Hf1 HE. lra. }
    rewrite Z.mod_small by lia.
    set (k := Qfloor f) in *. set (K := inject_Z k) in *.
    split; [exact K0|]. split.
    + destruct (Z_le_gt_dec (k * b) (a * cap)) as [G|G]; [exact G|exfalso].
      assert (G' : (a * cap + 1 <= k * b)%Z) by lia.
      rewrite Zle_Qle in G'.
      rewrite inject_Z_plus, !inject_Z_mult in G'.
      fold A B C K in G'. change (inject_Z 1) with 1 in G'.
      assert (HB0 : 1 <= B) by (clear - HA HAB; lra).
      assert (D : K - E <= 800 # 2251799813685248) by (clear - Fl Hf1; lra).
      assert (D' : 1 <= (K - E) * B) by (clear - G' EB; lra).
      clear - D D' HB HB0. nra.
    + destruct (Z_le_gt_dec (a * cap) ((k + 1) * b)) as [G|G]; [exact G|exfalso].
      assert (G' : ((k + 1) * b + 1 <= a * cap)%Z) by lia.
      rewrite Zle_Qle in G'.
      rewrite inject_Z_plus, !inject_Z_mult, inject_Z_plus in G'.
      fold A B C K in G'. change (inject_Z 1) with 1 in G'.
      assert (HB0 : 1 <= B) by (clear - HA HAB; lra).
      assert (D : E - (K + 1) <= 800 # 2251799813685248) by (clear - Fu Hf2; lra).
      assert (D' : 1 <= (E - (K + 1)) * B) by (clear - G' EB; lra).
      clear - D D' HB HB0. nra.
Qed.

Local Close Scope Q_scope.

Lemma canvasSize_wide (w hh : Z) :
  (hh < w)%Z -> (MAX_WIDTH < w)%Z ->
  canvasSize w hh
  = (MAX_WIDTH,
     toUnsignedLong (fmul (inject_Z hh) (fdiv (inject_Z MAX_WIDTH) (inject_Z w)))).
Proof.
  intros Hlt Hcap. unfold canvasSize, scaledSize.
  assert ((w >? hh)%Z = true) as -> by lia.
  assert ((w >? MAX_WIDTH)%Z = true) as -> by lia.
  f_equal.
Qed.

Lemma canvasSize_tall (w hh : Z) :
  (w <= hh)%Z -> (MAX_HEIGHT < hh)%Z ->
  canvasSize w hh
  = (toUnsignedLong (fmul (inject_Z w) (fdiv (inject_Z MAX_HEIGHT) (inject_Z hh))),
     MAX_HEIGHT).
Proof.
  intros Hle Hcap. unfold canvasSize, scaledSize.
  assert ((w >? hh)%Z = false) as -> by lia.
  assert ((hh >? MAX_HEIGHT)%Z = true) as -> by lia.
  f_equal.
Qed.

Lemma canvasSize_small (w hh : Z) :
  (0 <= w <= MAX_WIDTH)%Z -> (0 <= hh <= MAX_HEIGHT)%Z ->
  canvasSize w hh = (w, hh).
Proof.
  intros Hw Hh. unfold canvasSize, scaledSize, MAX_WIDTH, MAX_HEIGHT in *.
  destruct (w >? hh)%Z.
  - assert ((w >? 800)%Z = false) as -> by lia.
    apply pair_equal_spec. split; apply toUnsignedLong_inject; lia.
  - assert ((hh >? 800)%Z = false) as -> by lia.
    apply pair_equal_spec. split; apply toUnsignedLong_inject; lia.
Qed.

(** Rounding can cost the scaled side a pixel: the double nearest to
    [800 / 1078] is below it, and so is its product with 539 or 1078. *)
Lemma canvasSize_rounds_below :
  canvasSize 1078 539 = (800, 399)%Z /\ canvasSize 1078 1078 = (799, 800)%Z
  /\ canvasSize 1000 500 = (800, 400)%Z.
Proof. repeat split; vm_compute; reflexivity. Qed.

Lemma compressImageFile_size (h : Host) (file : File) (url : JsString)
    (img : LoadedImage) (b : Blob) :
  readAsDataURL h file = Resolved url ->
  loadImage h url = Resolved img ->
  compressImageFile h file = Resolved b ->
  (blob_width b, blob_height b) = canvasSize (natWidth img) (natHeight img).
Proof.
  intros Hr Hl. unfold compressImageFile. rewrite Hr. cbn [andThen].
  rewrite Hl. cbn [andThen].
  destruct (canvasSize (natWidth img) (natHeight img)) as [cw ch].
  destruct (negb (getContext2d h)); [discriminate|].
  destruct (canvasToBlob h img cw ch); [|discriminate].
  intros [= <-]. reflexivity.
Qed.

(** C5.  [img.width] and [img.height] are [unsigned long] attributes.  When
    the larger dimension of the decoded bitmap exceeds the cap of 800
    pixels, the compressed image has its larger dimension equal to the cap
    and both axes at most the cap; the other dimension is the original one
    scaled by [800 / larger] in doubles and truncated by the canvas, which
    is that value rounded down to a whole pixel or, where it is whole, that
    value or one pixel less.  A bitmap with both dimensions within the cap
    keeps its size. *)
Theorem compressImageFile_caps (h : Host) (file : File) (url : JsString)
    (img : LoadedImage) (b : Blob) :
  readAsDataURL h file = Resolved url ->
  loadImage h url = Resolved img ->
  compressImageFile h file = Resolved b ->
  (0 <= natWidth img < 2 ^ 32)%Z -> (0 <= natHeight img < 2 ^ 32)%Z ->
  ((800 < Z.max (natWidth img) (natHeight img))%Z ->
     Z.max (blob_width b) (blob_height b) = 800%Z
     /\ (0 <= blob_width b <= 800)%Z /\ (0 <= blob_height b <= 800)%Z
     /\ (if (natWidth img >? natHeight img)%Z
         then blob_width b = 800%Z
              /\ (blob_height b * natWidth img <= natHeight img * 800
                  <= (blob_height b + 1) * natWidth img)%Z
         else blob_height b = 800%Z
              /\ (blob_width b * natHeight img <= natWidth img * 800
                  <= (blob_width b + 1) * natHeight img)%Z))
  /\ ((Z.max (natWidth img) (natHeight img) <= 800)%Z ->
      blob_width b = natWidth img /\ blob_height b = natHeight img).
Proof.
  intros Hr Hl Hc Hw Hh.
  pose proof (compressImageFile_size h file url img b Hr Hl Hc) as E.
  set (w := natWidth img) in *. set (hh := natHeight img) in *.
  split.
  - intros Hbig. destruct (w >? hh)%Z eqn:Cmp.
    + rewrite canvasSize_wide in E by (unfold MAX_WIDTH; lia).
      injection E as Ew Eh. unfold MAX_WIDTH in *.
      destruct (scaled_within_pixel 800 hh w) as (K0 & K1 & K2); try lia.
      rewrite <- Eh in K0, K1, K2. rewrite Ew.
      assert (blob_height b <= 800)%Z by nia.
      repeat split; try lia.
    + rewrite canvasSize_tall in E by (unfold MAX_HEIGHT; lia).
      injection E as Ew Eh. unfold MAX_HEIGHT in *.
      destruct (scaled_within_pixel 800 w hh) as (K0 & K1 & K2); try lia.
      rewrite <- Ew in K0, K1, K2. rewrite Eh.
      assert (blob_width b <= 800)%Z by nia.
      repeat split; try lia.
  - intros Hsmall.
    rewrite canvasSize_small in E by (unfold MAX_WIDTH, MAX_HEIGHT; lia).
    now injection E.
Qed.

Lemma compressImageFile_caps_witness :
  compressImageFile (demoHost 1078 539) (js "f")
  = Resolved {| blob_type := js "image/jpeg"; blob_quality := (7 # 10)%Q;
                blob_width := 800; blob_height := 399; blob_content := js "f" |}
  /\ Z.max 800 399 = 800%Z.
Proof.
  split; [vm_compute; reflexivity|].
  refine (proj1 (proj1 (compressImageFile_caps (demoHost 1078 539) (js "f") (js "f")
            {| natWidth := 1078; natHeight := 539; pixels := js "f" |}
            {| blob_type := js "image/jpeg"; blob_quality := (7 # 10)%Q;
               blob_width := 800; blob_height := 399; blob_content := js "f" |}
            eq_refl eq_refl _ _ _) _)); [vm_compute; reflexivity|cbn; lia..].
Defined.

(** ** generatePdf: what is drawn *)

Lemma content_app (l1 l2 : list PdfOp) : content (l1 ++ l2) = content l1 ++ content l2.
Proof. apply flat_map_app. Qed.

Lemma content_emit (op : PdfOp) (st : PdfState) :
  content (ops (emit op st)) = content (ops st) ++ itemOf op.
Proof. rewrite ops_emit, content_app. cbn. now rewrite app_nil_r. Qed.

Lemma ops_setY (y : Q) (st : PdfState) : ops (setY y st) = ops st.
Proof. reflexivity. Qed.

Lemma ops_advanceY (d : Q) (st : PdfState) : ops (advanceY d st) = ops st.
Proof. reflexivity. Qed.

Lemma content_addPage (st : PdfState) : content (ops (addPage st)) = content (ops st).
Proof.
  unfold addPage. rewrite ops_setY, content_emit. cbn. apply app_nil_r.
Qed.

Lemma content_checkAndAddPage (d : Q) (st : PdfState) :
  content (ops (checkAndAddPage d st)) = content (ops st).
Proof.
  unfold checkAndAddPage. destruct (Qgtb _ _); [apply content_addPage|reflexivity].
Qed.

Lemma content_addWrappedText (h : Host) (txt : JsString) (fontSize : Q)
    (o : TextOptions) (st : PdfState) :
  content (ops (addWrappedText h txt fontSize o st))
  = content (ops st) ++ [wrapped h (isBold o) (isItalic o) fontSize txt].
Proof.
  unfold addWrappedText. rewrite ops_advanceY, content_emit.
  rewrite content_checkAndAddPage, !content_emit. cbn [itemOf].
  now rewrite !app_nil_r.
Qed.

Lemma content_placeImage (sz : Q) (d : ImgData) (st : PdfState) :
  content (ops (placeImage sz d st)) = content (ops st) ++ [ItemImage (data d)].
Proof.
  unfold placeImage. rewrite ops_advanceY, content_emit. cbn [itemOf].
  destruct (_ && _); [now rewrite content_addPage|reflexivity].
Qed.

Lemma content_renderImage (h : Host) (sizes : gmap JsString Q) (point : ReportPoint)
    (imgIndex : nat) (path : JsString) (st : PdfState) :
  content (ops (renderImage h sizes point imgIndex path st))
  = content (ops st) ++ [imageItem h path].
Proof.
  unfold renderImage, imageItem. destruct (fetchImageData h path) as [d|e].
  - apply content_placeImage.
  - rewrite content_addWrappedText. reflexivity.
Qed.

Lemma content_renderImages (h : Host) (sizes : gmap JsString Q) (point : ReportPoint)
    (paths : list JsString) :
  forall (imgIndex : nat) (st : PdfState),
    content (ops (renderImages h sizes point imgIndex paths st))
    = content (ops st) ++ List.map (imageItem h) paths.
Proof.
  induction paths as [|path rest IH]; intros imgIndex st; cbn [renderImages List.map].
  - now rewrite app_nil_r.
  - rewrite IH, content_renderImage, <- app_assoc. reflexivity.
Qed.

Lemma content_renderPoint (h : Host) (sizes : gmap JsString Q) (total index : nat)
    (point : ReportPoint) (st : PdfState) :
  content (ops (renderPoint h sizes total index point st))
  = content (ops st) ++ pointItems h index point.
Proof.
  unfold renderPoint, pointItems.
  destruct (Z.of_nat index <? Z.of_nat total - 1)%Z.
  - rewrite ops_advanceY, !content_emit, ops_advanceY, content_checkAndAddPage.
    cbn [itemOf]. rewrite !app_nil_r.
    rewrite content_renderImages, ops_advanceY, content_addWrappedText.
    rewrite ops_advanceY, content_addWrappedText, content_checkAndAddPage.
    cbn [isBold isItalic plainText]. now rewrite <- !app_assoc.
  - rewrite content_renderImages, ops_advanceY, content_addWrappedText.
    rewrite ops_advanceY, content_addWrappedText, content_checkAndAddPage.
    cbn [isBold isItalic plainText]. now rewrite <- !app_assoc.
Qed.

Lemma content_renderPoints (h : Host) (sizes : gmap JsString Q) (total : nat)
    (pts : list ReportPoint) :
  forall (index : nat) (st : PdfState),
    content (ops (renderPoints h sizes total index pts st))
    = content (ops st)
      ++ concat (imap (fun i => pointItems h (index + i)) pts).
Proof.
  induction pts as [|point rest IH]; intros index st; cbn [renderPoints].
  - cbn. now rewrite app_nil_r.
  - rewrite IH, content_renderPoint, imap_cons. cbn [concat].
    rewrite Nat.add_0_r, <- app_assoc. do 3 f_equal.
    apply imap_ext. intros i x _. unfold compose. f_equal. lia.
Qed.

Lemma content_renderHeader (h : Host) (report : Report) (st : PdfState) :
  content (ops (renderHeader h report st)) = content (ops st) ++ headerItems h report.
Proof.
  unfold renderHeader, headerItems.
  rewrite ops_advanceY, !content_emit, ops_advanceY. cbn [itemOf].
  rewrite !app_nil_r.
  rewrite content_addWrappedText, ops_advanceY, content_addWrappedText.
  rewrite ops_advanceY, content_addWrappedText.
  cbn [isBold isItalic]. now rewrite <- !app_assoc.
Qed.

Lemma generatePdf_content (h : Host) (report : Report) (sizes : gmap JsString Q) :
  content (ops (fst (generatePdf h report sizes))) = expectedContent h report.
Proof.
  unfold generatePdf, expectedContent. cbn [fst].
  rewrite content_emit. cbn [itemOf]. rewrite app_nil_r.
  rewrite content_renderPoints, content_renderHeader. cbn [pdfStart ops content flat_map].
  cbn [app]. reflexivity.
Qed.

(** ** generateDocx: the paragraphs *)

Lemma docxImages_children (h : Host) (paths : list JsString) :
  snd (docxImages h paths) = flat_map (docxImageOf h) paths.
Proof.
  induction paths as [|path rest IH]; [reflexivity|].
  cbn [docxImages flat_map]. unfold docxImageOf at 1.
  destruct (processImage h path) as [lg [d|]];
    destruct (docxImages h rest) as [lg' ch]; cbn in *; now rewrite IH.
Qed.

Lemma docxPoints_children (h : Host) (pts : list ReportPoint) :
  forall index : nat,
    snd (docxPoints h index pts)
    = concat (imap (fun i => docxPointChildren h (index + i)) pts).
Proof.
  induction pts as [|point rest IH]; intros index; [reflexivity|].
  cbn [docxPoints]. rewrite imap_cons. cbn [concat].
  pose proof (docxImages_children h (imagePaths point)) as Hi.
  pose proof (IH (S index)) as Hp.
  destruct (docxImages h (imagePaths point)) as [lg imgs].
  destruct (docxPoints h (S index) rest) as [lg' ch].
  cbn [snd] in Hi, Hp. cbn [snd].
  unfold docxPointChildren at 1. rewrite Nat.add_0_r, Hi, Hp.
  assert (E : imap (fun i => docxPointChildren h (S index + i)) rest
              = imap ((fun i => docxPointChildren h (index + i)) ∘ S) rest).
  { apply imap_ext. intros i x _. unfold compose. f_equal. lia. }
  rewrite E, <- app_assoc. reflexivity.
Qed.

Lemma generateDocx_children (h : Host) (today : JsString) (report : Report) :
  children (fst (generateDocx h today report)) = expectedChildren h today report.
Proof.
  unfold generateDocx, expectedChildren.
  pose proof (docxPoints_children h (points report) 0) as Hp.
  destruct (docxPoints h 0 (points report)) as [lg ch]. cbn in Hp. cbn.
  now rewrite Hp.
Qed.

(** C6.  Whatever images fail to be fetched or decoded, both exports run to
    their end ([true]) over all points and all image paths in document
    order: the PDF shows, for each image path, the image when it was
    fetched and the placeholder line when it was not; the DOCX holds an
    image paragraph for each image that was processed and nothing for one
    that was not. *)
Theorem exports_skip_failed_images (h : Host) (today : JsString) (report : Report)
    (sizes : gmap JsString Q) :
  snd (generatePdf h report sizes) = true
  /\ content (ops (fst (generatePdf h report sizes))) = expectedContent h report
  /\ snd (generateDocx h today report) = true
  /\ children (fst (generateDocx h today report)) = expectedChildren h today report
  /\ (forall (path : JsString) (e : JsError),
        fetchImageData h path = Rejected e ->
        imageItem h path = placeholderItem h
        /\ forall point i st,
             content (ops (renderImage h sizes point i path st))
             = content (ops st) ++ [placeholderItem h])
  /\ (forall path : JsString,
        snd (processImage h path) = None -> docxImageOf h path = []).
Proof.
  split; [reflexivity|].
  split; [apply generatePdf_content|].
  split; [unfold generateDocx; now destruct (docxPoints h 0 (points report))|].
  split; [apply generateDocx_children|].
  split.
  - intros path e He.
    assert (Hi : imageItem h path = placeholderItem h).
    { unfold imageItem. now rewrite He. }
    split; [exact Hi|]. intros point i st.
    now rewrite content_renderImage, Hi.
  - intros path Hn. unfold docxImageOf. now rewrite Hn.
Qed.

Lemma exports_skip_failed_images_witness :
  imageItem (demoHost 100 200) (js "broken") = placeholderItem (demoHost 100 200)
  /\ docxImageOf (demoHost 100 200) (js "broken") = [].
Proof.
  pose proof (exports_skip_failed_images (demoHost 100 200) (js "today")
                (demoReport "u1" []) ∅) as (_ & _ & _ & _ & Hpdf & Hdocx).
  split.
  - exact (proj1 (Hpdf (js "broken") (js "load error") eq_refl)).
  - exact (Hdocx (js "broken") eq_refl).
Defined.

(** ** generatePdf: where an image goes *)

Lemma Qgtb_lt (x y : Q) : Qgtb x y = true <-> (y < x)%Q.
Proof.
  unfold Qgtb. rewrite negb_true_iff. split.
  - intros H. apply Qnot_le_lt. intros Hle. apply Qle_bool_iff in Hle. congruence.
  - intros H. destruct (Qle_bool x y) eqn:E; [|reflexivity].
    apply Qle_bool_iff in E. exfalso. exact (Qlt_not_le _ _ H E).
Qed.

Lemma Qgtb_le (x y : Q) : Qgtb x y = false <-> (x <= y)%Q.
Proof.
  unfold Qgtb. rewrite negb_false_iff. apply Qle_bool_iff.
Qed.

Lemma Qle_bool_gt (x y : Q) : (y < x)%Q -> Qle_bool x y = false.
Proof.
  intros H. destruct (Qle_bool x y) eqn:E; [|reflexivity].
  apply Qle_bool_iff in E. exfalso. exact (Qlt_not_le _ _ H E).
Qed.

Lemma renderImage_fetched (h : Host) (sizes : gmap JsString Q) (point : ReportPoint)
    (imgIndex : nat) (path : JsString) (st : PdfState) (imgData : ImgData) (sz : Q) :
  fetchImageData h path = Resolved imgData ->
  sizes !! sizeKey point imgIndex = Some sz ->
  Qeq_bool sz 0 = false ->
  renderImage h sizes point imgIndex path st = placeImage sz imgData st.
Proof.
  intros Hf Hs Hz. unfold renderImage. rewrite Hf, Hs. cbn [numOr]. now rewrite Hz.
Qed.

(** C4 (as amended).  An image at 100% of the printable width whose scaled
    height exceeds the space left on the page is moved to the top of a new
    page, where it fits, provided the image and its 5 mm of padding fit the
    printable height of a page (257 mm).  A taller image is drawn at the
    cursor of the current page and no page is added. *)
Theorem image_page_break (h : Host) (sizes : gmap JsString Q) (point : ReportPoint)
    (imgIndex : nat) (path : JsString) (st : PdfState) (imgData : ImgData) :
  fetchImageData h path = Resolved imgData ->
  sizes !! sizeKey point imgIndex = Some 100%Q ->
  (a4Height - MARGINS.BOTTOM - currentY st < imgHeightOf 100 imgData)%Q ->
  ((imgHeightOf 100 imgData + 5 <= printablePageHeight)%Q ->
     ops (renderImage h sizes point imgIndex path st)
     = ops st ++ [OpAddPage;
                  OpAddImage (data imgData) MARGINS.LEFT MARGINS.TOP
                    (desiredWidthOf 100) (imgHeightOf 100 imgData)]
     /\ (MARGINS.TOP + imgHeightOf 100 imgData <= a4Height - MARGINS.BOTTOM)%Q)
  /\ ((printablePageHeight < imgHeightOf 100 imgData + 5)%Q ->
      ops (renderImage h sizes point imgIndex path st)
      = ops st ++ [OpAddImage (data imgData) MARGINS.LEFT (currentY st)
                     (desiredWidthOf 100) (imgHeightOf 100 imgData)]).
Proof.
  intros Hf Hs Hover.
  rewrite (renderImage_fetched h sizes point imgIndex path st imgData 100 Hf Hs eq_refl).
  unfold placeImage.
  assert (Hgt : Qgtb (currentY st + (imgHeightOf 100 imgData + 5))
                  (a4Height - MARGINS.BOTTOM) = true).
  { apply Qgtb_lt. unfold a4Height, MARGINS.BOTTOM in *. lra. }
  rewrite Hgt. split.
  - intros Hfit. apply Qle_bool_iff in Hfit. rewrite Hfit. cbn [andb].
    split.
    + rewrite ops_advanceY, ops_emit. unfold addPage at 1.
      rewrite ops_setY, ops_emit, <- app_assoc. reflexivity.
    + apply Qle_bool_iff in Hfit.
      unfold printablePageHeight, a4Height, MARGINS.TOP, MARGINS.BOTTOM in *. lra.
  - intros Htall. rewrite (Qle_bool_gt _ _ Htall). cbn [andb].
    rewrite ops_advanceY, ops_emit. reflexivity.
Qed.

Lemma image_page_break_witness :
  ops (renderImage (demoHost 100 100) fullWidth demoCard 0 (js "img")
         {| ops := []; currentY := 200; pdfLog := [] |})
  = [OpAddPage;
     OpAddImage (js "img") MARGINS.LEFT MARGINS.TOP (desiredWidthOf 100)
       (imgHeightOf 100 {| data := js "img"; width := 100; height := 100 |})].
Proof.
  refine (proj1 (proj1 (image_page_break (demoHost 100 100)
            fullWidth demoCard 0 (js "img")
            {| ops := []; currentY := 200; pdfLog := [] |}
            {| data := js "img"; width := 100; height := 100 |}
            eq_refl _ _) _)).
  - vm_compute. reflexivity.
  - vm_compute. reflexivity.
  - vm_compute. discriminate.
Defined.

(** C4 (as stated) fails: a 100 x 200 pixel image at 100% width is 340 mm
    high, more than the 187 mm left below the cursor, and it is drawn on the
    current page at the cursor; the export adds no page. *)
Lemma tall_image_stays_on_page :
  imagePlacements
    (ops (fst (generatePdf (demoHost 100 200) (demoReport "u1" [demoCard])
                 fullWidth)))
  = [((111934751 # 1250000)%Q, 340%Q)]
  /\ (a4Height - MARGINS.BOTTOM - (111934751 # 1250000) < 340)%Q
  /\ pageBreaks
       (ops (fst (generatePdf (demoHost 100 200) (demoReport "u1" [demoCard])
                    fullWidth)))
     = 0%nat.
Proof.
  split; [vm_compute; reflexivity|].
  split; [vm_compute; reflexivity|vm_compute; reflexivity].
Qed.

(** ** The editor: ownership *)

Lemma not_owner (e : Editor) :
  userId (localReport e) <> currentUserId e -> isOwner e = false.
Proof. intros H. unfold isOwner. now apply bool_decide_eq_false. Qed.

(** X25.  For a viewer who is not the report's owner every mutation entry
    point of the editor and of the point card (field update, add point,
    update point, remove point, image upload, and also image removal) does
    nothing at all, and a camera capture only closes the camera dialog: the
    editor's local report, the application state (reports, timers,
    [saveReport] calls) and the calls on storage are what they were. *)
Theorem non_owner_is_inert (h : Host) (ss : Session) (i : Interaction) :
  userId (localReport (editor ss)) <> currentUserId (editor ss) ->
  interact h (editor ss) i = (if isCapture i then [SetIsCameraOpen false] else [])
  /\ localUpdates (interact h (editor ss) i) = []
  /\ persistRequests (interact h (editor ss) i) = []
  /\ perform h ss i = ss.
Proof.
  intros Hne. apply not_owner in Hne.
  assert (E : interact h (editor ss) i
              = (if isCapture i then [SetIsCameraOpen false] else [])).
  { destruct i; cbn [interact isCapture];
      unfold updateField, handleLocalUpdate, addPoint, updatePoint, removePoint,
        handleImageUpload, handleCapture, handleRemoveImage;
      rewrite Hne; cbn [negb]; rewrite ?orb_true_r, ?andb_false_r; reflexivity. }
  unfold perform. rewrite E. destruct (isCapture i); repeat split; reflexivity.
Qed.

Lemma non_owner_is_inert_witness :
  perform (demoHost 100 100) (demoSession "u1" "u2")
    (DoImageUpload demoCard [js "photo"])
  = demoSession "u1" "u2".
Proof.
  refine (proj2 (proj2 (proj2 (non_owner_is_inert (demoHost 100 100)
            (demoSession "u1" "u2") (DoImageUpload demoCard [js "photo"]) _)))).
  vm_compute. discriminate.
Defined.

(** C7 at a failing input.  The editor's Back arrow is rendered for every
    viewer, and [handleBackFromEditor] looks at the sync status only, which
    the application keeps once for all reports.  The user [u1] works while
    the store refuses every write: a point added to the own report at 0 ms
    is refused at 100 ms; Back at 200 ms flushes again and is refused at
    300 ms, which closes the report and leaves the status ['unsaved'].  At
    400 ms the user opens the report of [u2], of which [u1] is not the
    owner, and at 500 ms leaves it with Back, having changed nothing: a
    [saveReport] call is issued with the report of [u2]. *)
Theorem non_owner_back_saves_foreign_report :
  isOwner {| localReport := demoForeign; currentUserId := js "u1" |} = false
  /\ editorOpen demoForeignOpen = true
  /\ findReport (activeReportId demoForeignOpen) (reports demoForeignOpen)
     = Some demoForeign
  /\ syncStatus demoForeignOpen = unsaved
  /\ timers demoForeignOpen = []
  /\ inflight demoForeignOpen = []
  /\ saveCalls demoForeignOpen = [demoDraftPlus "" 0; demoDraftPlus "" 0]
  /\ saveCalls (run demoForeignOpen [EvBack 500])
     = [demoDraftPlus "" 0; demoDraftPlus "" 0; demoForeign]
  /\ syncStatus (run demoForeignOpen [EvBack 500]) = saving.
Proof. repeat split; vm_compute; reflexivity. Qed.

(** ** The point card: a batch of uploads *)

Lemma promiseAll_resolved {A} (ps : list (Promise A)) :
  Forall (fun p => isResolved p = true) ps ->
  exists l, ps = List.map Resolved l /\ promiseAll ps = Resolved l.
Proof.
  induction 1 as [|p ps Hp _ IH].
  - now exists [].
  - destruct IH as (l & -> & Hl). destruct p as [a|e]; [|discriminate].
    exists (a :: l). cbn. now rewrite Hl.
Qed.

Lemma promiseAll_rejected {A} (ps : list (Promise A)) :
  Exists (fun p => isResolved p = false) ps ->
  exists e, promiseAll ps = Rejected e.
Proof.
  induction 1 as [p ps Hp|p ps _ IH].
  - destruct p as [a|e]; [discriminate|]. now exists e.
  - destruct IH as (e & He). cbn. rewrite He.
    destruct p as [a|e']; [now exists e|now exists e'].
Qed.

Lemma updatePoint_owner (e : Editor) (id : JsString) (paths : list JsString)
    (o : option bool) :
  isOwner e = true ->
  updatePoint e id (onlyImagePaths paths) o
  = [SetLocalReport (withImagePaths (localReport e) id paths);
     OnUpdateReport (withImagePaths (localReport e) id paths) o].
Proof.
  intros Ho. unfold updatePoint, handleLocalUpdate. rewrite Ho. reflexivity.
Qed.

Lemma uploadCalls_quiet (h : Host) (e : Editor) (files : list File) :
  localUpdates (uploadCalls h e files) = []
  /\ persistRequests (uploadCalls h e files) = [].
Proof.
  unfold uploadCalls. induction files as [|f fs [IH1 IH2]]; [now split|].
  cbn [flat_map]. unfold localUpdates, persistRequests in *.
  rewrite !flat_map_app, IH1, IH2.
  destruct (compressImageFile h f); now split.
Qed.

Lemma quiet_effects_keep_state (l : list Effect) :
  forall ss : Session,
    localUpdates l = [] -> persistRequests l = [] ->
    editor (fold_left applyEffect l ss) = editor ss
    /\ app (fold_left applyEffect l ss) = app ss.
Proof.
  induction l as [|eff l IH]; intros ss L P; [now split|].
  cbn [fold_left]. unfold localUpdates, persistRequests in *.
  cbn [flat_map] in L, P.
  destruct eff; cbn in L, P; try discriminate;
    match goal with
    | |- context [fold_left applyEffect l ?s] =>
        destruct (IH s L P) as [IH1 IH2]; rewrite IH1, IH2; now split
    end.
Qed.

(** C8.  When the owner uploads a batch of files for a point: if every
    file is compressed and uploaded, the handler makes exactly one update,
    after all upload calls, and that update sets the point's image list to
    the list the card held followed by all new paths in file order; if any
    compression or upload fails, it makes no update, and the session keeps
    its local report and application state. *)
Theorem image_batch_is_atomic (h : Host) (ss : Session) (point : ReportPoint)
    (files : list File) :
  isOwner (editor ss) = true ->
  files <> [] ->
  (Forall (fun file => isResolved (uploadOne h (editor ss) file) = true) files ->
     exists newPaths : list JsString,
       List.map (uploadOne h (editor ss)) files = List.map Resolved newPaths
       /\ handleImageUpload h (editor ss) point files
          = [SetIsProcessingImage true]
            ++ uploadCalls h (editor ss) files
            ++ [SetLocalReport
                  (withImagePaths (localReport (editor ss)) (point_id point)
                     (imagePaths point ++ newPaths));
                OnUpdateReport
                  (withImagePaths (localReport (editor ss)) (point_id point)
                     (imagePaths point ++ newPaths)) (Some true);
                SetIsProcessingImage false; ResetFileInput]
       /\ localUpdates (handleImageUpload h (editor ss) point files)
          = [withImagePaths (localReport (editor ss)) (point_id point)
               (imagePaths point ++ newPaths)])
  /\ (Exists (fun file => isResolved (uploadOne h (editor ss) file) = false) files ->
      localUpdates (handleImageUpload h (editor ss) point files) = []
      /\ persistRequests (handleImageUpload h (editor ss) point files) = []
      /\ editor (perform h ss (DoImageUpload point files)) = editor ss
      /\ app (perform h ss (DoImageUpload point files)) = app ss).
Proof.
  intros Ho Hne.
  assert (Hlen : (length files =? 0)%nat = false).
  { destruct files; [congruence|reflexivity]. }
  pose proof (uploadCalls_quiet h (editor ss) files) as [Hq1 Hq2].
  split.
  - intros Hall.
    destruct (promiseAll_resolved (List.map (uploadOne h (editor ss)) files))
      as (newPaths & Hmap & Hres).
    { apply Forall_forall. intros p Hp.
      apply list_elem_of_In, in_map_iff in Hp. destruct Hp as (f & <- & Hf).
      rewrite Forall_forall in Hall. apply Hall. now apply list_elem_of_In. }
    exists newPaths. split; [exact Hmap|].
    assert (E : handleImageUpload h (editor ss) point files
                = [SetIsProcessingImage true]
                  ++ uploadCalls h (editor ss) files
                  ++ [SetLocalReport
                        (withImagePaths (localReport (editor ss)) (point_id point)
                           (imagePaths point ++ newPaths));
                      OnUpdateReport
                        (withImagePaths (localReport (editor ss)) (point_id point)
                           (imagePaths point ++ newPaths)) (Some true);
                      SetIsProcessingImage false; ResetFileInput]).
    { unfold handleImageUpload. rewrite Hlen, Ho, Hres. cbn [negb orb].
      rewrite updatePoint_owner by exact Ho. reflexivity. }
    split; [exact E|].
    rewrite E. unfold localUpdates in *. rewrite !flat_map_app, Hq1. reflexivity.
  - intros Hex.
    destruct (promiseAll_rejected (List.map (uploadOne h (editor ss)) files))
      as (err & Hrej).
    { apply Exists_exists in Hex. destruct Hex as (f & Hf & Hbad).
      apply Exists_exists. exists (uploadOne h (editor ss) f). split; [|exact Hbad].
      apply list_elem_of_In, in_map, list_elem_of_In. exact Hf. }
    assert (E : handleImageUpload h (editor ss) point files
                = [SetIsProcessingImage true]
                  ++ uploadCalls h (editor ss) files
                  ++ [Log (ConsoleError
                             (js "Error processing and uploading images:") err)]
                  ++ [SetIsProcessingImage false; ResetFileInput]).
    { unfold handleImageUpload. rewrite Hlen, Ho, Hrej. reflexivity. }
    assert (L : localUpdates (handleImageUpload h (editor ss) point files) = []).
    { rewrite E. unfold localUpdates in *. now rewrite !flat_map_app, Hq1. }
    assert (P : persistRequests (handleImageUpload h (editor ss) point files) = []).
    { rewrite E. unfold persistRequests in *. now rewrite !flat_map_app, Hq2. }
    split; [exact L|]. split; [exact P|].
    unfold perform. cbn [interact]. now apply quiet_effects_keep_state.
Qed.

Lemma image_batch_is_atomic_witness :
  localUpdates (handleImageUpload (demoHost 100 100)
                  (editor (demoSession "u1" "u1")) demoCard [js "a"; js "broken"])
  = [].
Proof.
  refine (proj1 (proj2 (image_batch_is_atomic (demoHost 100 100)
            (demoSession "u1" "u1") demoCard [js "a"; js "broken"] eq_refl _) _)).
  - discriminate.
  - apply Exists_cons_tl, Exists_cons_hd. reflexivity.
Defined.

(** ** The sync controller: frame lemmas *)

Lemma saveToDb_timers (seen : SyncStatus) (r : Report) (s : App) :
  timers (saveToDb seen r s) = timers s
  /\ timeouts (saveToDb seen r s) = timeouts s
  /\ reports (saveToDb seen r s) = reports s
  /\ activeReportId (saveToDb seen r s) = activeReportId s
  /\ rendered (saveToDb seen r s) = rendered s.
Proof. unfold saveToDb. destruct (bool_decide _); repeat split. Qed.

Lemma saveToDb_calls (seen : SyncStatus) (r : Report) (s : App) :
  saveCalls (saveToDb seen r s)
  = if bool_decide (seen = saving) then saveCalls s else saveCalls s ++ [r].
Proof. unfold saveToDb. destruct (bool_decide _); reflexivity. Qed.

Lemma rerender_frame (s : App) :
  timers (rerender s) = timers s
  /\ timeouts (rerender s) = timeouts s
  /\ saveCalls (rerender s) = saveCalls s
  /\ syncStatus (rerender s) = syncStatus s
  /\ inflight (rerender s) = inflight s
  /\ reports (rerender s) = reports s
  /\ activeReportId (rerender s) = activeReportId s
  /\ toast (rerender s) = toast s
  /\ now (rerender s) = now s.
Proof. unfold rerender. destruct (bool_decide _); repeat split. Qed.

Lemma rerender_status (s : App) : cb_status (rendered (rerender s)) = syncStatus s.
Proof.
  unfold rerender. destruct (bool_decide _) eqn:E; [|reflexivity].
  apply bool_decide_eq_true in E. now rewrite E.
Qed.

Lemma clearTimeout_incl (id : nat) (s : App) (tm : Timer) :
  In tm (timers (clearTimeout id s)) -> In tm (timers s) /\ timer_id tm <> id.
Proof.
  unfold clearTimeout. cbn. rewrite filter_In, negb_true_iff, Nat.eqb_neq. tauto.
Qed.

Lemma cancel_incl (inst : nat) (s : App) (tm : Timer) :
  In tm (timers (cancel inst s)) -> In tm (timers s).
Proof.
  unfold cancel. destruct (timeouts s !! inst); [|tauto].
  intros H. now apply clearTimeout_incl in H.
Qed.

Lemma cancel_frame (inst : nat) (s : App) :
  timeouts (cancel inst s) = timeouts s
  /\ saveCalls (cancel inst s) = saveCalls s
  /\ syncStatus (cancel inst s) = syncStatus s
  /\ reports (cancel inst s) = reports s
  /\ activeReportId (cancel inst s) = activeReportId s
  /\ inflight (cancel inst s) = inflight s.
Proof. unfold cancel. destruct (timeouts s !! inst); repeat split. Qed.

(** After [cancel], the instance has no pending timer. *)
Lemma cancel_clears (inst : nat) (s : App) (tm : Timer) :
  timersKnown s -> In tm (timers (cancel inst s)) -> timer_owner tm <> inst.
Proof.
  intros Hk Hin Hown. unfold cancel in Hin.
  destruct (timeouts s !! inst) as [t|] eqn:E.
  - apply clearTimeout_incl in Hin. destruct Hin as [Hin Hid].
    apply Hk in Hin. rewrite Hown, E in Hin. congruence.
  - apply Hk in Hin. rewrite Hown, E in Hin. discriminate.
Qed.

Lemma timersKnown_ext (s s' : App) :
  (forall tm, In tm (timers s') -> In tm (timers s)) ->
  timeouts s' = timeouts s -> timersKnown s -> timersKnown s'.
Proof. intros Hi Ht Hk tm Hin. rewrite Ht. apply Hk, Hi, Hin. Qed.

Lemma timersKnown_saveToDb (seen : SyncStatus) (r : Report) (s : App) :
  timersKnown s -> timersKnown (saveToDb seen r s).
Proof.
  destruct (saveToDb_timers seen r s) as (Ht & Ho & _).
  apply timersKnown_ext; [now rewrite Ht|exact Ho].
Qed.

Lemma timersKnown_rerender (s : App) : timersKnown s -> timersKnown (rerender s).
Proof.
  destruct (rerender_frame s) as (Ht & Ho & _).
  apply timersKnown_ext; [now rewrite Ht|exact Ho].
Qed.

Lemma timersKnown_cancel (inst : nat) (s : App) :
  timersKnown s -> timersKnown (cancel inst s).
Proof.
  apply timersKnown_ext; [apply cancel_incl|apply cancel_frame].
Qed.

Lemma timersKnown_debounced (inst : nat) (seen : SyncStatus) (r : Report) (s : App) :
  timersKnown s -> timersKnown (debounced inst seen r s).
Proof.
  intros Hk tm Hin. unfold debounced in *. cbn in *.
  apply in_app_or in Hin. destruct Hin as [Hin|[<-|[]]].
  - assert (Hin' : In tm (timers (cancel inst s))).
    { unfold cancel. destruct (timeouts s !! inst); exact Hin. }
    pose proof (cancel_clears inst s tm Hk Hin') as Hne.
    rewrite lookup_insert_ne by congruence.
    destruct (timeouts s !! inst); cbn; apply Hk;
      [now apply clearTimeout_incl in Hin|exact Hin].
  - cbn. rewrite lookup_insert_eq. reflexivity.
Qed.

Lemma timersKnown_updateReport (cb : Callbacks) (r : Report) (o : option bool)
    (s : App) :
  timersKnown s -> timersKnown (updateReport cb r o s).
Proof.
  intros Hk. unfold updateReport. destruct (isImmediate o).
  - apply timersKnown_saveToDb, timersKnown_cancel. exact Hk.
  - apply timersKnown_debounced. exact Hk.
Qed.

Lemma timersKnown_back (s : App) : timersKnown s -> timersKnown (handleBackFromEditor s).
Proof.
  intros Hk. unfold handleBackFromEditor.
  destruct (findReport _ _); [|exact Hk].
  destruct (bool_decide _); [|exact Hk].
  apply (timersKnown_saveToDb _ _ (cancel _ s)), timersKnown_cancel, Hk.
Qed.

Lemma logErrors_frame (lg : list LogEntry) (s : App) :
  timers (fold_left (fun s e => logError e s) lg s) = timers s
  /\ timeouts (fold_left (fun s e => logError e s) lg s) = timeouts s
  /\ saveCalls (fold_left (fun s e => logError e s) lg s) = saveCalls s
  /\ reports (fold_left (fun s e => logError e s) lg s) = reports s
  /\ activeReportId (fold_left (fun s e => logError e s) lg s) = activeReportId s
  /\ inflight (fold_left (fun s e => logError e s) lg s) = inflight s.
Proof.
  revert s. induction lg as [|e lg IH]; intros s; [repeat split|].
  cbn [fold_left]. destruct (IH (logError e s)) as (H1 & H2 & H3 & H4 & H5 & H6).
  rewrite H1, H2, H3, H4, H5, H6. repeat split.
Qed.

Lemma saveSettled_frame (o : Promise Report) (s : App) :
  timers (saveSettled o s) = timers s
  /\ timeouts (saveSettled o s) = timeouts s
  /\ saveCalls (saveSettled o s) = saveCalls s
  /\ reports (saveSettled o s) = reports s
  /\ activeReportId (saveSettled o s) = activeReportId s
  /\ inflight (saveSettled o s) = inflight s.
Proof. destruct o; repeat split. Qed.

Lemma resumeBack_frame (call : nat) (s : App) :
  timers (resumeBack call s) = timers s
  /\ timeouts (resumeBack call s) = timeouts s
  /\ saveCalls (resumeBack call s) = saveCalls s
  /\ reports (resumeBack call s) = reports s
  /\ inflight (resumeBack call s) = inflight s
  /\ syncStatus (resumeBack call s) = syncStatus s
  /\ toast (resumeBack call s) = toast s
  /\ rendered (resumeBack call s) = rendered s.
Proof. unfold resumeBack. destruct (bool_decide _); repeat split. Qed.

Lemma settle_frame (db : option Firestore) (call : nat) (s : App) :
  timers (settle db call s) = timers s
  /\ timeouts (settle db call s) = timeouts s
  /\ saveCalls (settle db call s) = saveCalls s
  /\ reports (settle db call s) = reports s.
Proof.
  unfold settle. destruct (bool_decide _); [|repeat split].
  destruct (saveCalls s !! call) as [r|]; [|repeat split].
  destruct (saveReport db r) as [lg o].
  destruct (resumeBack_frame call
              (saveSettled o
                 (fold_left (fun s e => logError e s) lg
                    (setInflight
                       (List.filter (fun c => negb (c =? call)%nat) (inflight s)) s))))
    as (-> & -> & -> & -> & _).
  destruct (saveSettled_frame o
              (fold_left (fun s e => logError e s) lg
                 (setInflight (List.filter (fun c => negb (c =? call)%nat) (inflight s)) s)))
    as (H1 & H2 & H3 & H4 & H5 & _).
  destruct (logErrors_frame lg
              (setInflight (List.filter (fun c => negb (c =? call)%nat) (inflight s)) s))
    as (G1 & G2 & G3 & G4 & G5 & _).
  rewrite H1, H2, H3, H4, G1, G2, G3, G4. repeat split.
Qed.

Lemma fire_frame (tm : Timer) (s : App) :
  (forall x, In x (timers (fire tm s)) -> In x (timers s))
  /\ timeouts (fire tm s) = timeouts s
  /\ reports (fire tm s) = reports s
  /\ activeReportId (fire tm s) = activeReportId s.
Proof.
  unfold fire.
  destruct (rerender_frame
              (saveToDb (timer_seen tm) (timer_arg tm)
                 (setNow (Nat.max (now (clearTimeout (timer_id tm) s)) (timer_due tm))
                    (clearTimeout (timer_id tm) s))))
    as (R1 & R2 & _ & _ & _ & R3 & R4 & _).
  destruct (saveToDb_timers (timer_seen tm) (timer_arg tm)
              (setNow (Nat.max (now (clearTimeout (timer_id tm) s)) (timer_due tm))
                 (clearTimeout (timer_id tm) s)))
    as (S1 & S2 & S3 & S4 & _).
  rewrite R1, R2, R3, R4, S1, S2, S3, S4. repeat split.
  intros x Hx. now apply (clearTimeout_incl (timer_id tm) s x) in Hx.
Qed.

Lemma fire_calls (tm : Timer) (s : App) :
  saveCalls (fire tm s)
  = if bool_decide (timer_seen tm = saving) then saveCalls s
    else saveCalls s ++ [timer_arg tm].
Proof.
  unfold fire.
  destruct (rerender_frame
              (saveToDb (timer_seen tm) (timer_arg tm)
                 (setNow (Nat.max (now (clearTimeout (timer_id tm) s)) (timer_due tm))
                    (clearTimeout (timer_id tm) s))))
    as (_ & _ & R & _).
  rewrite R, saveToDb_calls. reflexivity.
Qed.

Lemma timersKnown_fire (tm : Timer) (s : App) : timersKnown s -> timersKnown (fire tm s).
Proof.
  destruct (fire_frame tm s) as (Hi & Ht & _).
  now apply timersKnown_ext.
Qed.

Lemma fireAll_frame (due : list Timer) :
  forall s : App,
    (forall x, In x (timers (fireAll due s)) -> In x (timers s))
    /\ timeouts (fireAll due s) = timeouts s
    /\ reports (fireAll due s) = reports s
    /\ activeReportId (fireAll due s) = activeReportId s
    /\ exists extra,
         saveCalls (fireAll due s) = saveCalls s ++ extra
         /\ Forall (fun r => exists tm, In tm due /\ timer_arg tm = r) extra.
Proof.
  induction due as [|tm due IH]; intros s; cbn [fireAll].
  - repeat split; try tauto. exists []. now rewrite app_nil_r.
  - destruct (IH (fire tm s)) as (I1 & I2 & I3 & I4 & extra & I5 & I6).
    destruct (fire_frame tm s) as (F1 & F2 & F3 & F4).
    rewrite I2, I3, I4, F2, F3, F4. repeat split.
    + intros x Hx. apply F1, I1, Hx.
    + rewrite I5, fire_calls.
      assert (Hweak : Forall (fun r => exists tm', In tm' (tm :: due)
                                                   /\ timer_arg tm' = r) extra).
      { eapply Forall_impl; [exact I6|]. cbn. intros r (tm' & Hin & Harg).
        exists tm'. split; [now right|exact Harg]. }
      destruct (bool_decide (timer_seen tm = saving)).
      * exists extra. split; [reflexivity|exact Hweak].
      * exists (timer_arg tm :: extra). rewrite <- app_assoc. split; [reflexivity|].
        constructor; [|exact Hweak]. exists tm. split; [now left|reflexivity].
Qed.

Lemma timersKnown_fireAll (due : list Timer) (s : App) :
  timersKnown s -> timersKnown (fireAll due s).
Proof.
  destruct (fireAll_frame due s) as (Hi & Ht & _).
  now apply timersKnown_ext.
Qed.

Lemma advance_frame (t : nat) (s : App) :
  (forall x, In x (timers (advance t s)) -> In x (timers s))
  /\ timeouts (advance t s) = timeouts s
  /\ reports (advance t s) = reports s
  /\ activeReportId (advance t s) = activeReportId s
  /\ exists extra,
       saveCalls (advance t s) = saveCalls s ++ extra
       /\ Forall (fun r => exists tm, In tm (timers s) /\ timer_arg tm = r) extra.
Proof.
  unfold advance. cbn.
  destruct (fireAll_frame (List.filter (isDue t) (timers s)) s)
    as (I1 & I2 & I3 & I4 & extra & I5 & I6).
  repeat split; try assumption.
  exists extra. split; [exact I5|].
  eapply Forall_impl; [exact I6|]. cbn. intros r (tm & Hin & Harg).
  exists tm. split; [|exact Harg]. apply filter_In in Hin. tauto.
Qed.

Lemma advance_idle (t : nat) (s : App) :
  timers s = [] -> advance t s = setNow (Nat.max (now s) t) s.
Proof. intros H. unfold advance. now rewrite H. Qed.

Lemma timersKnown_advance (t : nat) (s : App) : timersKnown s -> timersKnown (advance t s).
Proof.
  destruct (advance_frame t s) as (Hi & Ht & _).
  now apply timersKnown_ext.
Qed.

Lemma timersKnown_settle (db : option Firestore) (call : nat) (s : App) :
  timersKnown s -> timersKnown (settle db call s).
Proof.
  destruct (settle_frame db call s) as (Ht & Ho & _).
  apply timersKnown_ext; [now rewrite Ht|exact Ho].
Qed.

Lemma selectReport_frame (id : JsString) (s : App) :
  timers (selectReport id s) = timers s
  /\ timeouts (selectReport id s) = timeouts s
  /\ saveCalls (selectReport id s) = saveCalls s
  /\ reports (selectReport id s) = reports s
  /\ inflight (selectReport id s) = inflight s
  /\ syncStatus (selectReport id s) = syncStatus s
  /\ toast (selectReport id s) = toast s
  /\ rendered (selectReport id s) = rendered s.
Proof. unfold selectReport. destruct (editorOpen s); repeat split. Qed.

Lemma timersKnown_select (id : JsString) (s : App) :
  timersKnown s -> timersKnown (selectReport id s).
Proof.
  destruct (selectReport_frame id s) as (Ht & Ho & _).
  apply timersKnown_ext; [now rewrite Ht|exact Ho].
Qed.

Lemma timersKnown_step (s : App) (e : Event) : timersKnown s -> timersKnown (step s e).
Proof.
  intros Hk. unfold step. apply timersKnown_rerender.
  pose proof (timersKnown_advance (eventTime e) s Hk) as Ha.
  destruct e; cbn [handle eventTime] in *.
  - now apply timersKnown_updateReport.
  - now apply timersKnown_back.
  - now apply timersKnown_select.
  - now apply timersKnown_settle.
  - exact Ha.
Qed.

Lemma timersKnown_run (es : list Event) :
  forall s : App, timersKnown s -> timersKnown (run s es).
Proof.
  induction es as [|e es IH]; intros s Hk; [exact Hk|].
  cbn. apply IH, timersKnown_step, Hk.
Qed.

Lemma timersKnown_initial (l : list Report) (a : option JsString) :
  timersKnown (initial l a).
Proof. intros tm []. Qed.

(** Between events the callbacks have captured the current status. *)
Lemma step_status (s : App) (e : Event) :
  cb_status (rendered (step s e)) = syncStatus (step s e).
Proof.
  unfold step. rewrite rerender_status.
  now destruct (rerender_frame (handle e (advance (eventTime e) s))) as (_ & _ & _ & -> & _).
Qed.

Lemma run_status (es : list Event) :
  forall s : App,
    cb_status (rendered s) = syncStatus s ->
    cb_status (rendered (run s es)) = syncStatus (run s es).
Proof.
  induction es as [|e es IH]; intros s Hs; [exact Hs|].
  cbn. apply IH, step_status.
Qed.

(** ** Immediate mutations *)

(** C2 (as amended).  In every state the application can reach, an
    [updateReport] with the immediate flag clears the pending timer of the
    debounce instance it was created with and arms none; it issues its own
    [saveReport] call carrying the mutation when the status its [saveToDb]
    captured is not ['saving'], and issues no call when that status is
    ['saving'], that is, while a save is in flight. *)
Theorem immediate_update_flushes (l : list Report) (a : option JsString)
    (es : list Event) (cb : Callbacks) (r : Report) :
  (forall tm, In tm (timers (updateReport cb r (Some true) (run (initial l a) es))) ->
              timer_owner tm <> cb_debounced cb
              /\ In tm (timers (run (initial l a) es)))
  /\ (cb_status cb <> saving ->
      saveCalls (updateReport cb r (Some true) (run (initial l a) es))
      = saveCalls (run (initial l a) es) ++ [r]
      /\ syncStatus (updateReport cb r (Some true) (run (initial l a) es)) = saving)
  /\ (cb_status cb = saving ->
      saveCalls (updateReport cb r (Some true) (run (initial l a) es))
      = saveCalls (run (initial l a) es)
      /\ syncStatus (updateReport cb r (Some true) (run (initial l a) es)) = unsaved).
Proof.
  pose proof (timersKnown_run es _ (timersKnown_initial l a)) as Hk.
  set (s := run (initial l a) es) in *.
  unfold updateReport. cbn [isImmediate].
  set (s1 := setSyncStatus unsaved (setReports _ s)).
  assert (Hk1 : timersKnown s1) by exact Hk.
  split; [|split].
  - intros tm Hin.
    destruct (saveToDb_timers (cb_status cb) r (cancel (cb_debounced cb) s1))
      as (Ht & _).
    rewrite Ht in Hin. split.
    + now apply (cancel_clears (cb_debounced cb) s1 tm Hk1).
    + now apply (cancel_incl (cb_debounced cb) s1 tm).
  - intros Hns. unfold saveToDb.
    rewrite bool_decide_eq_false_2 by exact Hns. cbn.
    destruct (cancel_frame (cb_debounced cb) s1) as (_ & Hc & _).
    rewrite Hc. now split.
  - intros Hs. unfold saveToDb.
    rewrite bool_decide_eq_true_2 by exact Hs.
    destruct (cancel_frame (cb_debounced cb) s1) as (_ & Hc & Hst & _).
    rewrite Hc, Hst. now split.
Qed.

Lemma immediate_update_flushes_witness :
  saveCalls (updateReport {| cb_status := unsaved; cb_debounced := 1 |}
               (demoDraft "ab") (Some true)
               (run (initial [demoDraft ""] (Some (js "report-1")))
                  [EvEdit 0 (demoDraft "a") None]))
  = [demoDraft "ab"].
Proof.
  refine (proj1 (proj1 (proj2 (immediate_update_flushes [demoDraft ""]
            (Some (js "report-1")) [EvEdit 0 (demoDraft "a") None]
            {| cb_status := unsaved; cb_debounced := 1 |} (demoDraft "ab"))) _)).
  discriminate.
Defined.

(** C2 (as stated) fails: a point is added (immediate) and, while that save
    is in flight, removed again (immediate); the second mutation finds the
    status ['saving'] and no [saveReport] call is issued for it. *)
Lemma immediate_update_skipped_while_saving :
  syncStatus (run (initial [demoReport "u1" []] (Some (js "report-1")))
                [EvEdit 0 (demoReport "u1" [demoPoint "point-1" "" []]) (Some true)])
  = saving
  /\ saveCalls (run (initial [demoReport "u1" []] (Some (js "report-1")))
                  [EvEdit 0 (demoReport "u1" [demoPoint "point-1" "" []]) (Some true);
                   EvEdit 10 (demoReport "u1" []) (Some true)])
     = [demoReport "u1" [demoPoint "point-1" "" []]].
Proof. split; vm_compute; reflexivity. Qed.

(** ** Failed flushes *)

Lemma step_passive (s : App) (e : Event) :
  userEvent e = false ->
  (forall x, In x (timers (step s e)) -> In x (timers s))
  /\ exists extra,
       saveCalls (step s e) = saveCalls s ++ extra
       /\ Forall (fun r => exists tm, In tm (timers s) /\ timer_arg tm = r) extra.
Proof.
  intros Hp. unfold step.
  destruct (rerender_frame (handle e (advance (eventTime e) s)))
    as (R1 & _ & R2 & _).
  rewrite R1, R2.
  destruct (advance_frame (eventTime e) s) as (A1 & _ & _ & _ & extra & A2 & A3).
  destruct e; try discriminate; cbn [handle eventTime] in *.
  - destruct (settle_frame db call (advance t s)) as (S1 & _ & S2 & _).
    rewrite S1, S2. split; [exact A1|]. now exists extra.
  - split; [exact A1|]. now exists extra.
Qed.

Lemma run_passive (es : list Event) :
  forall s : App,
    Forall (fun e => userEvent e = false) es ->
    (forall x, In x (timers (run s es)) -> In x (timers s))
    /\ exists extra,
         saveCalls (run s es) = saveCalls s ++ extra
         /\ Forall (fun r => exists tm, In tm (timers s) /\ timer_arg tm = r) extra.
Proof.
  induction es as [|e es IH]; intros s Hall.
  - split; [tauto|]. exists []. cbn. now rewrite app_nil_r.
  - apply Forall_cons in Hall. destruct Hall as [He Hes].
    destruct (step_passive s e He) as (T1 & x1 & C1 & F1).
    destruct (IH (step s e) Hes) as (T2 & x2 & C2 & F2).
    change (run s (e :: es)) with (run (step s e) es). split.
    + intros x Hx. apply T1, T2, Hx.
    + exists (x1 ++ x2). rewrite C2, C1, <- app_assoc. split; [reflexivity|].
      apply Forall_app. split; [exact F1|].
      eapply Forall_impl; [exact F2|]. cbn. intros r (tm & Hin & Harg).
      exists tm. split; [apply T1, Hin|exact Harg].
Qed.

Lemma settle_rejected (db : option Firestore) (call : nat) (s : App)
    (report : Report) (e : JsError) :
  In call (inflight s) ->
  saveCalls s !! call = Some report ->
  snd (saveReport db report) = Rejected e ->
  syncStatus (settle db call s) = unsaved
  /\ toast (settle db call s)
     = {| show := true; message := js "Failed to save changes.";
          toastType := error |}
  /\ inflight (settle db call s)
     = List.filter (fun c => negb (c =? call)%nat) (inflight s).
Proof.
  intros Hin Hcall Hrej. unfold settle.
  rewrite bool_decide_eq_true_2 by (now apply list_elem_of_In).
  rewrite Hcall. destruct (saveReport db report) as [lg o]. cbn [snd] in Hrej.
  subst o.
  match goal with
  | |- context [resumeBack call ?x] =>
      destruct (resumeBack_frame call x) as (_ & _ & _ & _ & -> & -> & -> & _)
  end.
  cbn [saveSettled].
  destruct (logErrors_frame lg
              (setInflight (List.filter (fun c => negb (c =? call)%nat) (inflight s)) s))
    as (_ & _ & _ & _ & _ & G).
  cbn. rewrite G. repeat split.
Qed.

(** Leaving the editor while the status is ['unsaved'] flushes the open
    report.  The handler knows no owner: it does so for any report. *)
Lemma back_flushes_unsaved (s : App) (r : Report) :
  cb_status (rendered s) = unsaved ->
  findReport (activeReportId s) (reports s) = Some r ->
  saveCalls (handleBackFromEditor s) = saveCalls s ++ [r].
Proof.
  intros Hcb Hfind. unfold handleBackFromEditor. rewrite Hfind, Hcb.
  rewrite bool_decide_eq_true_2 by reflexivity.
  unfold setClosing. cbn [saveCalls].
  rewrite saveToDb_calls, bool_decide_eq_false_2 by discriminate.
  now destruct (cancel_frame (cb_debounced (rendered s)) s) as (_ & -> & _).
Qed.

(** X24.  What the failure of a flush does by itself.  When the
    [saveReport] call of a flush rejects, the status becomes ['unsaved'] and the error toast is
    shown; the failure arms no timer, issues no call and leaves no call in
    flight for it.  Afterwards, as long as the user neither edits nor
    navigates, the only [saveReport] calls are those of debounce timers that
    earlier edits had armed; with none pending, leaving the editor and an
    immediate edit each issue the next call. *)
Theorem failed_flush_schedules_nothing (db : option Firestore) (call : nat) (s : App)
    (report : Report) (e : JsError) :
  In call (inflight s) ->
  saveCalls s !! call = Some report ->
  snd (saveReport db report) = Rejected e ->
  syncStatus (settle db call s) = unsaved
  /\ toast (settle db call s)
     = {| show := true; message := js "Failed to save changes.";
          toastType := error |}
  /\ timers (settle db call s) = timers s
  /\ saveCalls (settle db call s) = saveCalls s
  /\ ~ In call (inflight (settle db call s))
  /\ (forall es : list Event,
        Forall (fun ev => userEvent ev = false) es ->
        exists extra,
          saveCalls (run (rerender (settle db call s)) es) = saveCalls s ++ extra
          /\ Forall (fun r => exists tm, In tm (timers s) /\ timer_arg tm = r) extra)
  /\ (timers s = [] ->
      forall t : nat,
        (forall r,
           findReport (activeReportId (settle db call s)) (reports s) = Some r ->
           saveCalls (step (rerender (settle db call s)) (EvBack t))
           = saveCalls s ++ [r])
        /\ (forall r,
              saveCalls (step (rerender (settle db call s)) (EvEdit t r (Some true)))
              = saveCalls s ++ [r])).
Proof.
  intros Hin Hcall Hrej.
  destruct (settle_rejected db call s report e Hin Hcall Hrej) as (Hst & Hto & Hfl).
  destruct (settle_frame db call s) as (Ht & _ & Hc & Hr).
  set (s' := settle db call s) in *.
  destruct (rerender_frame s') as (R1 & _ & R2 & R3 & _ & R4 & R5 & _).
  pose proof (rerender_status s') as Hcb. rewrite Hst in Hcb.
  split; [exact Hst|]. split; [exact Hto|]. split; [exact Ht|].
  split; [exact Hc|]. split.
  { rewrite Hfl, filter_In, negb_true_iff, Nat.eqb_neq. tauto. }
  split.
  - intros es Hes.
    destruct (run_passive es (rerender s') Hes) as (_ & extra & C & F).
    exists extra. rewrite C, R2, Hc. split; [reflexivity|].
    now rewrite R1, Ht in F.
  - intros Hidle t.
    assert (Hidle' : timers (rerender s') = []) by now rewrite R1, Ht.
    split.
    + intros r Hfind. unfold step. cbn [eventTime handle].
      rewrite (advance_idle t _ Hidle').
      destruct (rerender_frame
                  (handleBackFromEditor
                     (setNow (Nat.max (now (rerender s')) t) (rerender s'))))
        as (_ & _ & -> & _).
      apply eq_trans
        with (saveCalls (setNow (Nat.max (now (rerender s')) t) (rerender s')) ++ [r]).
      * apply back_flushes_unsaved; [exact Hcb|].
        cbn [activeReportId reports setNow]. now rewrite R5, R4, Hr.
      * cbn [setNow saveCalls]. now rewrite R2, Hc.
    + intros r. unfold step. cbn [eventTime handle].
      rewrite (advance_idle t _ Hidle').
      destruct (rerender_frame
                  (updateReport
                     (rendered (setNow (Nat.max (now (rerender s')) t) (rerender s')))
                     r (Some true)
                     (setNow (Nat.max (now (rerender s')) t) (rerender s'))))
        as (_ & _ & -> & _).
      unfold updateReport. cbn [isImmediate rendered setNow].
      rewrite saveToDb_calls, Hcb, bool_decide_eq_false_2 by discriminate.
      match goal with
      | |- saveCalls (cancel ?i ?x) ++ _ = _ =>
          destruct (cancel_frame i x) as (_ & -> & _)
      end.
      unfold setSyncStatus, setReports, setNow. cbn [saveCalls]. now rewrite R2, Hc.
Qed.

Lemma failed_flush_schedules_nothing_witness :
  syncStatus (settle (Some refusingStore) 0 demoInFlight) = unsaved
  /\ saveCalls (step (rerender (settle (Some refusingStore) 0 demoInFlight))
                  (EvBack 100))
     = [demoDraft "a"; demoDraft "a"].
Proof.
  pose proof (failed_flush_schedules_nothing (Some refusingStore) 0 demoInFlight
                (demoDraft "a") (js "permission-denied")
                (or_introl eq_refl) eq_refl eq_refl)
    as (Hst & _ & _ & _ & _ & _ & Hnext).
  split; [exact Hst|].
  exact (proj1 (Hnext eq_refl 100) (demoDraft "a") eq_refl).
Defined.

(** C3 at a failing input.  A report is open and saved.  Its text is edited
    at 0 ms, debounced; at 200 ms a point is added, an immediate mutation,
    and the [saveReport] call this issues is refused at 300 ms.  The status
    becomes ['unsaved'] and the error toast is shown, as the claim says.
    But the timer of the first edit is still pending: it was armed through
    the debounce instance of the first render, and the [cancel] of the
    immediate mutation reached the instance of the second render only.  At
    1500 ms, with no edit and no navigation in between, the timer fires and
    issues a [saveReport] call, with the report as it was before the
    point was added. *)
Theorem failed_flush_is_followed_by_stale_save :
  syncStatus demoRefusedFlush = unsaved
  /\ toast demoRefusedFlush
     = {| show := true; message := js "Failed to save changes.";
          toastType := error |}
  /\ saveCalls demoRefusedFlush = [demoDraftPlus "a" 200]
  /\ inflight demoRefusedFlush = []
  /\ List.map (fun tm => (timer_owner tm, timer_arg tm, timer_due tm))
       (timers demoRefusedFlush)
     = [(0, demoDraft "a", 1500)]
  /\ cb_debounced (rendered demoRefusedFlush) = 3
  /\ saveCalls (run demoRefusedFlush [EvWait 1500])
     = [demoDraftPlus "a" 200; demoDraft "a"]
  /\ syncStatus (run demoRefusedFlush [EvWait 1500]) = saving.
Proof. repeat split; vm_compute; reflexivity. Qed.

(** ** Debounced saves *)

Lemma debounced_fields (inst : nat) (seen : SyncStatus) (r : Report) (s : App) :
  timers (debounced inst seen r s)
  = timers (cancel inst s) ++ [mkTimer (nextTimer s) inst seen r (now s + waitFor)]
  /\ timeouts (debounced inst seen r s) = <[inst := nextTimer s]> (timeouts s)
  /\ syncStatus (debounced inst seen r s) = syncStatus s
  /\ rendered (debounced inst seen r s) = rendered s
  /\ saveCalls (debounced inst seen r s) = saveCalls s
  /\ now (debounced inst seen r s) = now s.
Proof.
  unfold debounced, cancel. destruct (timeouts s !! inst); repeat split.
Qed.

Lemma rerender_same (s : App) :
  syncStatus s = cb_status (rendered s) -> rerender s = s.
Proof. intros H. unfold rerender. now rewrite bool_decide_eq_true_2. Qed.

Lemma debounced_armed (s : App) (r : Report) :
  timers (cancel (cb_debounced (rendered s)) s) = [] ->
  syncStatus s = unsaved -> cb_status (rendered s) = unsaved ->
  armed (rerender (debounced (cb_debounced (rendered s)) unsaved r s)) r
  /\ saveCalls (rerender (debounced (cb_debounced (rendered s)) unsaved r s))
     = saveCalls s
  /\ now (rerender (debounced (cb_debounced (rendered s)) unsaved r s)) = now s.
Proof.
  intros Hc Hs Hcb.
  destruct (debounced_fields (cb_debounced (rendered s)) unsaved r s)
    as (D1 & D2 & D3 & D4 & D5 & D6).
  rewrite rerender_same by (rewrite D3, D4; congruence).
  split; [|split; assumption].
  exists (mkTimer (nextTimer s) (cb_debounced (rendered s)) unsaved r
            (now s + waitFor)).
  rewrite D1, D2, D3, D4, D6, Hc.
  split; [reflexivity|]. split; [apply lookup_insert_eq|].
  repeat split; assumption.
Qed.

Lemma edit_arms (s : App) (t : nat) (r : Report) :
  timers s = [] -> syncStatus s = unsaved -> cb_status (rendered s) = unsaved ->
  now s <= t ->
  armed (step s (EvEdit t r None)) r
  /\ saveCalls (step s (EvEdit t r None)) = saveCalls s
  /\ now (step s (EvEdit t r None)) = t.
Proof.
  intros Ht Hs Hcb Hnow. unfold step. cbn [eventTime handle].
  rewrite (advance_idle t s Ht). unfold updateReport. cbn [isImmediate].
  replace (Nat.max (now s) t) with t by lia.
  set (s1 := setSyncStatus unsaved (setReports _ (setNow t s))).
  change (rendered (setNow t s)) with (rendered s1).
  assert (Hcb1 : cb_status (rendered s1) = unsaved) by exact Hcb.
  rewrite Hcb1.
  assert (Hc : timers (cancel (cb_debounced (rendered s1)) s1) = []).
  { unfold cancel. destruct (timeouts s1 !! _); [|exact Ht].
    unfold clearTimeout. change (timers s1) with (timers s). now rewrite Ht. }
  exact (debounced_armed s1 r Hc eq_refl Hcb1).
Qed.

Lemma edit_rearms (s : App) (t : nat) (r0 r : Report) :
  armed s r0 -> now s <= t < now s + waitFor ->
  armed (step s (EvEdit t r None)) r
  /\ saveCalls (step s (EvEdit t r None)) = saveCalls s
  /\ now (step s (EvEdit t r None)) = t.
Proof.
  intros (tm & Ht & Hto & Hown & Hseen & Harg & Hdue & Hs & Hcb) Hnow.
  unfold step. cbn [eventTime handle].
  assert (Hadv : advance t s = setNow t s).
  { unfold advance. rewrite Ht. cbn [List.filter]. unfold isDue.
    assert ((timer_due tm <=? t)%nat = false) as -> by (apply Nat.leb_gt; lia).
    cbn [fireAll]. f_equal. lia. }
  rewrite Hadv. unfold updateReport. cbn [isImmediate].
  set (s1 := setSyncStatus unsaved (setReports _ (setNow t s))).
  change (rendered (setNow t s)) with (rendered s1).
  assert (Hcb1 : cb_status (rendered s1) = unsaved) by exact Hcb.
  rewrite Hcb1.
  assert (Hc : timers (cancel (cb_debounced (rendered s1)) s1) = []).
  { unfold cancel. change (timeouts s1) with (timeouts s).
    change (rendered s1) with (rendered s). rewrite Hto.
    unfold clearTimeout. change (timers s1) with (timers s). rewrite Ht.
    cbn [timers setTimers List.filter]. now rewrite Nat.eqb_refl. }
  exact (debounced_armed s1 r Hc eq_refl Hcb1).
Qed.

Lemma wait_fires (s : App) (T : nat) (r : Report) :
  armed s r -> now s + waitFor <= T ->
  saveCalls (step s (EvWait T)) = saveCalls s ++ [r]
  /\ timers (step s (EvWait T)) = [].
Proof.
  intros (tm & Ht & Hto & Hown & Hseen & Harg & Hdue & Hs & Hcb) HT.
  unfold step. cbn [eventTime handle].
  destruct (rerender_frame (advance T s)) as (-> & _ & -> & _).
  unfold advance. rewrite Ht. cbn [List.filter]. unfold isDue.
  assert ((timer_due tm <=? T)%nat = true) as -> by (apply Nat.leb_le; lia).
  cbn [fireAll]. unfold setNow at 1 2. cbn [saveCalls timers].
  rewrite fire_calls, Hseen, Harg.
  rewrite bool_decide_eq_false_2 by discriminate. split; [reflexivity|].
  unfold fire.
  match goal with
  | |- timers (rerender ?x) = _ => destruct (rerender_frame x) as (-> & _)
  end.
  match goal with
  | |- timers (saveToDb ?a ?b ?x) = _ => destruct (saveToDb_timers a b x) as (-> & _)
  end.
  unfold setNow, clearTimeout. cbn. rewrite Ht. cbn. now rewrite Nat.eqb_refl.
Qed.

Lemma burst_rearms (edits : list (nat * Report)) :
  forall (s : App) (r0 : Report),
    armed s r0 -> withinWindow (now s) edits ->
    exists r,
      armed (run s (burst edits)) r
      /\ saveCalls (run s (burst edits)) = saveCalls s
      /\ last (r0 :: List.map snd edits) = Some r.
Proof.
  induction edits as [|[t r1] rest IH]; intros s r0 Ha Hw.
  - exists r0. now repeat split.
  - destruct Hw as (H1 & H2 & Hw).
    destruct (edit_rearms s t r0 r1 Ha (conj H1 H2)) as (Ha' & Hc & Hn).
    rewrite <- Hn in Hw.
    destruct (IH (step s (EvEdit t r1 None)) r1 Ha' Hw) as (r & Har & Hcr & Hl).
    exists r.
    change (run s (burst ((t, r1) :: rest)))
      with (run (step s (EvEdit t r1 None)) (burst rest)).
    split; [exact Har|]. split; [now rewrite Hcr|].
    cbn [List.map snd]. now rewrite last_cons_cons.
Qed.

(** The debounce does coalesce a burst when all of it goes through one
    debounce instance: starting where the status already is ['unsaved'] and
    no timer is pending, a burst of text edits followed by a quiet
    [waitFor] issues exactly one [saveReport] call, with the last report. *)
Lemma debounce_coalesces_when_unsaved (s : App) (t : nat) (r : Report)
    (rest : list (nat * Report)) (final : Report) (T : nat) :
  timers s = [] -> syncStatus s = unsaved -> cb_status (rendered s) = unsaved ->
  now s <= t -> withinWindow t rest ->
  last (r :: List.map snd rest) = Some final ->
  now (run s (burst ((t, r) :: rest))) + waitFor <= T ->
  saveCalls (run s (burst ((t, r) :: rest) ++ [EvWait T])) = saveCalls s ++ [final].
Proof.
  intros Ht Hs Hcb Hnow Hw Hlast HT.
  destruct (edit_arms s t r Ht Hs Hcb Hnow) as (Ha & Hc & Hn).
  rewrite <- Hn in Hw.
  destruct (burst_rearms rest _ r Ha Hw) as (r' & Ha' & Hc' & Hl').
  rewrite Hlast in Hl'. injection Hl' as <-.
  change (run s (burst ((t, r) :: rest)))
    with (run (step s (EvEdit t r None)) (burst rest)) in HT.
  destruct (wait_fires _ T final Ha' HT) as (Hw1 & _).
  unfold run at 1. rewrite fold_left_app.
  change (fold_left step (burst ((t, r) :: rest)) s)
    with (run (step s (EvEdit t r None)) (burst rest)).
  cbn [fold_left]. now rewrite Hw1, Hc', Hc.
Qed.

(** From the state after loading, with the status ['saved'], the same holds
    for any two debounced edits less than [waitFor] apart: the states after
    the first and after the second edit, and the calls once both timers
    have fired. *)
Lemma first_edit_state (l : list Report) (a : option JsString) (t1 : nat)
    (r1 : Report) :
  step (initial l a) (EvEdit t1 r1 None)
  = mkApp t1 (replaceReport l r1) a unsaved (toast (initial l a))
      {| cb_status := unsaved; cb_debounced := 1 |}
      (<[0%nat := 0%nat]> ∅) [mkTimer 0 0 saved r1 (t1 + waitFor)] 1 2 [] [] [] [].
Proof. reflexivity. Qed.

Lemma second_edit_state (l : list Report) (a : option JsString) (t1 t2 : nat)
    (r1 r2 : Report) :
  t1 < t2 < t1 + waitFor ->
  step (step (initial l a) (EvEdit t1 r1 None)) (EvEdit t2 r2 None)
  = mkApp t2 (replaceReport (replaceReport l r1) r2) a unsaved
      (toast (initial l a))
      {| cb_status := unsaved; cb_debounced := 1 |}
      (<[1%nat := 1%nat]> (<[0%nat := 0%nat]> ∅))
      [mkTimer 0 0 saved r1 (t1 + waitFor); mkTimer 1 1 unsaved r2 (t2 + waitFor)]
      2 2 [] [] [] [].
Proof.
  intros Ht. rewrite first_edit_state. unfold step, advance.
  cbn [eventTime timers List.filter]. unfold isDue. cbn [timer_due].
  assert ((t1 + waitFor <=? t2)%nat = false) as -> by (apply Nat.leb_gt; lia).
  cbn [fireAll]. unfold setNow at 1. cbn [now].
  replace (Nat.max t1 t2) with t2 by lia.
  reflexivity.
Qed.

Lemma stale_timer_fires (l : list Report) (a : option JsString) (t1 t2 T : nat)
    (r1 r2 : Report) :
  t1 < t2 < t1 + waitFor -> t2 + waitFor <= T ->
  saveCalls (run (initial l a) [EvEdit t1 r1 None; EvEdit t2 r2 None; EvWait T])
  = [r1; r2].
Proof.
  intros Ht HT. unfold run. cbn [fold_left].
  rewrite (second_edit_state l a t1 t2 r1 r2 Ht).
  unfold step. cbn [eventTime handle].
  match goal with
  | |- saveCalls (rerender ?x) = _ => destruct (rerender_frame x) as (_ & _ & -> & _)
  end.
  unfold advance. cbn [timers List.filter]. unfold isDue. cbn [timer_due].
  assert ((t1 + waitFor <=? T)%nat = true) as -> by (apply Nat.leb_le; lia).
  assert ((t2 + waitFor <=? T)%nat = true) as -> by (apply Nat.leb_le; lia).
  cbn [fireAll]. unfold setNow at 1. cbn [saveCalls].
  rewrite !fire_calls. reflexivity.
Qed.

(** C1 at two failing inputs.  A report is open and saved.

    (a) Its point's text is edited at 0 ms and again at 500 ms, both edits
    debounced.  The first edit changes the status, so the next render makes
    a new debounce instance; the second edit cannot clear the first one's
    timer.  Both timers fire: two [saveReport] calls are issued, the first
    with the text of the first edit.

    (b) The text is edited at 0, 1000 and 2000 ms, and the save the first
    timer starts at 1500 ms is still in flight at 2000 ms.  The third edit
    arms its timer through the callbacks of the render that saw ['saving'];
    when that timer fires, [saveToDb] returns at once.  Two calls are
    issued, none carries the final text, and the status ends ['saved']. *)
Theorem debounce_issues_two_calls :
  saveCalls (run (initial [demoDraft ""] (Some (js "report-1")))
               [EvEdit 0 (demoDraft "a") None; EvEdit 500 (demoDraft "ab") None;
                EvWait 5000])
  = [demoDraft "a"; demoDraft "ab"]
  /\ List.map timer_owner
       (timers (run (initial [demoDraft ""] (Some (js "report-1")))
                  [EvEdit 0 (demoDraft "a") None; EvEdit 500 (demoDraft "ab") None]))
     = [0; 1]%nat
  /\ saveCalls (run (initial [demoDraft ""] (Some (js "report-1")))
                  [EvEdit 0 (demoDraft "a") None; EvEdit 1000 (demoDraft "ab") None;
                   EvEdit 2000 (demoDraft "abc") None;
                   EvSettle 2600 0 (Some acceptingStore);
                   EvSettle 2700 1 (Some acceptingStore); EvWait 4000])
     = [demoDraft "a"; demoDraft "ab"]
  /\ syncStatus (run (initial [demoDraft ""] (Some (js "report-1")))
                   [EvEdit 0 (demoDraft "a") None; EvEdit 1000 (demoDraft "ab") None;
                    EvEdit 2000 (demoDraft "abc") None;
                    EvSettle 2600 0 (Some acceptingStore);
                    EvSettle 2700 1 (Some acceptingStore); EvWait 4000])
     = saved.
Proof. repeat split; vm_compute; reflexivity. Qed.

(* ===================================================================== *)
(** * Part III: further properties of the sources                         *)
(* ===================================================================== *)

(** ** Configuration and the screens *)

Lemma logErrors_frame' (lg : list LogEntry) (s : App) :
  reports (logErrors lg s) = reports s
  /\ activeReportId (logErrors lg s) = activeReportId s
  /\ saveCalls (logErrors lg s) = saveCalls s
  /\ toast (logErrors lg s) = toast s
  /\ syncStatus (logErrors lg s) = syncStatus s
  /\ timers (logErrors lg s) = timers s.
Proof.
  unfold logErrors. revert s. induction lg as [|e lg IH]; intros s; [repeat split|].
  cbn [fold_left]. destruct (IH (logError e s)) as (H1 & H2 & H3 & H4 & H5 & H6).
  rewrite H1, H2, H3, H4, H5, H6. repeat split.
Qed.

(** X1.  With any configuration value missing or empty, none of the three
    handles exists; the application then shows the "Database Not
    Configured" notice after mounting, loading reports yields the empty
    list without a log entry, and saving and uploading reject. *)
Theorem incomplete_config_disables_everything (config : FirebaseConfig)
    (fs : Firestore) (au : Auth) (st : Storage) (h : Host) (r : Report) (b : Blob) :
  isConfigValid config = false ->
  svc_db (initServices config fs au st) = None
  /\ svc_auth (initServices config fs au st) = None
  /\ svc_storage (initServices config fs au st) = None
  /\ renderContent (mountEffect (svc_auth (initServices config fs au st)) initialShell)
     = DatabaseNotConfigured
  /\ getReports (svc_db (initServices config fs au st)) = ([], Resolved [])
  /\ snd (saveReport (svc_db (initServices config fs au st)) r)
     = Rejected (js "Firestore not initialized")
  /\ (storage h = svc_storage (initServices config fs au st) ->
      uploadImage h b (userId r) (report_id r) = Rejected (js "Storage not initialized")).
Proof.
  intros Hc. unfold initServices. rewrite Hc. cbn.
  repeat split. intros Hs. unfold uploadImage. now rewrite Hs.
Qed.

Lemma incomplete_config_disables_everything_witness :
  renderContent
    (mountEffect (svc_auth (initServices demoConfigNoBucket acceptingStore
                              {| currentUser := None |} demoStorage))
       initialShell)
  = DatabaseNotConfigured.
Proof.
  exact (proj1 (proj2 (proj2 (proj2
    (incomplete_config_disables_everything demoConfigNoBucket acceptingStore
       {| currentUser := None |} demoStorage (demoHost 1 1) (demoDraft "")
       {| blob_type := []; blob_quality := 1; blob_width := 1; blob_height := 1;
          blob_content := [] |} eq_refl))))).
Defined.

Lemma getReports_cases (db : option Firestore) :
  exists lg l, getReports db = (lg, Resolved l) /\ (loadFailed db -> l = []).
Proof.
  unfold getReports, loadFailed. destruct db as [d|].
  - destruct (query_get d) as [docs|e].
    + exists [], docs. split; [reflexivity|]. discriminate.
    + eexists _, []. split; reflexivity.
  - exists [], []. split; reflexivity.
Qed.

(** X2.  Once the handles exist, the screens follow the sign-in state.
    Until the first auth callback the spinner is shown.  A sign-in loads
    the reports, never ending on a loading or error screen: it shows the
    list of whatever [getReports] resolved with (the empty list when the
    load failed), or, when a report was still selected and is among the
    loaded ones, the editor on it; the first sign-in after mounting shows
    the list.  A sign-out shows the login screen and clears the report
    list, but not the selection. *)
Theorem screens_follow_sign_in (au : Auth) (db : option Firestore) (u : User) :
  renderContent (mountEffect (Some au) initialShell) = AuthSpinner
  /\ (exists l,
        snd (getReports db) = Resolved l
        /\ (loadFailed db -> l = [])
        /\ (forall sh,
              isDbInitialized sh = true ->
              renderContent (authStateChanged db (Some u) sh)
              = match activeReportId (shellApp sh),
                      findReport (activeReportId (shellApp sh)) l with
                | Some (_ :: _), Some activeReport => EditorScreen activeReport (uid u)
                | _, _ => ListScreen l (uid u)
                end)
        /\ renderContent (authStateChanged db (Some u)
                            (mountEffect (Some au) initialShell))
           = ListScreen l (uid u))
  /\ (forall sh,
        isDbInitialized sh = true ->
        renderContent (authStateChanged db None sh) = LoginScreen
        /\ reports (shellApp (authStateChanged db None sh)) = []
        /\ activeReportId (shellApp (authStateChanged db None sh))
           = activeReportId (shellApp sh)).
Proof.
  split; [reflexivity|].
  destruct (getReports_cases db) as (lg & l & E & Hfail).
  assert (G : forall sh,
             isDbInitialized sh = true ->
             renderContent (authStateChanged db (Some u) sh)
             = match activeReportId (shellApp sh),
                     findReport (activeReportId (shellApp sh)) l with
               | Some (_ :: _), Some activeReport => EditorScreen activeReport (uid u)
               | _, _ => ListScreen l (uid u)
               end).
  { intros sh Hi. unfold authStateChanged. rewrite E. unfold renderContent.
    cbn [authLoading isDbInitialized user isLoading shellApp]. rewrite Hi.
    cbn [negb]. unfold setReports. cbn [activeReportId reports].
    destruct (logErrors_frame' lg (shellApp sh)) as (_ & Ha & _).
    now rewrite Ha. }
  split.
  - exists l. split; [now rewrite E|]. split.
    + intros Hf. specialize (Hfail Hf). rewrite Hfail in E.
      destruct (getReports_cases db) as (lg' & l' & E' & _). congruence.
    + split; [exact G|]. now rewrite G.
  - intros sh Hi. unfold authStateChanged, renderContent. cbn. now rewrite Hi.
Qed.

Lemma screens_follow_sign_in_witness :
  renderContent (authStateChanged None None
                   (mountEffect (Some {| currentUser := Some demoUser |})
                      initialShell))
  = LoginScreen.
Proof.
  exact (proj1 (proj2 (proj2
    (screens_follow_sign_in {| currentUser := Some demoUser |} None demoUser))
    (mountEffect (Some {| currentUser := Some demoUser |}) initialShell) eq_refl)).
Defined.

(** ** Creating and deleting reports *)

(** X3.  When [saveReport] accepts the new report, [createReport] puts it
    first in the list and opens it: the editor screen shows the new report,
    which has no points and whose owner is the creating viewer, so the
    editor is editable.  When [saveReport] rejects, the list, the open
    report and the toast are what they were and the rejection is passed
    on. *)
Theorem createReport_opens_editor (db : option Firestore) (au : Auth) (cu u : User)
    (dateNow : nat) (isoNow firstCenter : JsString) (sh : Shell) :
  currentUser au = Some cu ->
  user sh = Some u -> authLoading sh = false -> isLoading sh = false ->
  isDbInitialized sh = true ->
  (isResolved (snd (saveReport db
                      (newReportFor cu dateNow isoNow firstCenter (uid u)))) = true ->
   reports (fst (createReport db (Some au) dateNow isoNow firstCenter (uid u)
                   (shellApp sh)))
   = newReportFor cu dateNow isoNow firstCenter (uid u) :: reports (shellApp sh)
   /\ renderContent
        (mkShell (user sh) (authLoading sh) (isLoading sh) (isDbInitialized sh)
           (fst (createReport db (Some au) dateNow isoNow firstCenter (uid u)
                   (shellApp sh))))
      = EditorScreen (newReportFor cu dateNow isoNow firstCenter (uid u)) (uid u)
   /\ isOwner {| localReport := newReportFor cu dateNow isoNow firstCenter (uid u);
                 currentUserId := uid u |} = true
   /\ points (newReportFor cu dateNow isoNow firstCenter (uid u)) = [])
  /\ (isResolved (snd (saveReport db
                         (newReportFor cu dateNow isoNow firstCenter (uid u)))) = false ->
      isResolved (snd (createReport db (Some au) dateNow isoNow firstCenter (uid u)
                         (shellApp sh))) = false
      /\ reports (fst (createReport db (Some au) dateNow isoNow firstCenter (uid u)
                         (shellApp sh))) = reports (shellApp sh)
      /\ activeReportId (fst (createReport db (Some au) dateNow isoNow firstCenter
                                (uid u) (shellApp sh)))
         = activeReportId (shellApp sh)
      /\ toast (fst (createReport db (Some au) dateNow isoNow firstCenter (uid u)
                       (shellApp sh))) = toast (shellApp sh)).
Proof.
  intros Hcu Hu Hal Hil Hdi.
  set (new := newReportFor cu dateNow isoNow firstCenter (uid u)).
  unfold createReport. rewrite Hcu. fold new.
  destruct (saveReport db new) as [lg outcome]. cbn [snd].
  destruct (logErrors_frame' lg (shellApp sh)) as (L1 & L2 & L3 & L4 & _).
  split; intros Hres; destruct outcome as [r|e]; try discriminate; cbn [fst snd].
  - split.
    { unfold showToast, setToast, setActiveReportId, setReports, setSaveCalls.
      cbn [reports]. now rewrite L1. }
    split.
    { unfold renderContent. rewrite Hal, Hdi, Hu, Hil. cbn [negb shellApp].
      unfold showToast, setToast, setActiveReportId, setReports, setSaveCalls.
      cbn [activeReportId reports report_id new newReportFor findReport find].
      cbn [js list_ascii_of_string List.map app].
      rewrite bool_decide_eq_true_2 by reflexivity. reflexivity. }
    split; [|reflexivity].
    unfold isOwner. cbn. now apply bool_decide_eq_true_2.
  - unfold setSaveCalls. cbn [reports activeReportId toast isResolved].
    now rewrite L1, L2, L4.
Qed.

Lemma createReport_opens_editor_witness :
  renderContent
    (mkShell (Some demoUser) false false true
       (fst (createReport (Some acceptingStore) (Some {| currentUser := Some demoUser |})
               7 (js "2024-05-01") (js "North") (js "u1") (initial [] None))))
  = EditorScreen (newReportFor demoUser 7 (js "2024-05-01") (js "North") (js "u1"))
      (js "u1").
Proof.
  exact (proj1 (proj2 (proj1
    (createReport_opens_editor (Some acceptingStore)
       {| currentUser := Some demoUser |} demoUser demoUser 7 (js "2024-05-01")
       (js "North") (demoShell []) eq_refl eq_refl eq_refl eq_refl eq_refl)
    eq_refl))).
Defined.

Lemma filter_reportIds (id : JsString) (l : list Report) :
  reportIds (List.filter (fun r => negb (bool_decide (report_id r = id))) l)
  = List.filter (fun i => negb (bool_decide (i = id))) (reportIds l).
Proof.
  unfold reportIds. induction l as [|x l IH]; [reflexivity|]. simpl.
  destruct (bool_decide (report_id x = id)); simpl; now rewrite IH.
Qed.

Lemma findReport_filtered (id : JsString) (l : list Report) :
  findReport (Some id)
    (List.filter (fun r => negb (bool_decide (report_id r = id))) l) = None.
Proof.
  cbn [findReport]. induction l as [|x l IH]; [reflexivity|]. simpl.
  destruct (bool_decide (report_id x = id)) eqn:E; simpl; [exact IH|].
  now rewrite E.
Qed.

(** X4.  When the store accepts the deletion, [deleteReport] removes from
    the list exactly the reports carrying the identifier and keeps the others
    in their order; the identifier can no longer be opened.  When the
    deletion is refused or there is no database handle, the list, the open
    report and the toast are what they were and the rejection is passed
    on. *)
Theorem deleteReport_removes (db : option Firestore)
    (docDelete : JsString -> Promise unit) (seenActive : option JsString)
    (idToDelete : JsString) (s : App) :
  (isResolved (snd (dbDeleteReport db docDelete idToDelete)) = true ->
   (forall r, In r (reports (fst (deleteReport db docDelete seenActive idToDelete s)))
              <-> In r (reports s) /\ report_id r <> idToDelete)
   /\ reportIds (reports (fst (deleteReport db docDelete seenActive idToDelete s)))
      = List.filter (fun i => negb (bool_decide (i = idToDelete)))
          (reportIds (reports s))
   /\ findReport (Some idToDelete)
        (reports (fst (deleteReport db docDelete seenActive idToDelete s))) = None
   /\ toast (fst (deleteReport db docDelete seenActive idToDelete s))
      = {| show := true; message := js "Report deleted."; toastType := error |})
  /\ (isResolved (snd (dbDeleteReport db docDelete idToDelete)) = false ->
      isResolved (snd (deleteReport db docDelete seenActive idToDelete s)) = false
      /\ reports (fst (deleteReport db docDelete seenActive idToDelete s)) = reports s
      /\ activeReportId (fst (deleteReport db docDelete seenActive idToDelete s))
         = activeReportId s
      /\ toast (fst (deleteReport db docDelete seenActive idToDelete s)) = toast s).
Proof.
  unfold deleteReport.
  destruct (dbDeleteReport db docDelete idToDelete) as [lg outcome]. cbn [snd].
  destruct (logErrors_frame' lg s) as (L1 & L2 & L3 & L4 & _).
  split; intros Hres; destruct outcome as [r|e]; try discriminate; cbn [fst snd].
  - assert (Hr : reports
                   (showToast (js "Report deleted.") error
                      (if bool_decide (seenActive = Some idToDelete)
                       then setActiveReportId None
                              (setReports
                                 (List.filter
                                    (fun r => negb (bool_decide (report_id r = idToDelete)))
                                    (reports (logErrors lg s))) (logErrors lg s))
                       else setReports
                              (List.filter
                                 (fun r => negb (bool_decide (report_id r = idToDelete)))
                                 (reports (logErrors lg s))) (logErrors lg s)))
                 = List.filter (fun r => negb (bool_decide (report_id r = idToDelete)))
                     (reports s)).
    { rewrite L1. now destruct (bool_decide (seenActive = Some idToDelete)). }
    rewrite Hr. split; [|split; [|split]].
    + intros x. rewrite filter_In, negb_true_iff, bool_decide_eq_false. tauto.
    + apply filter_reportIds.
    + apply findReport_filtered.
    + now destruct (bool_decide (seenActive = Some idToDelete)).
  - cbn [isResolved]. now rewrite L1, L2, L4.
Qed.

Lemma deleteReport_removes_witness :
  findReport (Some (js "report-1"))
    (reports (fst (deleteReport (Some acceptingStore) (fun _ => Resolved tt) None
                     (js "report-1") (initial [demoDraft "x"] None))))
  = None.
Proof.
  exact (proj1 (proj2 (proj2 (proj1
    (deleteReport_removes (Some acceptingStore) (fun _ => Resolved tt) None
       (js "report-1") (initial [demoDraft "x"] None)) eq_refl)))).
Defined.

(** ** The editor: what an owner's interaction does *)

Lemma owner_update (e : Editor) (r : Report) (o : option bool) :
  isOwner e = true ->
  handleLocalUpdate e r o = [SetLocalReport r; OnUpdateReport r o].
Proof. intros Ho. unfold handleLocalUpdate. now rewrite Ho. Qed.

(** X5.  For the owner, [removePoint] issues one immediate update whose
    points are exactly the former points not carrying the identifier, in
    their order: every point with that identifier goes, also when several
    share it, and when none carries it the points are unchanged and the
    update is issued all the same. *)
Theorem removePoint_removes_all (e : Editor) (id : JsString) :
  isOwner e = true ->
  exists r',
    removePoint e id = [SetLocalReport r'; OnUpdateReport r' (Some true)]
    /\ sameIdentity r' (localReport e)
    /\ title r' = title (localReport e) /\ area r' = area (localReport e)
    /\ points r'
       = List.filter (fun p => negb (bool_decide (point_id p = id)))
           (points (localReport e))
    /\ (forall p, In p (points r')
                  <-> In p (points (localReport e)) /\ point_id p <> id)
    /\ length (points r') <= length (points (localReport e))
    /\ (Forall (fun p => point_id p <> id) (points (localReport e)) ->
        points r' = points (localReport e)).
Proof.
  intros Ho. unfold removePoint. rewrite Ho. cbn [negb].
  eexists. split; [apply owner_update, Ho|].
  split; [repeat split|]. split; [reflexivity|]. split; [reflexivity|].
  cbn [points setPoints]. split; [reflexivity|]. split; [|split].
  - intros p. rewrite filter_In, negb_true_iff, bool_decide_eq_false. tauto.
  - apply List.filter_length_le.
  - intros Hall. induction (points (localReport e)) as [|p l IH]; [reflexivity|].
    apply Forall_cons in Hall. destruct Hall as [Hp Hl]. simpl.
    rewrite bool_decide_eq_false_2 by exact Hp. simpl. now rewrite IH.
Qed.

Lemma removePoint_removes_all_witness :
  exists r',
    removePoint (editor (demoSession "u1" "u1")) (js "p1")
    = [SetLocalReport r'; OnUpdateReport r' (Some true)]
    /\ points r' = [].
Proof.
  destruct (removePoint_removes_all (editor (demoSession "u1" "u1")) (js "p1")
              eq_refl) as (r' & E & _ & _ & _ & Hf & _).
  exists r'. split; [exact E|]. rewrite Hf. reflexivity.
Defined.

Lemma map_point_field {A} (f : ReportPoint -> A) (g : ReportPoint -> ReportPoint)
    (id : JsString) (l : list ReportPoint) :
  (forall p, f (g p) = f p) ->
  List.map f (List.map (fun p => if bool_decide (point_id p = id) then g p else p) l)
  = List.map f l.
Proof.
  intros H. rewrite List.map_map. apply List.map_ext. intros p.
  destruct (bool_decide _); [apply H|reflexivity].
Qed.

(** X6.  For the owner, a text edit of a point issues one update that keeps
    the number, the order, the identifiers and the image lists of all
    points; every point carrying the identifier gets the new text, every
    other point is untouched. *)
Theorem text_edit_keeps_structure (e : Editor) (id t : JsString) (o : option bool) :
  isOwner e = true ->
  exists r',
    updatePoint e id (onlyText t) o = [SetLocalReport r'; OnUpdateReport r' o]
    /\ sameIdentity r' (localReport e)
    /\ List.map point_id (points r') = List.map point_id (points (localReport e))
    /\ List.map imagePaths (points r')
       = List.map imagePaths (points (localReport e))
    /\ (forall i p, points (localReport e) !! i = Some p ->
          points r' !! i
          = Some (if bool_decide (point_id p = id)
                  then {| point_id := point_id p; text := t;
                          imagePaths := imagePaths p |}
                  else p)).
Proof.
  intros Ho. unfold updatePoint. rewrite Ho. cbn [negb].
  eexists. split; [apply owner_update, Ho|].
  split; [repeat split|]. cbn [points setPoints].
  split; [now apply map_point_field|]. split; [now apply map_point_field|].
  intros i p Hi.
  change (List.map ?f ?l) with (f <$> l). rewrite list_lookup_fmap, Hi. reflexivity.
Qed.

Lemma text_edit_keeps_structure_witness :
  exists r',
    updatePoint (editor (demoSession "u1" "u1")) (js "p1") (onlyText (js "new")) None
    = [SetLocalReport r'; OnUpdateReport r' None]
    /\ List.map point_id (points r') = [js "p1"].
Proof.
  destruct (text_edit_keeps_structure (editor (demoSession "u1" "u1")) (js "p1")
              (js "new") None eq_refl) as (r' & E & _ & Hids & _).
  exists r'. split; [exact E|exact Hids].
Defined.

(** ** The editor session: every interaction *)

Lemma quiet_nil : quiet [].
Proof. now split. Qed.

Lemma quiet_app (l1 l2 : list Effect) : quiet l1 -> quiet l2 -> quiet (l1 ++ l2).
Proof.
  intros [A1 A2] [B1 B2]. unfold quiet, localUpdates, persistRequests in *.
  now rewrite !flat_map_app, A1, A2, B1, B2.
Qed.

Lemma setPoints_identity (r : Report) (pts : list ReportPoint) :
  sameIdentity (setPoints r pts) r.
Proof. repeat split. Qed.

Lemma setField_identity (r : Report) (f : Field) (v : JsString) :
  sameIdentity (setField r f v) r.
Proof. destruct f; repeat split. Qed.

Lemma updatePoint_shape (e : Editor) (id : JsString) (d : PartialPoint)
    (o : option bool) :
  isOwner e = true ->
  exists r, updatePoint e id d o = [SetLocalReport r; OnUpdateReport r o]
            /\ sameIdentity r (localReport e).
Proof.
  intros Ho. unfold updatePoint. rewrite Ho. cbn [negb].
  eexists. split; [apply owner_update, Ho|apply setPoints_identity].
Qed.

(** An interaction either sets and reports nothing, or it sets the local
    report once and reports that same report once, right after. *)
Lemma interact_shape (h : Host) (e : Editor) (i : Interaction) :
  quiet (interact h e i)
  \/ exists pre r o post,
       interact h e i = pre ++ [SetLocalReport r; OnUpdateReport r o] ++ post
       /\ quiet pre /\ quiet post /\ sameIdentity r (localReport e).
Proof.
  destruct (isOwner e) eqn:Ho.
  - destruct i; cbn [interact].
    + right. exists [], (setField (localReport e) field value), None, [].
      unfold updateField. rewrite owner_update by exact Ho.
      repeat split; apply setField_identity.
    + right. unfold addPoint. rewrite Ho. cbn [negb].
      eexists [], _, _, []. rewrite owner_update by exact Ho.
      split; [reflexivity|]. repeat split.
    + right. destruct (updatePoint_shape e id d options Ho) as (r & E & Hid).
      exists [], r, options, []. rewrite E. repeat split; apply Hid.
    + right. unfold removePoint. rewrite Ho. cbn [negb].
      eexists [], _, _, []. rewrite owner_update by exact Ho.
      split; [reflexivity|]. repeat split.
    + unfold handleImageUpload. rewrite Ho. cbn [negb]. rewrite orb_false_r.
      destruct (length files =? 0)%nat; [left; apply quiet_nil|].
      destruct (promiseAll (List.map (uploadOne h e) files)) as [newPaths|err].
      * right.
        destruct (updatePoint_shape e (point_id point)
                    (onlyImagePaths (imagePaths point ++ newPaths)) (Some true) Ho)
          as (r & E & Hid).
        exists ([SetIsProcessingImage true] ++ uploadCalls h e files), r, (Some true),
          [SetIsProcessingImage false; ResetFileInput].
        rewrite E, <- !app_assoc. split; [reflexivity|].
        split; [|split; [now split|exact Hid]].
        apply quiet_app; [now split|apply uploadCalls_quiet].
      * left. apply quiet_app; [now split|].
        apply quiet_app; [apply uploadCalls_quiet|now split].
    + unfold handleCapture. rewrite Ho, andb_true_r.
      destruct (negb (bool_decide (imageDataUrl = []))); [|left; now split].
      destruct (fetchBlob h imageDataUrl) as [blob|err]; [|left; now split].
      destruct (uploadImage h blob (userId (localReport e)) (report_id (localReport e)))
        as [imagePath|err]; [|left; now split].
      right.
      destruct (updatePoint_shape e (point_id point)
                  (onlyImagePaths (imagePaths point ++ [imagePath])) (Some true) Ho)
        as (r & E & Hid).
      exists [SetIsProcessingImage true;
              CallUploadImage blob (userId (localReport e)) (report_id (localReport e))],
        r, (Some true), [SetIsProcessingImage false; SetIsCameraOpen false].
      rewrite E. split; [reflexivity|]. split; [now split|]. split; [now split|exact Hid].
    + right. unfold handleRemoveImage. rewrite Ho. cbn [negb].
      destruct (updatePoint_shape e (point_id point)
                  (onlyImagePaths (delete imageIndex (imagePaths point))) (Some true) Ho)
        as (r & E & Hid).
      rewrite E. eexists [], r, (Some true), _. split; [reflexivity|].
      split; [apply quiet_nil|]. split; [|exact Hid].
      destruct (imagePaths point !! imageIndex) as [path|]; [|now split].
      destruct (deleteImage h path); now split.
  - left.
    destruct i; cbn [interact];
      unfold updateField, handleLocalUpdate, addPoint, updatePoint, removePoint,
        handleImageUpload, handleCapture, handleRemoveImage;
      rewrite Ho; cbn [negb]; rewrite ?orb_true_r, ?andb_false_r; now split.
Qed.

Lemma quiet_keeps (l : list Effect) (ss : Session) :
  quiet l ->
  editor (fold_left applyEffect l ss) = editor ss
  /\ app (fold_left applyEffect l ss) = app ss.
Proof. intros [L P]. now apply quiet_effects_keep_state. Qed.

(** What an interaction leaves behind, in terms of its one update. *)
Lemma perform_cases (h : Host) (ss : Session) (i : Interaction) :
  (editor (perform h ss i) = editor ss /\ app (perform h ss i) = app ss)
  \/ exists r o,
       sameIdentity r (localReport (editor ss))
       /\ editor (perform h ss i) = editing (editor ss) r
       /\ app (perform h ss i)
          = rerender (updateReport (rendered (app ss)) r o (app ss)).
Proof.
  unfold perform.
  destruct (interact_shape h (editor ss) i) as [Hq|(pre & r & o & post & E & Hpre & Hpost & Hid)].
  - left. now apply quiet_keeps.
  - right. exists r, o. split; [exact Hid|]. rewrite E, !fold_left_app.
    destruct (quiet_keeps pre ss Hpre) as (E1 & A1).
    cbn [fold_left].
    match goal with
    | |- editor (fold_left applyEffect post ?x) = _ /\ _ =>
        destruct (quiet_keeps post x Hpost) as (-> & ->)
    end.
    cbn [applyEffect editor app]. rewrite E1, A1. now split.
Qed.

(** X7.  No interaction of the editor changes the identifier, the owner or
    the creation time of the local report, nor the viewer: whoever may edit
    before an interaction may edit after it, and nobody else. *)
Theorem interactions_keep_identity (h : Host) (ss : Session) (i : Interaction) :
  sameIdentity (localReport (editor (perform h ss i))) (localReport (editor ss))
  /\ currentUserId (editor (perform h ss i)) = currentUserId (editor ss)
  /\ isOwner (editor (perform h ss i)) = isOwner (editor ss).
Proof.
  destruct (perform_cases h ss i) as [(-> & _)|(r & o & (H1 & H2 & H3) & -> & _)].
  - repeat split.
  - unfold isOwner, editing. cbn [localReport currentUserId].
    split; [repeat split; assumption|]. split; [reflexivity|]. now rewrite H2.
Qed.

Lemma updateReport_reports (cb : Callbacks) (r : Report) (o : option bool) (s : App) :
  reports (updateReport cb r o s) = replaceReport (reports s) r.
Proof.
  unfold updateReport. destruct (isImmediate o).
  - destruct (saveToDb_timers (cb_status cb) r
                (cancel (cb_debounced cb)
                   (setSyncStatus unsaved (setReports (replaceReport (reports s) r) s))))
      as (_ & _ & -> & _).
    now destruct (cancel_frame (cb_debounced cb)
                    (setSyncStatus unsaved (setReports (replaceReport (reports s) r) s)))
      as (_ & _ & _ & -> & _).
  - unfold debounced. now destruct (timeouts _ !! _).
Qed.

Lemma replaceReport_ids (l : list Report) (r : Report) :
  reportIds (replaceReport l r) = reportIds l.
Proof.
  unfold reportIds, replaceReport. rewrite List.map_map. apply List.map_ext.
  intros x. destruct (bool_decide (report_id x = report_id r)) eqn:E; [|reflexivity].
  now apply bool_decide_eq_true in E.
Qed.

Lemma replaceReport_find (l : list Report) (r x : Report) :
  findReport (Some (report_id r)) l = Some x ->
  findReport (Some (report_id r)) (replaceReport l r) = Some r.
Proof.
  cbn [findReport]. unfold replaceReport.
  induction l as [|y l IH]; [discriminate|]. simpl.
  destruct (bool_decide (report_id y = report_id r)) eqn:E.
  - intros _. now rewrite bool_decide_eq_true_2.
  - rewrite E. exact IH.
Qed.

Lemma replaceReport_absent (l : list Report) (r : Report) :
  findReport (Some (report_id r)) l = None -> replaceReport l r = l.
Proof.
  cbn [findReport]. unfold replaceReport.
  induction l as [|y l IH]; [reflexivity|]. simpl.
  destruct (bool_decide (report_id y = report_id r)); [discriminate|].
  intros H. now rewrite IH.
Qed.

(** X8.  The editor's local copy and the application's list stay in step:
    if the list's entry for the open report is the editor's local report
    before an interaction, it is so after it; and the list keeps its
    identifiers in their order. *)
Theorem local_copy_matches_list (h : Host) (ss : Session) (i : Interaction) :
  findReport (Some (report_id (localReport (editor ss)))) (reports (app ss))
  = Some (localReport (editor ss)) ->
  findReport (Some (report_id (localReport (editor (perform h ss i)))))
    (reports (app (perform h ss i)))
  = Some (localReport (editor (perform h ss i)))
  /\ reportIds (reports (app (perform h ss i))) = reportIds (reports (app ss)).
Proof.
  intros Hf.
  destruct (perform_cases h ss i) as [(-> & ->)|(r & o & (H1 & _) & -> & ->)].
  - now split.
  - destruct (rerender_frame (updateReport (rendered (app ss)) r o (app ss)))
      as (_ & _ & _ & _ & _ & -> & _).
    rewrite updateReport_reports. cbn [editing localReport].
    split; [|apply replaceReport_ids].
    rewrite <- H1 in Hf. now apply (replaceReport_find _ r _ Hf).
Qed.

Lemma local_copy_matches_list_witness :
  findReport (Some (js "report-1"))
    (reports (app (perform (demoHost 100 100) (demoSession "u1" "u1")
                     (DoUpdateField FieldTitle (js "Renamed")))))
  = Some (localReport (editor (perform (demoHost 100 100) (demoSession "u1" "u1")
                                 (DoUpdateField FieldTitle (js "Renamed"))))).
Proof.
  exact (proj1 (local_copy_matches_list (demoHost 100 100) (demoSession "u1" "u1")
                  (DoUpdateField FieldTitle (js "Renamed")) eq_refl)).
Defined.

Lemma setPoints_same (r : Report) : setPoints r (points r) = r.
Proof. now destruct r. Qed.

Lemma filter_keeps_all (id : JsString) (l : list ReportPoint) :
  Forall (fun p => point_id p <> id) l ->
  List.filter (fun p => negb (bool_decide (point_id p = id))) l = l.
Proof.
  induction 1 as [|p l Hp _ IH]; [reflexivity|]. simpl.
  rewrite bool_decide_eq_false_2 by exact Hp. simpl. now rewrite IH.
Qed.

(** X9.  Adding a point and then removing it gives back the local report
    as it was, provided no earlier point carries the identifier the new
    point got from the clock. *)
Theorem add_then_remove_restores (h : Host) (ss : Session) (dateNow : nat) :
  isOwner (editor ss) = true ->
  Forall (fun p => point_id p <> js "point-" ++ numberToString dateNow)
    (points (localReport (editor ss))) ->
  points (localReport (editor (perform h ss (DoAddPoint dateNow))))
  = points (localReport (editor ss))
    ++ [{| point_id := js "point-" ++ numberToString dateNow; text := [];
           imagePaths := [] |}]
  /\ localReport
       (editor (perform h (perform h ss (DoAddPoint dateNow))
                  (DoRemovePoint (js "point-" ++ numberToString dateNow))))
     = localReport (editor ss).
Proof.
  intros Ho Hfresh.
  assert (E1 : editor (perform h ss (DoAddPoint dateNow))
               = editing (editor ss)
                   (setPoints (localReport (editor ss))
                      (points (localReport (editor ss))
                       ++ [{| point_id := js "point-" ++ numberToString dateNow;
                              text := []; imagePaths := [] |}]))).
  { unfold perform. cbn [interact]. unfold addPoint. rewrite Ho. cbn [negb].
    rewrite owner_update by exact Ho. reflexivity. }
  split; [now rewrite E1|].
  unfold perform at 1. cbn [interact]. rewrite E1. unfold removePoint.
  assert (Ho' : isOwner (editing (editor ss)
                  (setPoints (localReport (editor ss))
                     (points (localReport (editor ss))
                      ++ [{| point_id := js "point-" ++ numberToString dateNow;
                             text := []; imagePaths := [] |}]))) = true) by exact Ho.
  rewrite Ho'. cbn [negb]. rewrite owner_update by exact Ho'.
  cbn [fold_left applyEffect editor localReport editing points setPoints].
  rewrite List.filter_app, filter_keeps_all by exact Hfresh.
  cbn [List.filter]. rewrite bool_decide_eq_true_2 by reflexivity. cbn [negb].
  rewrite app_nil_r.
  etransitivity; [|apply (setPoints_same (localReport (editor ss)))]. reflexivity.
Qed.

Lemma add_then_remove_restores_witness :
  localReport
    (editor (perform (demoHost 100 100)
               (perform (demoHost 100 100) (demoSession "u1" "u1") (DoAddPoint 7))
               (DoRemovePoint (js "point-7"))))
  = demoReport "u1" [demoCard].
Proof.
  refine (proj2 (add_then_remove_restores (demoHost 100 100) (demoSession "u1" "u1")
                   7 eq_refl _)).
  repeat constructor. vm_compute. discriminate.
Defined.

Lemma withImagePaths_identity (r : Report) (id : JsString) (l : list JsString) :
  sameIdentity (withImagePaths r id l) r.
Proof. repeat split. Qed.

(** X10.  For the owner, removing an image updates the local report first
    and whatever storage answers: the point's image list loses exactly the
    entry at the index, the path handed to storage for deletion is the
    entry removed, and a refused deletion is only logged.  With an index
    past the end the list is unchanged and no path is handed to storage. *)
Theorem remove_image_is_optimistic (h : Host) (e : Editor) (point : ReportPoint)
    (imageIndex : nat) :
  isOwner e = true ->
  exists post,
    handleRemoveImage h e point imageIndex
    = [SetLocalReport
         (withImagePaths (localReport e) (point_id point)
            (delete imageIndex (imagePaths point)));
       OnUpdateReport
         (withImagePaths (localReport e) (point_id point)
            (delete imageIndex (imagePaths point))) (Some true);
       CallDeleteImage (imagePaths point !! imageIndex)] ++ post
    /\ quiet post
    /\ (forall path, imagePaths point !! imageIndex = Some path ->
          imagePaths point
          = take imageIndex (imagePaths point) ++ path
            :: drop (S imageIndex) (imagePaths point)
          /\ delete imageIndex (imagePaths point)
             = take imageIndex (imagePaths point)
               ++ drop (S imageIndex) (imagePaths point)
          /\ S (length (delete imageIndex (imagePaths point)))
             = length (imagePaths point))
    /\ (length (imagePaths point) <= imageIndex ->
        delete imageIndex (imagePaths point) = imagePaths point
        /\ imagePaths point !! imageIndex = None).
Proof.
  intros Ho. unfold handleRemoveImage. rewrite Ho. cbn [negb].
  rewrite updatePoint_owner by exact Ho.
  eexists. split; [reflexivity|]. split; [|split].
  - destruct (imagePaths point !! imageIndex) as [path|]; [|now split].
    destruct (deleteImage h path); now split.
  - intros path Hp. split; [symmetry; now apply take_drop_middle|].
    split; [apply delete_take_drop|].
    rewrite length_delete by (now exists path).
    apply lookup_lt_Some in Hp. lia.
  - intros Hge. split; [|now apply lookup_ge_None_2].
    rewrite delete_take_drop, take_ge, drop_ge by lia. apply app_nil_r.
Qed.

Lemma remove_image_is_optimistic_witness :
  localUpdates (handleRemoveImage (demoHost 100 100) (editor (demoSession "u1" "u1"))
                  demoCard 0)
  = [withImagePaths (demoReport "u1" [demoCard]) (js "p1") []].
Proof.
  destruct (remove_image_is_optimistic (demoHost 100 100)
              (editor (demoSession "u1" "u1")) demoCard 0 eq_refl)
    as (post & E & (Hq & _) & _).
  rewrite E. unfold localUpdates in *. rewrite flat_map_app, Hq. reflexivity.
Defined.

(** X11.  A camera capture always ends by closing the camera dialog.  For
    the owner, when the captured picture is fetched and uploaded, the
    point's image list gets the new path appended in one immediate update;
    when the fetch or the upload fails, nothing is set or reported. *)
Theorem capture_appends_or_nothing (h : Host) (e : Editor) (point : ReportPoint)
    (imageDataUrl : JsString) :
  last (handleCapture h e point imageDataUrl) = Some (SetIsCameraOpen false)
  /\ (isOwner e = true -> imageDataUrl <> [] ->
      forall blob,
        fetchBlob h imageDataUrl = Resolved blob ->
        (forall path,
           uploadImage h blob (userId (localReport e)) (report_id (localReport e))
           = Resolved path ->
           localUpdates (handleCapture h e point imageDataUrl)
           = [withImagePaths (localReport e) (point_id point)
                (imagePaths point ++ [path])]
           /\ persistRequests (handleCapture h e point imageDataUrl)
              = [(withImagePaths (localReport e) (point_id point)
                    (imagePaths point ++ [path]), Some true)])
        /\ (isResolved (uploadImage h blob (userId (localReport e))
                          (report_id (localReport e))) = false ->
            quiet (handleCapture h e point imageDataUrl)))
  /\ (isResolved (fetchBlob h imageDataUrl) = false ->
      quiet (handleCapture h e point imageDataUrl)).
Proof.
  split; [unfold handleCapture; apply last_snoc|].
  split.
  - intros Ho Hne blob Hf. unfold handleCapture.
    rewrite Ho, (bool_decide_eq_false_2 _ Hne), Hf. cbn [negb andb].
    split.
    + intros path Hu. rewrite Hu, updatePoint_owner by exact Ho. now split.
    + intros Hu.
      destruct (uploadImage h blob _ _) as [p|err]; [discriminate|]. now split.
  - intros Hf. unfold handleCapture.
    destruct (negb (bool_decide (imageDataUrl = [])) && isOwner e); [|now split].
    destruct (fetchBlob h imageDataUrl) as [b|err]; [discriminate|]. now split.
Qed.

Lemma capture_appends_or_nothing_witness :
  localUpdates (handleCapture (demoHost 100 100) (editor (demoSession "u1" "u1"))
                  demoCard (js "shot"))
  = [withImagePaths (demoReport "u1" [demoCard]) (js "p1")
       [js "img"; js "images/u1/report-1/shot.jpg"]].
Proof.
  refine (proj1 (proj1 (proj1 (proj2
    (capture_appends_or_nothing (demoHost 100 100) (editor (demoSession "u1" "u1"))
       demoCard (js "shot"))) eq_refl _ _ eq_refl) _ eq_refl)).
  discriminate.
Defined.

(** ** Uploaded paths *)

Lemma uploadImage_path (h : Host) (b : Blob) (uid0 rid : JsString) (p : JsString) :
  uploadImage h b uid0 rid = Resolved p ->
  p = js "images/" ++ uid0 ++ js "/" ++ rid ++ js "/" ++ freshImageName h b.
Proof.
  unfold uploadImage. destruct (storage h) as [st|]; [|discriminate].
  destruct (uploadBytes st _ b); [|discriminate]. cbn. now intros [= <-].
Qed.

Lemma uploadOne_namespace (h : Host) (e : Editor) (file : File) (p : JsString) :
  uploadOne h e file = Resolved p -> imageNamespace (localReport e) `prefix_of` p.
Proof.
  unfold uploadOne. destruct (compressImageFile h file) as [b|err]; [|discriminate].
  cbn [andThen].
  destruct (uploadImage h b (userId (localReport e)) (report_id (localReport e)))
    as [q|err] eqn:E; [|discriminate].
  cbn [andThen]. intros [= <-]. apply uploadImage_path in E. subst q.
  exists (freshImageName h b). unfold imageNamespace. now rewrite <- !app_assoc.
Qed.

(** X12.  Every path a batch upload adds to a point lies in the namespace
    of the report's owner and of the report, [images/<userId>/<id>/]; there
    is one path per file, and without a storage handle no batch
    succeeds. *)
Theorem uploaded_paths_are_namespaced (h : Host) (e : Editor) (files : list File)
    (newPaths : list JsString) :
  promiseAll (List.map (uploadOne h e) files) = Resolved newPaths ->
  length newPaths = length files
  /\ Forall (fun p => imageNamespace (localReport e) `prefix_of` p) newPaths
  /\ (files <> [] -> storage h <> None).
Proof.
  revert newPaths. induction files as [|f fs IH]; intros newPaths H.
  - cbn in H. injection H as <-. repeat split; [constructor|congruence].
  - cbn [List.map promiseAll] in H.
    destruct (uploadOne h e f) as [p|err] eqn:E; [|discriminate].
    destruct (promiseAll (List.map (uploadOne h e) fs)) as [l|err]; [|discriminate].
    injection H as <-. destruct (IH l eq_refl) as (Hl & Hf & _).
    split; [cbn; now rewrite Hl|]. split.
    + constructor; [now apply (uploadOne_namespace h e f)|exact Hf].
    + intros _ Hs. unfold uploadOne in E.
      destruct (compressImageFile h f) as [b|]; [|discriminate]. cbn [andThen] in E.
      unfold uploadImage in E. rewrite Hs in E. discriminate.
Qed.

Lemma uploaded_paths_are_namespaced_witness :
  Forall (fun p => imageNamespace (demoReport "u1" [demoCard]) `prefix_of` p)
    [js "images/u1/report-1/a.jpg"].
Proof.
  exact (proj1 (proj2
    (uploaded_paths_are_namespaced (demoHost 100 100) (editor (demoSession "u1" "u1"))
       [js "a"] [js "images/u1/report-1/a.jpg"] eq_refl))).
Defined.

(** ** Voice typing *)

Lemma finalTranscript_fold (acc : JsString) (l : list SpeechResult) :
  fold_left (fun acc res => if isFinal res then acc ++ transcript res else acc) l acc
  = acc ++ concat (List.map transcript (List.filter isFinal l)).
Proof.
  revert acc. induction l as [|r l IH]; intros acc; cbn.
  - now rewrite app_nil_r.
  - rewrite IH. destruct (isFinal r); [|reflexivity]. cbn. now rewrite <- app_assoc.
Qed.

(** X13.  Voice typing only appends.  The transcript taken from an event is
    the concatenation of its final results from [resultIndex] on; interim
    results and earlier results never count.  When that transcript is
    empty, or the viewer is not the owner, or there is no speech API,
    nothing happens; otherwise one debounced update sets the point's text
    to its former text followed by the transcript. *)
Theorem voice_typing_appends (speechApiSupported : bool) (e : Editor)
    (point : ReportPoint) (resultIndex : nat) (results : list SpeechResult) :
  finalTranscriptOf resultIndex results
  = concat (List.map transcript (List.filter isFinal (drop resultIndex results)))
  /\ (finalTranscriptOf resultIndex results = [] ->
      onSpeechResult speechApiSupported e point resultIndex results = [])
  /\ (speechApiSupported && isOwner e = false ->
      onSpeechResult speechApiSupported e point resultIndex results = [])
  /\ (speechApiSupported = true -> isOwner e = true ->
      finalTranscriptOf resultIndex results <> [] ->
      onSpeechResult speechApiSupported e point resultIndex results
      = updatePoint e (point_id point)
          (onlyText (text point ++ finalTranscriptOf resultIndex results)) None
      /\ persistRequests (onSpeechResult speechApiSupported e point resultIndex results)
         = [(setPoints (localReport e)
               (List.map (fun p => if bool_decide (point_id p = point_id point)
                                   then {| point_id := point_id p;
                                           text := text point
                                                   ++ finalTranscriptOf resultIndex results;
                                           imagePaths := imagePaths p |}
                                   else p) (points (localReport e))), None)]).
Proof.
  split; [unfold finalTranscriptOf; now rewrite finalTranscript_fold|].
  split; [|split].
  - intros H. unfold onSpeechResult. rewrite H.
    now destruct (negb speechApiSupported || negb (isOwner e)).
  - intros H. unfold onSpeechResult.
    destruct speechApiSupported, (isOwner e); try discriminate; reflexivity.
  - intros -> Ho Hne. unfold onSpeechResult. rewrite Ho. cbn [negb orb].
    destruct (finalTranscriptOf resultIndex results) as [|c ft] eqn:E; [congruence|].
    split; [reflexivity|].
    unfold updatePoint. rewrite Ho. cbn [negb]. rewrite owner_update by exact Ho.
    reflexivity.
Qed.

Lemma voice_typing_appends_witness :
  persistRequests
    (onSpeechResult true (editor (demoSession "u1" "u1")) demoCard 1
       [{| isFinal := true; transcript := js "old" |};
        {| isFinal := false; transcript := js "hm" |};
        {| isFinal := true; transcript := js " ok" |}])
  = [(demoReport "u1" [demoPoint "p1" "text ok" ["img"]], None)].
Proof.
  refine (proj2 (proj2 (proj2 (proj2
    (voice_typing_appends true (editor (demoSession "u1" "u1")) demoCard 1
       [{| isFinal := true; transcript := js "old" |};
        {| isFinal := false; transcript := js "hm" |};
        {| isFinal := true; transcript := js " ok" |}]))) eq_refl eq_refl _)).
  discriminate.
Defined.

(** ** generatePdf: blocks and the bottom margin *)

Lemma currentY_emit (op : PdfOp) (st : PdfState) : currentY (emit op st) = currentY st.
Proof. reflexivity. Qed.

Lemma checkAndAddPage_cases (d : Q) (st : PdfState) :
  (checkAndAddPage d st = st /\ (currentY st + d <= a4Height - MARGINS.BOTTOM)%Q)
  \/ (checkAndAddPage d st = addPage st
      /\ (a4Height - MARGINS.BOTTOM < currentY st + d)%Q).
Proof.
  unfold checkAndAddPage.
  destruct (Qgtb (currentY st + d) (a4Height - MARGINS.BOTTOM)) eqn:E.
  - right. split; [reflexivity|now apply Qgtb_lt].
  - left. split; [reflexivity|now apply Qgtb_le].
Qed.

(** X14.  A text block no higher than the printable height of a page is
    never drawn across the bottom margin.  [addWrappedText] sets the font,
    then either draws the block at the cursor, when it ends at or above the
    bottom margin there, or adds one page and draws the block at its top
    margin; it makes no other call.  Either way the block ends at or above
    the bottom margin and the cursor is left right below it. *)
Theorem text_block_stays_on_page (h : Host) (txt : JsString) (fontSize : Q)
    (o : TextOptions) (st : PdfState) :
  (blockHeightOf h (isBold o) (isItalic o) fontSize txt <= printablePageHeight)%Q ->
  exists y,
    ((y = currentY st
      /\ (currentY st + blockHeightOf h (isBold o) (isItalic o) fontSize txt
          <= a4Height - MARGINS.BOTTOM)%Q
      /\ ops (addWrappedText h txt fontSize o st)
         = ops st
           ++ [OpSetFont (isBold o) (isItalic o); OpSetFontSize fontSize;
               OpText (splitTextToSize h (isBold o) (isItalic o) fontSize
                         (strOr txt (js " ")) printableWidth)
                 (match align o with
                  | Some AlignCenter => a4Width / 2
                  | _ => MARGINS.LEFT
                  end)%Q y
                 (match align o with Some a => a | None => AlignLeft end)])
     \/ (y = MARGINS.TOP
         /\ (a4Height - MARGINS.BOTTOM
             < currentY st + blockHeightOf h (isBold o) (isItalic o) fontSize txt)%Q
         /\ ops (addWrappedText h txt fontSize o st)
            = ops st
              ++ [OpSetFont (isBold o) (isItalic o); OpSetFontSize fontSize;
                  OpAddPage;
                  OpText (splitTextToSize h (isBold o) (isItalic o) fontSize
                            (strOr txt (js " ")) printableWidth)
                    (match align o with
                     | Some AlignCenter => a4Width / 2
                     | _ => MARGINS.LEFT
                     end)%Q y
                    (match align o with Some a => a | None => AlignLeft end)]))
    /\ (y + blockHeightOf h (isBold o) (isItalic o) fontSize txt
        <= a4Height - MARGINS.BOTTOM)%Q
    /\ currentY (addWrappedText h txt fontSize o st)
       = (y + blockHeightOf h (isBold o) (isItalic o) fontSize txt)%Q.
Proof.
  intros Hfit. unfold addWrappedText.
  fold (blockHeightOf h (isBold o) (isItalic o) fontSize txt).
  set (bh := blockHeightOf h (isBold o) (isItalic o) fontSize txt) in *.
  set (st2 := emit (OpSetFontSize fontSize) (emit (OpSetFont (isBold o) (isItalic o)) st)).
  assert (E2 : ops st2 = ops st ++ [OpSetFont (isBold o) (isItalic o);
                                    OpSetFontSize fontSize]).
  { unfold st2. rewrite !ops_emit, <- app_assoc. reflexivity. }
  destruct (checkAndAddPage_cases bh st2) as [(-> & Hle)|(-> & Hgt)].
  - exists (currentY st). split; [left|split; [exact Hle|reflexivity]].
    split; [reflexivity|]. split; [exact Hle|].
    rewrite ops_advanceY, ops_emit, E2, <- app_assoc. reflexivity.
  - exists MARGINS.TOP. split; [right|split; [|reflexivity]].
    + split; [reflexivity|]. split; [exact Hgt|].
      rewrite ops_advanceY, ops_emit. unfold addPage at 1.
      rewrite ops_setY, ops_emit, E2, <- !app_assoc. reflexivity.
    + unfold printablePageHeight, a4Height, MARGINS.TOP, MARGINS.BOTTOM in *. lra.
Qed.

Lemma text_block_stays_on_page_witness :
  exists y,
    pageBreaks (ops (addWrappedText (demoHost 1 1) (js "note") FONT_SIZES.BODY
                       plainText {| ops := []; currentY := 275; pdfLog := [] |}))
    = 1%nat
    /\ currentY (addWrappedText (demoHost 1 1) (js "note") FONT_SIZES.BODY
                   plainText {| ops := []; currentY := 275; pdfLog := [] |})
       = (y + blockHeightOf (demoHost 1 1) false false FONT_SIZES.BODY (js "note"))%Q.
Proof.
  destruct (text_block_stays_on_page (demoHost 1 1) (js "note") FONT_SIZES.BODY
              plainText {| ops := []; currentY := 275; pdfLog := [] |})
    as (y & _ & _ & Hc).
  { vm_compute. discriminate. }
  exists y. split; [vm_compute; reflexivity|exact Hc].
Defined.

(** ** generatePdf: the size of an image *)

Local Open Scope Q_scope.

Lemma round64_one : round64 1 = 1.
Proof. vm_compute. reflexivity. Qed.

Lemma fdiv_le_one (x y : Q) : 0 < y -> 0 <= x <= y -> 0 <= fdiv x y <= 1.
Proof.
  intros Hy [H0 H1]. unfold fdiv.
  assert (A : 0 <= x / y) by (apply Qle_shift_div_l; lra).
  assert (B : x / y <= 1) by (apply Qle_shift_div_r; lra).
  split; [now apply round64_nonneg|].
  rewrite <- round64_one. now apply round64_mono.
Qed.

Lemma desiredWidthOf_bounds (sizePercent : Q) :
  0 <= sizePercent <= 100 -> 0 <= desiredWidthOf sizePercent <= printableWidth.
Proof.
  intros Hs. unfold desiredWidthOf, fmul.
  destruct (fdiv_le_one sizePercent 100 ltac:(reflexivity) Hs) as [A B].
  set (q := fdiv sizePercent 100) in *.
  assert (P : printableWidth == 170) by reflexivity.
  assert (C : 0 <= printableWidth * q) by (rewrite P; lra).
  split; [now apply round64_nonneg|].
  assert (E : printableWidth = round64 printableWidth) by (vm_compute; reflexivity).
  rewrite E at 2. apply round64_mono; [exact C|]. rewrite P. lra.
Qed.

(** With the 55% setting a 187 x 504 picture comes out a hair above 252 mm,
    where the exact height is 252 mm: with its padding it no longer fits
    the printable height, and no page is added for it. *)
Lemma imgHeightOf_rounds_above :
  252 < imgHeightOf 55 {| data := []; width := 187; height := 504 |}
  /\ imgHeightOf 55 {| data := []; width := 187; height := 504 |} < 252 + (1 # 10 ^ 13)
  /\ pageBreaks
       (ops (placeImage 55 {| data := []; width := 187; height := 504 |}
               {| ops := []; currentY := 100; pdfLog := [] |}))
     = 0%nat.
Proof. repeat split; vm_compute; reflexivity. Qed.

(** X15.  The size of an image in the PDF, as the image loop computes it in
    doubles.  For a size setting between 0 and 100 the image is no wider
    than the printable width.  For a setting between 1 and 100 and a
    picture with positive [unsigned long] dimensions the width is the
    setting's share of the printable width and the height keeps the
    picture's aspect ratio, each up to a relative error of [2^-51]. *)
Theorem image_size_in_doubles (sizePercent : Q) (imgData : ImgData) :
  (0 <= sizePercent <= 100 ->
   0 <= desiredWidthOf sizePercent <= printableWidth)
  /\ (1 <= sizePercent <= 100 ->
      printableWidth * (sizePercent / 100) * (1 - (1 # 2 ^ 51))
      <= desiredWidthOf sizePercent
      <= printableWidth * (sizePercent / 100) * (1 + (1 # 2 ^ 51)))
  /\ (1 <= sizePercent <= 100 ->
      (0 < width imgData < 2 ^ 32)%Z -> (0 < height imgData < 2 ^ 32)%Z ->
      desiredWidthOf sizePercent
        * (inject_Z (height imgData) / inject_Z (width imgData))
        * (1 - (1 # 2 ^ 51))
      <= imgHeightOf sizePercent imgData
      <= desiredWidthOf sizePercent
         * (inject_Z (height imgData) / inject_Z (width imgData))
         * (1 + (1 # 2 ^ 51))).
Proof.
  assert (W : 1 <= sizePercent <= 100 ->
              printableWidth * (sizePercent / 100) * (1 - (1 # 2 ^ 51))
              <= desiredWidthOf sizePercent
              <= printableWidth * (sizePercent / 100) * (1 + (1 # 2 ^ 51))).
  { intros [H1 H2]. unfold desiredWidthOf. apply fmul_fdiv_error.
    - apply Qle_shift_div_l; [reflexivity|].
      change (1 # 2 ^ 64) with (1 # 18446744073709551616). lra.
    - vm_compute. discriminate. }
  split; [apply desiredWidthOf_bounds|]. split; [exact W|].
  intros Hs Hw Hh. unfold imgHeightOf.
  set (Wd := inject_Z (width imgData)). set (Hd := inject_Z (height imgData)).
  assert (HW1 : 1 <= Wd).
  { change 1 with (inject_Z 1). unfold Wd. rewrite <- Zle_Qle. lia. }
  assert (HW2 : Wd <= 4294967295).
  { change 4294967295 with (inject_Z (2 ^ 32 - 1)). unfold Wd. rewrite <- Zle_Qle. lia. }
  assert (HH1 : 1 <= Hd).
  { change 1 with (inject_Z 1). unfold Hd. rewrite <- Zle_Qle. lia. }
  apply fmul_fdiv_error.
  - apply Qle_shift_div_l; [lra|].
    change (1 # 2 ^ 64) with (1 # 18446744073709551616).
    clear - HW1 HW2 HH1. lra.
  - destruct (W Hs) as [L _]. destruct Hs as [S1 S2].
    assert (Q1 : 1 # 100 <= sizePercent / 100) by (apply Qle_shift_div_l; lra).
    set (q := sizePercent / 100) in *.
    assert (P : printableWidth == 170) by reflexivity. rewrite P in L.
    change (1 # 2 ^ 51) with (1 # 2251799813685248) in L.
    change (1 # 2 ^ 64) with (1 # 18446744073709551616).
    clear - L Q1. lra.
Qed.

Lemma image_size_in_doubles_witness :
  desiredWidthOf 55 * (inject_Z 504 / inject_Z 187) * (1 - (1 # 2 ^ 51))
  <= imgHeightOf 55 {| data := []; width := 187; height := 504 |}.
Proof.
  refine (proj1 (proj2 (proj2 (image_size_in_doubles 55
            {| data := []; width := 187; height := 504 |})) _ _ _)).
  - split; discriminate.
  - cbn. lia.
  - cbn. lia.
Defined.

Local Close Scope Q_scope.

(** ** generatePdf: a report that fits one page *)

Lemma pageBreaks_snoc (l : list PdfOp) (op : PdfOp) :
  op <> OpAddPage -> pageBreaks (l ++ [op]) = pageBreaks l.
Proof.
  intros Hne. unfold pageBreaks. rewrite List.filter_app, length_app.
  destruct op; cbn; try lia. congruence.
Qed.

Lemma blockHeightOf_nonneg (h : Host) (b i : bool) (fontSize : Q) (txt : JsString) :
  (0 <= fontSize)%Q -> (0 <= blockHeightOf h b i fontSize txt)%Q.
Proof.
  intros Hs. unfold blockHeightOf.
  repeat apply Qmult_le_0_compat; try exact Hs;
    try (unfold PT_TO_MM, LINE_HEIGHT; lra).
  change 0%Q with (inject_Z 0). rewrite <- Zle_Qle. lia.
Qed.

Lemma blockHeightOf_line (h : Host) (b i : bool) (fontSize : Q) (txt : JsString) :
  (0 <= fontSize)%Q ->
  splitTextToSize h b i fontSize (strOr txt (js " ")) printableWidth <> [] ->
  (lineHeightOf fontSize <= blockHeightOf h b i fontSize txt)%Q.
Proof.
  intros Hs Hne. unfold blockHeightOf, lineHeightOf.
  set (n := length _).
  assert (Hn : (1 <= inject_Z (Z.of_nat n))%Q).
  { change 1%Q with (inject_Z 1). rewrite <- Zle_Qle.
    subst n. destruct (splitTextToSize _ _ _ _ _ _); [congruence|cbn; lia]. }
  assert (Hc : (0 <= fontSize * PT_TO_MM * LINE_HEIGHT)%Q).
  { repeat apply Qmult_le_0_compat; try exact Hs; unfold PT_TO_MM, LINE_HEIGHT; lra. }
  assert (E : (inject_Z (Z.of_nat n) * fontSize * PT_TO_MM * LINE_HEIGHT
               == inject_Z (Z.of_nat n) * (fontSize * PT_TO_MM * LINE_HEIGHT))%Q)
    by ring.
  rewrite E.
  remember (fontSize * PT_TO_MM * LINE_HEIGHT)%Q as c.
  remember (inject_Z (Z.of_nat n)) as m. nra.
Qed.

Lemma addWrappedText_fits (h : Host) (txt : JsString) (fontSize : Q)
    (o : TextOptions) (st : PdfState) :
  (currentY st + blockHeightOf h (isBold o) (isItalic o) fontSize txt
   <= a4Height - MARGINS.BOTTOM)%Q ->
  pageBreaks (ops (addWrappedText h txt fontSize o st)) = pageBreaks (ops st)
  /\ currentY (addWrappedText h txt fontSize o st)
     = (currentY st + blockHeightOf h (isBold o) (isItalic o) fontSize txt)%Q.
Proof.
  intros Hfit. unfold addWrappedText.
  fold (blockHeightOf h (isBold o) (isItalic o) fontSize txt).
  set (bh := blockHeightOf h (isBold o) (isItalic o) fontSize txt) in *.
  set (st2 := emit (OpSetFontSize fontSize) (emit (OpSetFont (isBold o) (isItalic o)) st)).
  destruct (checkAndAddPage_cases bh st2) as [(-> & _)|(_ & Hgt)].
  - split; [|reflexivity].
    rewrite ops_advanceY, ops_emit, pageBreaks_snoc by discriminate.
    subst st2. now rewrite !ops_emit, !pageBreaks_snoc by discriminate.
  - exfalso. change (currentY st2) with (currentY st) in Hgt. lra.
Qed.

Lemma renderHeader_fits (h : Host) (r : Report) (st : PdfState) :
  (currentY st + headerExtent h r <= a4Height - MARGINS.BOTTOM)%Q ->
  pageBreaks (ops (renderHeader h r st)) = pageBreaks (ops st)
  /\ (currentY (renderHeader h r st) == currentY st + headerExtent h r)%Q.
Proof.
  unfold headerExtent. intros Hfit.
  pose proof (blockHeightOf_nonneg h true false FONT_SIZES.TITLE (title r)
                ltac:(unfold FONT_SIZES.TITLE; lra)) as N1.
  pose proof (blockHeightOf_nonneg h false false FONT_SIZES.HEADING_2 (area r)
                ltac:(unfold FONT_SIZES.HEADING_2; lra)) as N2.
  pose proof (blockHeightOf_nonneg h false true FONT_SIZES.META
                (js "Generated: " ++ toLocaleDateString h (createdAt r))
                ltac:(unfold FONT_SIZES.META; lra)) as N3.
  set (b1 := blockHeightOf h true false FONT_SIZES.TITLE (title r)) in *.
  set (b2 := blockHeightOf h false false FONT_SIZES.HEADING_2 (area r)) in *.
  set (b3 := blockHeightOf h false true FONT_SIZES.META
               (js "Generated: " ++ toLocaleDateString h (createdAt r))) in *.
  unfold renderHeader.
  set (o1 := {| isBold := true; isItalic := false; align := Some AlignCenter |}).
  set (o2 := {| isBold := false; isItalic := false; align := Some AlignCenter |}).
  set (o3 := {| isBold := false; isItalic := true; align := Some AlignCenter |}).
  destruct (addWrappedText_fits h (title r) FONT_SIZES.TITLE o1 st) as (P1 & Y1).
  { cbn [o1 isBold isItalic]. fold b1. lra. }
  set (s1 := addWrappedText h (title r) FONT_SIZES.TITLE o1 st) in *.
  destruct (addWrappedText_fits h (area r) FONT_SIZES.HEADING_2 o2 (advanceY 4 s1))
    as (P2 & Y2).
  { cbn [o2 isBold isItalic currentY advanceY setY]. fold b2. rewrite Y1.
    cbn [o1 isBold isItalic]. fold b1. lra. }
  set (s2 := addWrappedText h (area r) FONT_SIZES.HEADING_2 o2 (advanceY 4 s1)) in *.
  destruct (addWrappedText_fits h
              (js "Generated: " ++ toLocaleDateString h (createdAt r))
              FONT_SIZES.META o3 (advanceY 2 s2)) as (P3 & Y3).
  { cbn [o3 isBold isItalic currentY advanceY setY]. fold b3. rewrite Y2.
    cbn [o2 isBold isItalic currentY advanceY setY]. fold b2. rewrite Y1.
    cbn [o1 isBold isItalic]. fold b1. lra. }
  set (s3 := addWrappedText h _ FONT_SIZES.META o3 (advanceY 2 s2)) in *.
  split.
  - rewrite ops_advanceY, !ops_emit, !pageBreaks_snoc by discriminate.
    rewrite ops_advanceY, P3, ops_advanceY, P2, ops_advanceY, P1. reflexivity.
  - cbn [currentY advanceY setY emit]. rewrite Y3.
    cbn [o3 isBold isItalic currentY advanceY setY]. fold b3. rewrite Y2.
    cbn [o2 isBold isItalic currentY advanceY setY]. fold b2. rewrite Y1.
    cbn [o1 isBold isItalic]. fold b1. ring.
Qed.

Lemma checkAndAddPage_fits (d : Q) (st : PdfState) :
  (currentY st + d <= a4Height - MARGINS.BOTTOM)%Q -> checkAndAddPage d st = st.
Proof.
  intros H. destruct (checkAndAddPage_cases d st) as [(E & _)|(_ & Hgt)]; [exact E|].
  exfalso. lra.
Qed.

Lemma renderPoint_fits (h : Host) (sizes : gmap JsString Q) (total index : nat)
    (point : ReportPoint) (st : PdfState) :
  (forall b i fs t w, splitTextToSize h b i fs t w <> []) ->
  imagePaths point = [] ->
  (currentY st
   + pointExtent h index point (negb (Z.of_nat index <? Z.of_nat total - 1)%Z)
   <= a4Height - MARGINS.BOTTOM)%Q ->
  pageBreaks (ops (renderPoint h sizes total index point st)) = pageBreaks (ops st)
  /\ (currentY (renderPoint h sizes total index point st)
      == currentY st
         + pointExtent h index point (negb (Z.of_nat index <? Z.of_nat total - 1)%Z))%Q.
Proof.
  intros Hlines Himg. unfold pointExtent. intros Hfit.
  pose proof (blockHeightOf_line h true false FONT_SIZES.HEADING_3
                (js "Point #" ++ numberToString (index + 1))
                ltac:(unfold FONT_SIZES.HEADING_3; lra) (Hlines _ _ _ _ _)) as L1.
  pose proof (blockHeightOf_nonneg h false false FONT_SIZES.BODY (text point)
                ltac:(unfold FONT_SIZES.BODY; lra)) as N2.
  assert (L0 : (0 <= lineHeightOf FONT_SIZES.HEADING_3)%Q).
  { unfold lineHeightOf, FONT_SIZES.HEADING_3, PT_TO_MM, LINE_HEIGHT. lra. }
  set (b1 := blockHeightOf h true false FONT_SIZES.HEADING_3
               (js "Point #" ++ numberToString (index + 1))) in *.
  set (b2 := blockHeightOf h false false FONT_SIZES.BODY (text point)) in *.
  set (sep := if negb (Z.of_nat index <? Z.of_nat total - 1)%Z then 0%Q else 10%Q) in *.
  assert (Hsep : (0 <= sep)%Q) by (subst sep; destruct (negb _); lra).
  unfold renderPoint. rewrite Himg. cbn [renderImages].
  fold (lineHeightOf FONT_SIZES.HEADING_3).
  rewrite (checkAndAddPage_fits (lineHeightOf FONT_SIZES.HEADING_3) st) by lra.
  set (o1 := {| isBold := true; isItalic := false; align := None |}).
  destruct (addWrappedText_fits h (js "Point #" ++ numberToString (index + 1))
              FONT_SIZES.HEADING_3 o1 st) as (P1 & Y1).
  { cbn [o1 isBold isItalic]. fold b1. lra. }
  set (s1 := addWrappedText h _ FONT_SIZES.HEADING_3 o1 st) in *.
  destruct (addWrappedText_fits h (text point) FONT_SIZES.BODY plainText
              (advanceY 2 s1)) as (P2 & Y2).
  { cbn [plainText isBold isItalic currentY advanceY setY]. fold b2. rewrite Y1.
    cbn [o1 isBold isItalic]. fold b1. lra. }
  set (s2 := addWrappedText h (text point) FONT_SIZES.BODY plainText (advanceY 2 s1)) in *.
  assert (Y2' : (currentY (advanceY 5 s2) == currentY st + b1 + 2 + b2 + 5)%Q).
  { cbn [currentY advanceY setY]. rewrite Y2.
    cbn [plainText isBold isItalic currentY advanceY setY]. fold b2. rewrite Y1.
    cbn [o1 isBold isItalic]. fold b1. ring. }
  assert (P2' : pageBreaks (ops (advanceY 5 s2)) = pageBreaks (ops st)).
  { now rewrite ops_advanceY, P2, ops_advanceY, P1. }
  subst sep. destruct (Z.of_nat index <? Z.of_nat total - 1)%Z; cbn [negb] in *.
  - rewrite (checkAndAddPage_fits 10 (advanceY 5 s2)) by lra.
    split.
    + rewrite ops_advanceY, !ops_emit, !pageBreaks_snoc by discriminate.
      now rewrite ops_advanceY.
    + cbn [currentY advanceY setY emit] in *. rewrite Y2'. ring.
  - split; [exact P2'|]. rewrite Y2'. ring.
Qed.

Lemma pointsExtent_nonneg (h : Host) (total : nat) (pts : list ReportPoint) :
  forall index, (0 <= pointsExtent h total index pts)%Q.
Proof.
  induction pts as [|p rest IH]; intros index; cbn [pointsExtent]; [lra|].
  specialize (IH (S index)). unfold pointExtent.
  pose proof (blockHeightOf_nonneg h true false FONT_SIZES.HEADING_3
                (js "Point #" ++ numberToString (index + 1))
                ltac:(unfold FONT_SIZES.HEADING_3; lra)).
  pose proof (blockHeightOf_nonneg h false false FONT_SIZES.BODY (text p)
                ltac:(unfold FONT_SIZES.BODY; lra)).
  destruct (negb _); lra.
Qed.

Lemma renderPoints_fits (h : Host) (sizes : gmap JsString Q) (total : nat)
    (pts : list ReportPoint) :
  (forall b i fs t w, splitTextToSize h b i fs t w <> []) ->
  Forall (fun p => imagePaths p = []) pts ->
  forall (index : nat) (st : PdfState),
    (currentY st + pointsExtent h total index pts <= a4Height - MARGINS.BOTTOM)%Q ->
    pageBreaks (ops (renderPoints h sizes total index pts st)) = pageBreaks (ops st)
    /\ (currentY (renderPoints h sizes total index pts st)
        == currentY st + pointsExtent h total index pts)%Q.
Proof.
  intros Hlines Hall. induction Hall as [|p rest Hp _ IH]; intros index st Hfit;
    cbn [renderPoints pointsExtent] in *.
  - split; [reflexivity|ring].
  - pose proof (pointsExtent_nonneg h total rest (S index)) as Hn.
    destruct (renderPoint_fits h sizes total index p st Hlines Hp) as (P1 & Y1); [lra|].
    destruct (IH (S index) (renderPoint h sizes total index p st)) as (P2 & Y2).
    { rewrite Y1. lra. }
    split; [now rewrite P2|]. rewrite Y2, Y1. ring.
Qed.

(** X16.  A report without images whose header and points, with their
    spacing, fit between the margins is exported on a single page: the
    export adds no page, and the cursor ends at the top margin plus the
    height of everything drawn.  (jsPDF splits every text into at least one
    line.) *)
Theorem short_report_is_one_page (h : Host) (r : Report) (sizes : gmap JsString Q) :
  (forall b i fs t w, splitTextToSize h b i fs t w <> []) ->
  Forall (fun p => imagePaths p = []) (points r) ->
  (MARGINS.TOP + textExtent h r <= a4Height - MARGINS.BOTTOM)%Q ->
  pageBreaks (ops (fst (generatePdf h r sizes))) = 0%nat
  /\ (currentY (fst (generatePdf h r sizes)) == MARGINS.TOP + textExtent h r)%Q.
Proof.
  intros Hlines Hall Hfit. unfold textExtent in *. unfold generatePdf. cbn [fst].
  pose proof (pointsExtent_nonneg h (length (points r)) (points r) 0) as Hn.
  destruct (renderHeader_fits h r pdfStart) as (P1 & Y1).
  { cbn [currentY pdfStart]. lra. }
  destruct (renderPoints_fits h sizes (length (points r)) (points r) Hlines Hall 0
              (renderHeader h r pdfStart)) as (P2 & Y2).
  { rewrite Y1. cbn [currentY pdfStart]. lra. }
  split.
  - rewrite ops_emit, pageBreaks_snoc by discriminate. now rewrite P2, P1.
  - cbn [currentY emit]. rewrite Y2, Y1. cbn [currentY pdfStart]. ring.
Qed.

Lemma short_report_is_one_page_witness :
  pageBreaks
    (ops (fst (generatePdf (demoHost 1 1)
                 (demoReport "u1" [demoPoint "p1" "a" []; demoPoint "p2" "b" []]) ∅)))
  = 0%nat.
Proof.
  refine (proj1 (short_report_is_one_page (demoHost 1 1)
                   (demoReport "u1" [demoPoint "p1" "a" []; demoPoint "p2" "b" []])
                   ∅ _ _ _)).
  - intros b i fs t w. discriminate.
  - repeat constructor.
  - vm_compute. discriminate.
Defined.

(** ** The size table of the PDF preview *)

Lemma renderImage_sizes_ext (h : Host) (s1 s2 : gmap JsString Q)
    (point : ReportPoint) (i : nat) (path : JsString) (st : PdfState) :
  (forall k, numOr (s1 !! k) DEFAULT_SIZE_PERCENT = numOr (s2 !! k) DEFAULT_SIZE_PERCENT) ->
  renderImage h s1 point i path st = renderImage h s2 point i path st.
Proof.
  intros H. unfold renderImage. destruct (fetchImageData h path); [|reflexivity].
  now rewrite H.
Qed.

Lemma renderImages_sizes_ext (h : Host) (s1 s2 : gmap JsString Q)
    (point : ReportPoint) (paths : list JsString) :
  (forall k, numOr (s1 !! k) DEFAULT_SIZE_PERCENT = numOr (s2 !! k) DEFAULT_SIZE_PERCENT) ->
  forall i st, renderImages h s1 point i paths st = renderImages h s2 point i paths st.
Proof.
  intros H. induction paths as [|p rest IH]; intros i st; cbn [renderImages];
    [reflexivity|].
  now rewrite (renderImage_sizes_ext h s1 s2 point i p st H), IH.
Qed.

Lemma renderPoints_sizes_ext (h : Host) (s1 s2 : gmap JsString Q) (total : nat)
    (pts : list ReportPoint) :
  (forall k, numOr (s1 !! k) DEFAULT_SIZE_PERCENT = numOr (s2 !! k) DEFAULT_SIZE_PERCENT) ->
  forall i st, renderPoints h s1 total i pts st = renderPoints h s2 total i pts st.
Proof.
  intros H. induction pts as [|p rest IH]; intros i st; cbn [renderPoints];
    [reflexivity|].
  rewrite IH. f_equal. unfold renderPoint.
  now rewrite (renderImages_sizes_ext h s1 s2 p (imagePaths p) H).
Qed.

Lemma initialSizesOfPoint_inv (P : gmap JsString Q -> Prop) (point : ReportPoint) :
  (forall m k, P m -> P (<[k := 60%Q]> m)) ->
  forall l (acc : gmap JsString Q), P acc ->
    P (fold_left (fun m imgIndex => <[sizeKey point imgIndex := 60%Q]> m) l acc).
Proof.
  intros Hins. induction l as [|i l IH]; intros acc Hacc; cbn [fold_left];
    [exact Hacc|].
  apply IH, Hins, Hacc.
Qed.

Lemma initialSizes_inv (P : gmap JsString Q -> Prop) (pts : list ReportPoint) :
  (forall m k, P m -> P (<[k := 60%Q]> m)) ->
  forall acc, P acc -> P (fold_left initialSizesOfPoint pts acc).
Proof.
  intros Hins. induction pts as [|p rest IH]; intros acc Hacc; cbn [fold_left];
    [exact Hacc|].
  apply IH. unfold initialSizesOfPoint. now apply initialSizesOfPoint_inv.
Qed.

Lemma initialSizesOfPoint_sets (point : ReportPoint) (i : nat) :
  forall l (acc : gmap JsString Q), In i l ->
    fold_left (fun m imgIndex => <[sizeKey point imgIndex := 60%Q]> m) l acc
    !! sizeKey point i = Some 60%Q.
Proof.
  induction l as [|j l IH]; intros acc Hin; [destruct Hin|].
  cbn [fold_left]. destruct (in_dec Nat.eq_dec i l) as [Hl|Hl]; [now apply IH|].
  destruct Hin as [->|Hin]; [|contradiction].
  apply (initialSizesOfPoint_inv (fun m => m !! sizeKey point i = Some 60%Q)).
  - intros m k Hm. destruct (decide (k = sizeKey point i)) as [->|Hne].
    + apply lookup_insert_eq.
    + now rewrite lookup_insert_ne.
  - apply lookup_insert_eq.
Qed.

(** X17.  The table [handleGeneratePdfClick] builds holds 60 under the key
    of every image of every point and holds nothing but 60; the export
    reads a size table only through the percentages it yields, with 60 for
    a missing or zero entry, so exporting with the table as built gives the
    same PDF as exporting with an empty table. *)
Theorem preview_defaults_change_nothing (h : Host) (r : Report) :
  (forall k v, initialSizes r !! k = Some v -> v = 60%Q)
  /\ (forall point i,
        In point (points r) -> i < length (imagePaths point) ->
        initialSizes r !! sizeKey point i = Some 60%Q)
  /\ (forall s1 s2 : gmap JsString Q,
        (forall k, numOr (s1 !! k) DEFAULT_SIZE_PERCENT
                   = numOr (s2 !! k) DEFAULT_SIZE_PERCENT) ->
        generatePdf h r s1 = generatePdf h r s2)
  /\ generatePdf h r (initialSizes r) = generatePdf h r ∅.
Proof.
  assert (Hvals : forall k v, initialSizes r !! k = Some v -> v = 60%Q).
  { unfold initialSizes.
    apply (initialSizes_inv (fun m => forall k v, m !! k = Some v -> v = 60%Q)).
    - intros m k Hm k' v. destruct (decide (k = k')) as [->|Hne].
      + rewrite lookup_insert_eq. congruence.
      + rewrite lookup_insert_ne by exact Hne. apply Hm.
    - intros k v. rewrite lookup_empty. discriminate. }
  assert (Hext : forall s1 s2 : gmap JsString Q,
             (forall k, numOr (s1 !! k) DEFAULT_SIZE_PERCENT
                        = numOr (s2 !! k) DEFAULT_SIZE_PERCENT) ->
             generatePdf h r s1 = generatePdf h r s2).
  { intros s1 s2 H. unfold generatePdf.
    now rewrite (renderPoints_sizes_ext h s1 s2 _ (points r) H). }
  split; [exact Hvals|]. split; [|split; [exact Hext|]].
  - intros point i Hin Hi. unfold initialSizes.
    induction (points r) as [|p rest IH] in Hin |- * using rev_ind; [destruct Hin|].
    rewrite fold_left_app. cbn [fold_left].
    apply in_app_or in Hin. destruct Hin as [Hin|[->|[]]].
    + unfold initialSizesOfPoint at 1.
      apply (initialSizesOfPoint_inv (fun m => m !! sizeKey point i = Some 60%Q)).
      * intros m k Hm. destruct (decide (k = sizeKey point i)) as [->|Hne].
        -- apply lookup_insert_eq.
        -- now rewrite lookup_insert_ne.
      * now apply IH.
    + unfold initialSizesOfPoint. apply initialSizesOfPoint_sets.
      apply in_seq. lia.
  - apply Hext. intros k. rewrite lookup_empty.
    destruct (initialSizes r !! k) as [v|] eqn:E; [|reflexivity].
    now rewrite (Hvals k v E).
Qed.

Lemma preview_defaults_change_nothing_witness :
  initialSizes (demoReport "u1" [demoCard]) !! sizeKey demoCard 0 = Some 60%Q.
Proof.
  refine (proj1 (proj2 (preview_defaults_change_nothing (demoHost 1 1)
                          (demoReport "u1" [demoCard]))) demoCard 0 _ _).
  - now left.
  - cbn. lia.
Defined.

(** ** The page-break markers of the PDF preview *)

Lemma pageHeight_pos (w : Z) :
  (0 < w)%Z -> (0 < inject_Z w * A4_ASPECT_RATIO)%Q.
Proof.
  intros Hw. apply Qmult_lt_0_compat.
  - change 0%Q with (inject_Z 0). rewrite <- Zlt_Qlt. exact Hw.
  - reflexivity.
Qed.

(** X18.  The preview draws no marker when the page has no width.
    Otherwise the markers are the multiples of the page height that lie
    strictly inside the content: each is above the content's end, there is
    none when the content is no higher than one page, and their number is
    the number of pages minus one. *)
Theorem page_break_markers_lie_inside (contentHeight pageWidth : Z) :
  ((pageWidth <= 0)%Z -> previewPageBreaks contentHeight pageWidth = None)
  /\ ((0 < pageWidth)%Z ->
      exists l,
        previewPageBreaks contentHeight pageWidth = Some l
        /\ length l
           = Z.to_nat (Qceiling (inject_Z contentHeight
                                 / (inject_Z pageWidth * A4_ASPECT_RATIO)) - 1)
        /\ (forall i b, l !! i = Some b ->
              b = (inject_Z (Z.of_nat i + 1)
                   * (inject_Z pageWidth * A4_ASPECT_RATIO))%Q
              /\ (0 < b)%Q /\ (b < inject_Z contentHeight)%Q)
        /\ ((inject_Z contentHeight <= inject_Z pageWidth * A4_ASPECT_RATIO)%Q ->
            l = [])).
Proof.
  unfold previewPageBreaks. split.
  - intros Hw.
    assert (H : (inject_Z pageWidth * A4_ASPECT_RATIO <= 0)%Q).
    { assert (inject_Z pageWidth <= 0)%Q
        by (change 0%Q with (inject_Z 0); rewrite <- Zle_Qle; exact Hw).
      unfold A4_ASPECT_RATIO. remember (inject_Z pageWidth) as q.
      assert (E : (297 / 210 == 99 # 70)%Q) by reflexivity. rewrite E. lra. }
    apply Qle_bool_iff in H. now rewrite H.
  - intros Hw. pose proof (pageHeight_pos pageWidth Hw) as Hph.
    set (ph := (inject_Z pageWidth * A4_ASPECT_RATIO)%Q) in *.
    rewrite (Qle_bool_gt _ _ Hph).
    set (n := Qceiling (inject_Z contentHeight / ph)).
    eexists. split; [reflexivity|]. split; [now rewrite length_map, length_seq|].
    split.
    + intros i b Hi.
      change (List.map ?f ?l) with (f <$> l) in Hi.
      rewrite list_lookup_fmap in Hi.
      destruct (seq 0 (Z.to_nat (n - 1)) !! i) as [j|] eqn:Ej; [|discriminate].
      cbn in Hi. injection Hi as <-.
      apply lookup_seq in Ej. destruct Ej as [-> Hlt]. cbn [Nat.add].
      split; [reflexivity|].
      assert (Hpos : (0 < inject_Z (Z.of_nat i + 1))%Q).
      { change 0%Q with (inject_Z 0). rewrite <- Zlt_Qlt. lia. }
      split; [now apply Qmult_lt_0_compat|].
      assert (Hle : (inject_Z (Z.of_nat i + 1) <= inject_Z (n - 1))%Q).
      { rewrite <- Zle_Qle. lia. }
      pose proof (Qceiling_lt (inject_Z contentHeight / ph)) as Hc. fold n in Hc.
      assert (Hq : (inject_Z (Z.of_nat i + 1) < inject_Z contentHeight / ph)%Q)
        by (eapply Qle_lt_trans; eassumption).
      assert (E : (inject_Z contentHeight == inject_Z contentHeight / ph * ph)%Q).
      { field. intros H0. rewrite H0 in Hph. now apply Qlt_irrefl in Hph. }
      rewrite E. apply Qmult_lt_compat_r; assumption.
    + intros Hfit.
      assert (Hn : (n <= 1)%Z).
      { subst n. rewrite <- (Qceiling_Z 1). apply Qceiling_resp_le.
        apply Qle_shift_div_r; [exact Hph|]. now rewrite Qmult_1_l. }
      replace (Z.to_nat (n - 1)) with 0%nat by lia. reflexivity.
Qed.

Lemma page_break_markers_lie_inside_witness :
  exists l, previewPageBreaks 2500 700 = Some l /\ length l = 2%nat.
Proof.
  destruct (proj2 (page_break_markers_lie_inside 2500 700)) as (l & E & Hlen & _).
  { lia. }
  exists l. split; [exact E|]. rewrite Hlen. vm_compute. reflexivity.
Defined.

(** ** The picture sizes of the DOCX export *)

Local Open Scope Q_scope.

Lemma fmul_one_r (n : Z) : (0 <= n < 2 ^ 53)%Z -> fmul (inject_Z n) 1 == inject_Z n.
Proof.
  intros H. unfold fmul.
  rewrite (round64_comp (inject_Z n * 1) (inject_Z n)) by ring.
  now apply round64_Z.
Qed.

(** The scale of a picture at most 550 pixels wide is exactly 1. *)
Lemma scale_small (w : Z) :
  (0 < w <= 550)%Z -> Qmin 1 (fdiv 550 (inject_Z w)) = 1.
Proof.
  intros H. unfold Qmin.
  assert (HW : 0 < inject_Z w) by (change 0 with (inject_Z 0); rewrite <- Zlt_Qlt; lia).
  assert (HW2 : inject_Z w <= 550).
  { change 550 with (inject_Z 550). rewrite <- Zle_Qle. lia. }
  set (Wd := inject_Z w) in *. clearbody Wd. clear H.
  assert (A : 1 <= fdiv 550 Wd).
  { unfold fdiv. rewrite <- round64_one at 1. apply round64_mono; [discriminate|].
    apply Qle_shift_div_l; [exact HW|]. lra. }
  apply Qle_bool_iff in A. now rewrite A.
Qed.

(** The scale of a wider picture is the rounded quotient, below 1. *)
Lemma scale_large (w : Z) :
  (550 < w)%Z -> Qmin 1 (fdiv 550 (inject_Z w)) = fdiv 550 (inject_Z w).
Proof.
  intros H. unfold Qmin.
  assert (HW : 551 <= inject_Z w).
  { change 551 with (inject_Z 551). rewrite <- Zle_Qle. lia. }
  set (Wd := inject_Z w) in *. clearbody Wd. clear H.
  assert (A : fdiv 550 Wd <= round64 (550 # 551)).
  { unfold fdiv. apply round64_mono.
    - apply Qle_shift_div_l; lra.
    - apply Qle_shift_div_r; [lra|].
      assert (E : (550 # 551) * Wd == 550 * (Wd / 551)) by (field; lra).
      rewrite E. lra. }
  assert (B : round64 (550 # 551) < 1) by (vm_compute; reflexivity).
  rewrite Qle_bool_gt by lra. reflexivity.
Qed.

(** A picture wider than 550 pixels, from 2165 pixels on, can come out a
    hair wider than 550: the product of the width with the rounded scale
    is rounded again. *)
Lemma processImage_rounds_above :
  550 < fmul 2165 (Qmin 1 (fdiv 550 2165)) < 550 + (1 # 10 ^ 12)
  /\ 550 - (1 # 10 ^ 12) < fmul 1053 (Qmin 1 (fdiv 550 1053)) < 550.
Proof. repeat split; vm_compute; reflexivity. Qed.

(** X19.  A picture that [processImage] delivers was resolved, fetched and
    decoded, and nothing was logged.  A picture at most 550 pixels wide
    keeps its size exactly.  A wider one is given the width 550 and the
    height that keeps its proportions, both computed in doubles: each is
    within a relative error of [2^-51] of that value, so the width can
    exceed 550 in its last bits.  (Widths and heights are [unsigned long]
    attributes.) *)
Theorem docx_image_is_scaled_down (h : Host) (path : JsString) (d : DocxImage) :
  snd (processImage h path) = Some d ->
  exists downloadUrl blob image,
    getDownloadUrl h path = Resolved downloadUrl
    /\ fetchBlob h downloadUrl = Resolved blob
    /\ loadImage h (blob_content blob) = Resolved image
    /\ fst (processImage h path) = []
    /\ dx_data d = blob_content blob
    /\ ((0 <= natWidth image <= 550)%Z -> (0 <= natHeight image < 2 ^ 32)%Z ->
        dx_width d == inject_Z (natWidth image)
        /\ dx_height d == inject_Z (natHeight image))
    /\ ((550 < natWidth image < 2 ^ 32)%Z -> (0 < natHeight image < 2 ^ 32)%Z ->
        550 * (1 - (1 # 2 ^ 51)) <= dx_width d <= 550 * (1 + (1 # 2 ^ 51))
        /\ inject_Z (natHeight image) * (550 / inject_Z (natWidth image))
             * (1 - (1 # 2 ^ 51))
           <= dx_height d
           <= inject_Z (natHeight image) * (550 / inject_Z (natWidth image))
              * (1 + (1 # 2 ^ 51))).
Proof.
  unfold processImage.
  destruct (getDownloadUrl h path) as [url|e] eqn:Eu; cbn [andThen];
    [|discriminate].
  destruct (fetchBlob h url) as [blob|e] eqn:Eb; cbn [andThen]; [|discriminate].
  destruct (loadImage h (blob_content blob)) as [image|e] eqn:Ei; cbn [andThen];
    [|discriminate].
  cbn [fst snd]. intros [= <-]. exists url, blob, image.
  do 5 (split; [first [reflexivity | assumption]|]). cbn [dx_width dx_height].
  set (w := natWidth image). set (hh := natHeight image).
  split.
  - intros Hw Hh. destruct (Z.eqb_spec w 0) as [E0|E0].
    + split; apply fmul_one_r; lia.
    + rewrite scale_small by lia. split; apply fmul_one_r; lia.
  - intros Hw Hh. rewrite (proj2 (Z.eqb_neq w 0)) by lia.
    rewrite scale_large by lia.
    set (Wd := inject_Z w). set (Hd := inject_Z hh).
    assert (HW1 : 551 <= Wd).
    { change 551 with (inject_Z 551). unfold Wd. rewrite <- Zle_Qle. lia. }
    assert (HW2 : Wd <= 4294967295).
    { change 4294967295 with (inject_Z (2 ^ 32 - 1)). unfold Wd. rewrite <- Zle_Qle. lia. }
    assert (HH1 : 1 <= Hd).
    { change 1 with (inject_Z 1). unfold Hd. rewrite <- Zle_Qle. lia. }
    assert (Hq : (1 # 2 ^ 64) <= 550 / Wd).
    { apply Qle_shift_div_l; [lra|].
      change (1 # 2 ^ 64) with (1 # 18446744073709551616). clear - HW2. lra. }
    split.
    + assert (E : 550 == Wd * (550 / Wd)) by (field; lra).
      rewrite E at 1 4. apply fmul_fdiv_error; [exact Hq|].
      change (1 # 2 ^ 64) with (1 # 18446744073709551616). clear - HW1. lra.
    + apply fmul_fdiv_error; [exact Hq|].
      change (1 # 2 ^ 64) with (1 # 18446744073709551616). clear - HH1. lra.
Qed.

Lemma docx_image_is_scaled_down_witness :
  exists d, snd (processImage (demoHost 2165 800) (js "a.jpg")) = Some d
            /\ dx_width d <= 550 * (1 + (1 # 2 ^ 51)).
Proof.
  eexists. split; [reflexivity|].
  destruct (docx_image_is_scaled_down (demoHost 2165 800) (js "a.jpg") _ eq_refl)
    as (url & blob & image & Eu & Eb & Ei & _ & _ & _ & H).
  vm_compute in Eu. injection Eu as <-.
  vm_compute in Eb. injection Eb as <-.
  vm_compute in Ei. injection Ei as <-.
  apply H; cbn; lia.
Defined.

Local Close Scope Q_scope.

(** ** Leaving the editor *)

Lemma saveToDb_fresh (seen : SyncStatus) (r : Report) (s : App) :
  seen <> saving ->
  syncStatus (saveToDb seen r s) = saving
  /\ inflight (saveToDb seen r s) = inflight s ++ [length (saveCalls s)]
  /\ saveCalls (saveToDb seen r s) = saveCalls s ++ [r]
  /\ closing (saveToDb seen r s) = closing s
  /\ activeReportId (saveToDb seen r s) = activeReportId s.
Proof.
  intros H. unfold saveToDb. rewrite bool_decide_eq_false_2 by exact H.
  repeat split.
Qed.

Lemma closing_logErrors (lg : list LogEntry) (s : App) :
  closing (fold_left (fun s e => logError e s) lg s) = closing s.
Proof.
  revert s. induction lg as [|e lg IH]; intros s; [reflexivity|].
  cbn [fold_left]. now rewrite IH.
Qed.

Lemma closing_saveSettled (o : Promise Report) (s : App) :
  closing (saveSettled o s) = closing s.
Proof. destruct o; reflexivity. Qed.


(** While no [handleBackFromEditor] awaits the call, its settling leaves the
    open report open. *)
Lemma settle_keeps_open (db : option Firestore) (call : nat) (s : App) :
  ~ In call (closing s) -> activeReportId (settle db call s) = activeReportId s.
Proof.
  intros Hcl. unfold settle. destruct (bool_decide _); [|reflexivity].
  destruct (saveCalls s !! call) as [r|]; [|reflexivity].
  destruct (saveReport db r) as [lg o]. unfold resumeBack.
  rewrite closing_saveSettled, closing_logErrors. cbn [closing setInflight].
  rewrite bool_decide_eq_false_2 by (now rewrite list_elem_of_In).
  destruct (saveSettled_frame o
              (fold_left (fun s e => logError e s) lg
                 (setInflight (List.filter (fun c => negb (c =? call)%nat) (inflight s)) s)))
    as (_ & _ & _ & _ & -> & _).
  now destruct (logErrors_frame lg
                  (setInflight (List.filter (fun c => negb (c =? call)%nat) (inflight s)) s))
    as (_ & _ & _ & _ & -> & _).
Qed.



(** ** The calls in flight *)

Lemma callsAccounted_ext (s s' : App) :
  syncStatus s' = syncStatus s -> inflight s' = inflight s ->
  saveCalls s' = saveCalls s -> callsAccounted s -> callsAccounted s'.
Proof. unfold callsAccounted. intros -> -> ->. tauto. Qed.

Lemma callsAccounted_saveToDb (seen : SyncStatus) (r : Report) (s : App) :
  callsAccounted s -> callsAccounted (saveToDb seen r s).
Proof.
  intros [H1 H2]. destruct (decide (seen = saving)) as [E|E].
  - unfold saveToDb. rewrite bool_decide_eq_true_2 by exact E. now split.
  - destruct (saveToDb_fresh seen r s E) as (A & B & C & _).
    unfold callsAccounted. rewrite A, B, C. split.
    + intros _ H. now apply app_eq_nil in H as [_ H].
    + intros c Hc. rewrite length_app. cbn [length].
      apply in_app_or in Hc. destruct Hc as [Hc|[<-|[]]]; [|lia].
      specialize (H2 c Hc). lia.
Qed.

Lemma callsAccounted_idle (s s' : App) :
  syncStatus s' <> saving -> inflight s' = inflight s ->
  saveCalls s' = saveCalls s -> callsAccounted s -> callsAccounted s'.
Proof.
  unfold callsAccounted. intros Hs -> ->. intros [_ H]. split; [tauto|exact H].
Qed.

Lemma callsAccounted_rerender (s : App) : callsAccounted s -> callsAccounted (rerender s).
Proof.
  destruct (rerender_frame s) as (_ & _ & C & S & I & _).
  now apply callsAccounted_ext.
Qed.

Lemma callsAccounted_cancel (inst : nat) (s : App) :
  callsAccounted s -> callsAccounted (cancel inst s).
Proof.
  destruct (cancel_frame inst s) as (_ & C & S & _ & _ & I).
  now apply callsAccounted_ext.
Qed.

Lemma debounced_frame (inst : nat) (seen : SyncStatus) (r : Report) (s : App) :
  reports (debounced inst seen r s) = reports s
  /\ activeReportId (debounced inst seen r s) = activeReportId s
  /\ inflight (debounced inst seen r s) = inflight s.
Proof. unfold debounced. destruct (timeouts s !! inst); repeat split. Qed.

Lemma callsAccounted_updateReport (cb : Callbacks) (r : Report) (o : option bool)
    (s : App) :
  callsAccounted s -> callsAccounted (updateReport cb r o s).
Proof.
  intros H. unfold updateReport.
  assert (H0 : callsAccounted
                 (setSyncStatus unsaved (setReports (replaceReport (reports s) r) s))).
  { apply (callsAccounted_idle s); [discriminate|reflexivity|reflexivity|exact H]. }
  destruct (isImmediate o).
  - now apply callsAccounted_saveToDb, callsAccounted_cancel.
  - destruct (debounced_fields (cb_debounced cb) (cb_status cb) r
                (setSyncStatus unsaved (setReports (replaceReport (reports s) r) s)))
      as (_ & _ & S & _ & C & _).
    destruct (debounced_frame (cb_debounced cb) (cb_status cb) r
                (setSyncStatus unsaved (setReports (replaceReport (reports s) r) s)))
      as (_ & _ & I).
    now apply (callsAccounted_ext _ _ S I C).
Qed.

Lemma callsAccounted_back (s : App) :
  callsAccounted s -> callsAccounted (handleBackFromEditor s).
Proof.
  intros H. unfold handleBackFromEditor.
  destruct (findReport _ _) as [r|]; [|exact H].
  destruct (bool_decide _); [|exact H].
  apply (callsAccounted_ext
           (saveToDb (cb_status (rendered s)) r
              (cancel (cb_debounced (rendered s)) s))); try reflexivity.
  now apply callsAccounted_saveToDb, callsAccounted_cancel.
Qed.

Lemma callsAccounted_select (id : JsString) (s : App) :
  callsAccounted s -> callsAccounted (selectReport id s).
Proof.
  destruct (selectReport_frame id s) as (_ & _ & C & _ & I & S & _).
  now apply callsAccounted_ext.
Qed.

Lemma saveSettled_status (o : Promise Report) (s : App) :
  syncStatus (saveSettled o s) <> saving.
Proof. destruct o; discriminate. Qed.

Lemma callsAccounted_settle (db : option Firestore) (call : nat) (s : App) :
  callsAccounted s -> callsAccounted (settle db call s).
Proof.
  intros H. unfold settle. destruct (bool_decide _); [|exact H].
  destruct (saveCalls s !! call) as [r|]; [|exact H].
  destruct (saveReport db r) as [lg o].
  set (s1 := setInflight (List.filter (fun c => negb (c =? call)%nat) (inflight s)) s).
  apply (callsAccounted_ext
           (saveSettled o (fold_left (fun s e => logError e s) lg s1)));
    try (now destruct (resumeBack_frame call
                         (saveSettled o (fold_left (fun s e => logError e s) lg s1)))
           as (_ & _ & ? & _ & ? & ? & _)).
  destruct (saveSettled_frame o (fold_left (fun s e => logError e s) lg s1))
    as (_ & _ & C & _ & _ & I).
  destruct (logErrors_frame lg s1) as (_ & _ & C' & _ & _ & I').
  pose proof (saveSettled_status o (fold_left (fun s e => logError e s) lg s1)) as S.
  destruct H as [_ H]. split; [tauto|].
  intros c Hc. rewrite I, I' in Hc. rewrite C, C'.
  subst s1. cbn [inflight setInflight saveCalls] in *.
  apply filter_In in Hc. now apply H.
Qed.

Lemma callsAccounted_fire (tm : Timer) (s : App) :
  callsAccounted s -> callsAccounted (fire tm s).
Proof.
  intros H. unfold fire. apply callsAccounted_rerender, callsAccounted_saveToDb.
  now apply (callsAccounted_ext s).
Qed.

Lemma callsAccounted_fireAll (due : list Timer) :
  forall s : App, callsAccounted s -> callsAccounted (fireAll due s).
Proof.
  induction due as [|tm due IH]; intros s H; [exact H|].
  cbn [fireAll]. now apply IH, callsAccounted_fire.
Qed.

Lemma callsAccounted_advance (t : nat) (s : App) :
  callsAccounted s -> callsAccounted (advance t s).
Proof.
  intros H. unfold advance.
  apply (callsAccounted_ext (fireAll (List.filter (isDue t) (timers s)) s));
    try reflexivity.
  now apply callsAccounted_fireAll.
Qed.

Lemma callsAccounted_step (s : App) (e : Event) :
  callsAccounted s -> callsAccounted (step s e).
Proof.
  intros H. unfold step. apply callsAccounted_rerender.
  pose proof (callsAccounted_advance (eventTime e) s H) as Ha.
  destruct e; cbn [handle eventTime] in *.
  - now apply callsAccounted_updateReport.
  - now apply callsAccounted_back.
  - now apply callsAccounted_select.
  - now apply callsAccounted_settle.
  - exact Ha.
Qed.

(** X21.  Whatever the user and the store do after loading, the status
    ['saving'] is shown only while a [saveReport] call is in flight, every
    call in flight is one of the calls made, so that its settling is acted
    on, and the callbacks of the last render have captured the current
    status. *)
Theorem saving_means_call_in_flight (l : list Report) (a : option JsString)
    (es : list Event) :
  callsAccounted (run (initial l a) es)
  /\ (forall c, In c (inflight (run (initial l a) es)) ->
        is_Some (saveCalls (run (initial l a) es) !! c))
  /\ cb_status (rendered (run (initial l a) es)) = syncStatus (run (initial l a) es).
Proof.
  assert (H : callsAccounted (run (initial l a) es)).
  { assert (H0 : callsAccounted (initial l a)).
    { split; [discriminate|intros c []]. }
    revert H0. generalize (initial l a). induction es as [|e es IH]; intros s H0;
      [exact H0|].
    change (run s (e :: es)) with (run (step s e) es).
    now apply IH, callsAccounted_step. }
  split; [exact H|]. split.
  - intros c Hc. apply lookup_lt_is_Some. now apply H.
  - now apply run_status.
Qed.

Lemma saving_means_call_in_flight_witness :
  is_Some (saveCalls demoInFlight !! 0).
Proof.
  apply (proj1 (proj2 (saving_means_call_in_flight [demoDraft ""]
                         (Some (js "report-1"))
                         [EvEdit 0 (demoDraft "a") (Some true)]))).
  vm_compute. left. reflexivity.
Defined.

(** ** A burst of edits in the unsaved state *)

(** X22.  Where the status already is ['unsaved'], no timer is pending and
    no save is in flight,
    the debounce does what it is for: a burst of text edits, each less
    than [waitFor] after the one before, issues no [saveReport] call while
    it lasts, and once [waitFor] has passed after the last edit exactly one
    call has been issued, with the last report; no timer is left. *)
Theorem burst_in_unsaved_state_saves_once (s : App) (t : nat) (r : Report)
    (rest : list (nat * Report)) (final : Report) (T : nat) :
  timers s = [] -> inflight s = [] ->
  syncStatus s = unsaved -> cb_status (rendered s) = unsaved ->
  now s <= t -> withinWindow t rest ->
  last (r :: List.map snd rest) = Some final ->
  now (run s (burst ((t, r) :: rest))) + waitFor <= T ->
  saveCalls (run s (burst ((t, r) :: rest))) = saveCalls s
  /\ armed (run s (burst ((t, r) :: rest))) final
  /\ saveCalls (run s (burst ((t, r) :: rest) ++ [EvWait T])) = saveCalls s ++ [final]
  /\ timers (run s (burst ((t, r) :: rest) ++ [EvWait T])) = [].
Proof.
  intros Ht _ Hs Hcb Hnow Hw Hlast HT.
  destruct (edit_arms s t r Ht Hs Hcb Hnow) as (Ha & Hc & Hn).
  rewrite <- Hn in Hw.
  destruct (burst_rearms rest _ r Ha Hw) as (r' & Ha' & Hc' & Hl').
  rewrite Hlast in Hl'. injection Hl' as <-.
  change (run s (burst ((t, r) :: rest)))
    with (run (step s (EvEdit t r None)) (burst rest)) in *.
  destruct (wait_fires _ T final Ha' HT) as (Hw1 & Hw2).
  split; [now rewrite Hc', Hc|]. split; [exact Ha'|].
  assert (E : run s (burst ((t, r) :: rest) ++ [EvWait T])
              = step (run (step s (EvEdit t r None)) (burst rest)) (EvWait T)).
  { unfold run. now rewrite fold_left_app. }
  rewrite E. split; [now rewrite Hw1, Hc', Hc|exact Hw2].
Qed.

Lemma burst_in_unsaved_state_saves_once_witness :
  saveCalls (run demoRefused
               (burst [(100, demoDraft "ab"); (900, demoDraft "abc");
                       (2000, demoDraft "abcd")] ++ [EvWait 4000]))
  = saveCalls demoRefused ++ [demoDraft "abcd"].
Proof.
  refine (proj1 (proj2 (proj2 (burst_in_unsaved_state_saves_once demoRefused 100
            (demoDraft "ab") [(900, demoDraft "abc"); (2000, demoDraft "abcd")]
            (demoDraft "abcd") 4000 _ _ _ _ _ _ _ _)))).
  - reflexivity.
  - reflexivity.
  - reflexivity.
  - reflexivity.
  - vm_compute. lia.
  - vm_compute. lia.
  - reflexivity.
  - vm_compute. lia.
Defined.

(** ** The list of reports under editing *)

Lemma replaceReport_other (l : list Report) (r : Report) (id : JsString) :
  report_id r <> id ->
  findReport (Some id) (replaceReport l r) = findReport (Some id) l.
Proof.
  intros Hne. cbn [findReport]. unfold replaceReport.
  induction l as [|y l IH]; [reflexivity|]. simpl.
  destruct (bool_decide (report_id y = report_id r)) eqn:E.
  - apply bool_decide_eq_true in E.
    rewrite (bool_decide_eq_false_2 (report_id r = id)) by exact Hne.
    rewrite (bool_decide_eq_false_2 (report_id y = id)) by congruence.
    exact IH.
  - destruct (bool_decide (report_id y = id)); [reflexivity|exact IH].
Qed.

Lemma handle_reports (e : Event) (s : App) :
  reports (handle e s)
  = match e with
    | EvEdit _ r _ => replaceReport (reports s) r
    | _ => reports s
    end.
Proof.
  destruct e; cbn [handle].
  - apply updateReport_reports.
  - unfold handleBackFromEditor.
    destruct (findReport _ _); [|reflexivity].
    destruct (bool_decide _); [|reflexivity].
    unfold setClosing. cbn [reports].
    destruct (saveToDb_timers (cb_status (rendered s)) r
                (cancel (cb_debounced (rendered s)) s)) as (_ & _ & -> & _).
    now destruct (cancel_frame (cb_debounced (rendered s)) s) as (_ & _ & _ & -> & _).
  - now destruct (selectReport_frame id s) as (_ & _ & _ & -> & _).
  - now destruct (settle_frame db call s) as (_ & _ & _ & ->).
  - reflexivity.
Qed.

Lemma step_reports (s : App) (e : Event) :
  reports (step s e)
  = match e with
    | EvEdit _ r _ => replaceReport (reports s) r
    | _ => reports s
    end.
Proof.
  unfold step.
  destruct (rerender_frame (handle e (advance (eventTime e) s)))
    as (_ & _ & _ & _ & _ & -> & _).
  rewrite handle_reports.
  destruct (advance_frame (eventTime e) s) as (_ & _ & -> & _). reflexivity.
Qed.

(** X23.  Editing, leaving and opening reports, timers and settling saves
    never add, remove or reorder reports: the list keeps its identifiers.  The events change
    only the entries of the reports that are edited: the entry of a report
    no edit names is after the events what it was before. *)
Theorem events_keep_report_list (s : App) (es : list Event) :
  reportIds (reports (run s es)) = reportIds (reports s)
  /\ (forall id,
        Forall (fun e => editsReport id e = false) es ->
        findReport (Some id) (reports (run s es)) = findReport (Some id) (reports s)).
Proof.
  revert s. induction es as [|e es IH]; intros s; [now split|].
  change (run s (e :: es)) with (run (step s e) es).
  destruct (IH (step s e)) as [I1 I2]. split.
  - rewrite I1, step_reports. destruct e; try reflexivity. apply replaceReport_ids.
  - intros id Hf. inversion Hf as [|? ? He Hes]; subst.
    rewrite (I2 id Hes), step_reports.
    destruct e; try reflexivity. cbn [editsReport] in He.
    apply replaceReport_other. now apply bool_decide_eq_false in He.
Qed.

Lemma events_keep_report_list_witness :
  findReport (Some (js "report-1"))
    (reports (run (initial [demoDraft ""] (Some (js "report-1")))
                [EvBack 5; EvWait 2000]))
  = Some (demoDraft "").
Proof.
  rewrite (proj2 (events_keep_report_list (initial [demoDraft ""] (Some (js "report-1")))
                    [EvBack 5; EvWait 2000]) (js "report-1")).
  - reflexivity.
  - repeat constructor.
Defined.
